(** * A shallow embedding of the OOXML structural analyzer

    The development follows the layout of the Python package:
    - [Py]       : the fragment of the Python runtime the parsers rely on
                   (exceptions, [str.strip], [int()], [float()], [round()]);
    - [Xml]      : [xml.etree.ElementTree] elements and the path queries
                   [find] / [findall];
    - [Utils]    : [parsers/utils.py];
    - the parsers and [analysis/document_analyzer.py] after them.

    Python [str] values are modelled as [string] (a sequence of bytes, UTF-8
    for text outside ASCII); the character classes used by the number parsers
    are the ASCII ones.  Python [float] is the kernel's binary64 [float]. *)

From Stdlib Require Import ZArith List String Ascii Bool Lia Floats DecimalString Permutation Sorted.
Import ListNotations.

#[local] Set Warnings "-register-all,-inexact-float".

Local Open Scope string_scope.
Local Open Scope list_scope.
Local Open Scope Z_scope.

(* ===================================================================== *)
(** * The Python runtime fragment *)
(* ===================================================================== *)

Module Py.

(** ** Exceptions *)

Inductive exn : Type :=
| ValueError
| TypeError
| OverflowError
| ZeroDivisionError
| AttributeError
| FileNotFoundError
| BadZipFile
| ParseError
| Exception.

(** The outcome of evaluating an expression: a value or a raised exception. *)
Inductive exc (A : Type) : Type :=
| Val (a : A)
| Raise (e : exn).

Arguments Val {A} a.
Arguments Raise {A} e.

Definition bind {A B : Type} (m : exc A) (k : A -> exc B) : exc B :=
  match m with
  | Val a => k a
  | Raise e => Raise e
  end.

(** [try: body / except Exception: handler]. *)
Definition try_except {A : Type} (body : exc A) (handler : exn -> exc A) : exc A :=
  match body with
  | Val a => Val a
  | Raise e => handler e
  end.

Notation "x <- m ;; k" := (bind m (fun x => k))
  (at level 61, m at next level, right associativity).

(** A [for] loop threading a state through a body that may raise. *)
Fixpoint for_each {S A : Type} (body : S -> A -> exc S) (l : list A) (s : S) : exc S :=
  match l with
  | [] => Val s
  | x :: l' => s' <- body s x ;; for_each body l' s'
  end.

(** A list comprehension whose element expression may raise. *)
Fixpoint map_exc {A B : Type} (f : A -> exc B) (l : list A) : exc (list B) :=
  match l with
  | [] => Val []
  | x :: l' => y <- f x ;; ys <- map_exc f l' ;; Val (y :: ys)
  end.

Definition returns {A : Type} (m : exc A) : bool :=
  match m with
  | Val _ => true
  | Raise _ => false
  end.

(** ** Characters and [str.strip] *)

Definition code (c : ascii) : Z := Z.of_nat (nat_of_ascii c).

(** [Py_ISSPACE]: the whitespace skipped by [int()] and [float()]. *)
Definition is_c_space (c : ascii) : bool :=
  ((9 <=? code c) && (code c <=? 13)) || (code c =? 32).

(** The whitespace characters of [str.strip()] ([Py_UNICODE_ISSPACE]): the
    one-byte ones, then the two-byte and three-byte UTF-8 sequences of
    U+0085, U+00A0, U+1680, U+2000..U+200A, U+2028, U+2029, U+202F, U+205F
    and U+3000. *)
Definition is_space (c : ascii) : bool :=
  is_c_space c || ((28 <=? code c) && (code c <=? 31)).

Definition is_space2 (b1 b2 : ascii) : bool :=
  (code b1 =? 194) && ((code b2 =? 133) || (code b2 =? 160)).

Definition is_space3 (b1 b2 b3 : ascii) : bool :=
  ((code b1 =? 225) && (code b2 =? 154) && (code b3 =? 128))
  || ((code b1 =? 226) && (code b2 =? 128)
      && (((128 <=? code b3) && (code b3 <=? 138))
          || (code b3 =? 168) || (code b3 =? 169) || (code b3 =? 175)))
  || ((code b1 =? 226) && (code b2 =? 129) && (code b3 =? 159))
  || ((code b1 =? 227) && (code b2 =? 128) && (code b3 =? 128)).

(** What is left of [l] after the whitespace character it starts with, if
    it starts with one; with [backwards] the bytes of [l] are read in
    reverse order, as when stripping from the end. *)
Definition after_space (backwards : bool) (l : list ascii) : option (list ascii) :=
  match l with
  | b1 :: r1 =>
      if is_space b1 then Some r1
      else match r1 with
           | b2 :: r2 =>
               if (if backwards then is_space2 b2 b1 else is_space2 b1 b2) then Some r2
               else match r2 with
                    | b3 :: r3 =>
                        if (if backwards then is_space3 b3 b2 b1 else is_space3 b1 b2 b3)
                        then Some r3
                        else None
                    | [] => None
                    end
           | [] => None
           end
  | [] => None
  end.

(** Whitespace characters are dropped from the head of [l] as long as
    there is one; [fuel] bounds the number of characters dropped. *)
Fixpoint drop_spaces (fuel : nat) (backwards : bool) (l : list ascii) : list ascii :=
  match fuel with
  | O => l
  | S fuel' =>
      match after_space backwards l with
      | Some r => drop_spaces fuel' backwards r
      | None => l
      end
  end.

Definition is_digit (c : ascii) : bool :=
  (48 <=? code c) && (code c <=? 57).

Definition digit_val (c : ascii) : Z := code c - 48.

Fixpoint drop_while {A : Type} (p : A -> bool) (l : list A) : list A :=
  match l with
  | [] => []
  | x :: l' => if p x then drop_while p l' else l
  end.

Definition strip_with (p : ascii -> bool) (l : list ascii) : list ascii :=
  rev (drop_while p (rev (drop_while p l))).

(** [s.strip()] *)
Definition strip (s : string) : string :=
  let l := list_ascii_of_string s in
  let n := List.length l in
  string_of_list_ascii
    (rev (drop_spaces n true (rev (drop_spaces n false l)))).

(** Truthiness of a [str]: non-empty. *)
Definition truthy (s : string) : bool :=
  match s with
  | EmptyString => false
  | String _ _ => true
  end.

(** Truthiness of an optional [str] ([None] and [""] are falsy). *)
Definition otruthy (o : option string) : bool :=
  match o with
  | Some s => truthy s
  | None => false
  end.

(** ** Decimal literals *)

Fixpoint span_digits (l : list ascii) : list ascii * list ascii :=
  match l with
  | c :: l' =>
      if is_digit c
      then let (ds, r) := span_digits l' in (c :: ds, r)
      else ([], l)
  | [] => ([], [])
  end.

Definition Z_of_digits (ds : list ascii) : Z :=
  fold_left (fun acc c => 10 * acc + digit_val c) ds 0.

(** Underscores in a numeric literal are accepted only between two digits;
    the literal is then read without them. *)
Fixpoint drop_underscores (prev : option ascii) (l : list ascii)
  : option (list ascii) :=
  match l with
  | [] =>
      match prev with
      | Some "_"%char => None
      | _ => Some []
      end
  | c :: l' =>
      if Ascii.eqb c "_"
      then match prev with
           | Some p => if is_digit p then drop_underscores (Some c) l' else None
           | None => None
           end
      else match prev with
           | Some "_"%char =>
               if is_digit c
               then option_map (cons c) (drop_underscores (Some c) l')
               else None
           | _ => option_map (cons c) (drop_underscores (Some c) l')
           end
  end.

Definition split_sign (l : list ascii) : bool * list ascii :=
  match l with
  | "-"%char :: r => (true, r)
  | "+"%char :: r => (false, r)
  | _ => (false, l)
  end.

(** ** [int(s)] for a [str] argument, base 10 *)

Definition int_of_str (s : string) : exc Z :=
  let body := strip_with is_c_space (list_ascii_of_string s) in
  let (neg, r) := split_sign body in
  match drop_underscores None r with
  | Some ds =>
      match span_digits ds with
      | (_ :: _, []) => Val (if neg then - Z_of_digits ds else Z_of_digits ds)
      | _ => Raise ValueError
      end
  | None => Raise ValueError
  end.

(** [int(v)] where [v] is a [str] or [None]. *)
Definition py_int (v : option string) : exc Z :=
  match v with
  | Some s => int_of_str s
  | None => Raise TypeError
  end.

(** ** Binary64 values from exact integers and ratios *)

(** The double nearest (ties to even) to [p / q], for [0 < p] and [0 < q],
    with sign [s]; an infinity when the quotient is out of range. *)
Definition nearest_ratio (s : bool) (p q : Z) : spec_float :=
  let '(m, e, l) := SFdiv_core_binary prec emax p 0 q 0 in
  binary_round_aux prec emax s m e l.

(** The double nearest to the integer [n]. *)
Definition nearest_int (n : Z) : spec_float :=
  binary_normalize prec emax n 0 false.

(** [float(n)] for a Python [int]: [OverflowError] when [n] is too large. *)
Definition float_of_int (n : Z) : exc float :=
  match nearest_int n with
  | S754_infinity _ => Raise OverflowError
  | sf => Val (SF2Prim sf)
  end.

(** [n / d] for an [int] [n] and a [float] [d]. *)
Definition int_truediv_float (n : Z) (d : float) : exc float :=
  bind (float_of_int n) (fun x =>
    if (d =? 0)%float then Raise ZeroDivisionError else Val (x / d)%float).

(** ** [float(s)] for a [str] argument *)

(** The value [mant * 10 ^ e10] of a decimal literal, correctly rounded.
    Literals far outside the binary64 range are settled from the size of
    [mant] before any power of ten is computed. *)
Definition float_of_decimal (neg : bool) (mant e10 : Z) : spec_float :=
  if mant =? 0 then S754_zero neg
  else
    let est := Z.log2 mant * 30103 / 100000 + e10 in
    if 310 <? est then S754_infinity neg
    else if est <? -330 then S754_zero neg
    else if 0 <=? e10
         then binary_normalize prec emax
                (if neg then - (mant * 10 ^ e10) else mant * 10 ^ e10) 0 neg
         else nearest_ratio neg mant (10 ^ (- e10)).

Definition lower (c : ascii) : ascii :=
  if (65 <=? code c) && (code c <=? 90)
  then ascii_of_nat (nat_of_ascii c + 32)
  else c.

Definition is_e (c : ascii) : bool := Ascii.eqb (lower c) "e".

(** digits [. digits] [e [sign] digits], with a digit before or after the
    point; the whole input must be consumed. *)
Definition parse_decimal (l : list ascii) : option (Z * Z) :=
  let (ip, r1) := span_digits l in
  let (fp, r2) :=
    match r1 with
    | "."%char :: r => span_digits r
    | _ => ([], r1)
    end in
  match ip ++ fp with
  | [] => None
  | ds =>
      let frac := Z.of_nat (List.length fp) in
      match r2 with
      | [] => Some (Z_of_digits ds, - frac)
      | c :: r3 =>
          if is_e c
          then let (eneg, r4) := split_sign r3 in
               match span_digits r4 with
               | ((_ :: _) as ed, []) =>
                   Some (Z_of_digits ds,
                         (if eneg then - Z_of_digits ed else Z_of_digits ed) - frac)
               | _ => None
               end
          else None
      end
  end.

(** [inf], [infinity] and [nan], in any letter case. *)
Definition parse_inf_nan (neg : bool) (l : list ascii) : option spec_float :=
  let w := string_of_list_ascii (map lower l) in
  if String.eqb w "inf" || String.eqb w "infinity" then Some (S754_infinity neg)
  else if String.eqb w "nan" then Some S754_nan
  else None.

Definition float_of_str (s : string) : exc float :=
  let body := strip_with is_c_space (list_ascii_of_string s) in
  match drop_underscores None body with
  | None => Raise ValueError
  | Some body' =>
      let (neg, r) := split_sign body' in
      match parse_decimal r with
      | Some (mant, e10) => Val (SF2Prim (float_of_decimal neg mant e10))
      | None =>
          match parse_inf_nan neg r with
          | Some sf => Val (SF2Prim sf)
          | None => Raise ValueError
          end
      end
  end.

(** [float(v)] where [v] is a [str] or [None]. *)
Definition py_float (v : option string) : exc float :=
  match v with
  | Some s => float_of_str s
  | None => Raise TypeError
  end.

(** ** [round(x, ndigits)] for a [float] [x] and [0 <= ndigits] *)

(** The integer nearest to [p / q] ([0 <= p], [0 < q]), ties to even. *)
Definition round_half_even (p q : Z) : Z :=
  let k := p / q in
  let r := p mod q in
  match 2 * r ?= q with
  | Lt => k
  | Gt => k + 1
  | Eq => if Z.even k then k else k + 1
  end.

(** Infinities and NaN round to themselves; a finite value is rounded, from
    its exact binary expansion, to the nearest decimal with [ndigits] places
    and that decimal is read back as a double. *)
Definition py_round (x : float) (ndigits : Z) : float :=
  match Prim2SF x with
  | S754_finite s m e =>
      let scale := 10 ^ ndigits in
      let k := if 0 <=? e
               then round_half_even (Zpos m * 2 ^ e * scale) 1
               else round_half_even (Zpos m * scale) (2 ^ (- e)) in
      if k =? 0 then SF2Prim (S754_zero s)
      else SF2Prim (nearest_ratio s k scale)
  | _ => x
  end.

(** ** [repr(x)] for a [float] *)

(** The decimal digits of a positive integer. *)
Definition digits_of (j : Z) : string := NilEmpty.string_of_uint (N.to_uint (Z.to_N j)).

Fixpoint zeros (n : nat) : string :=
  match n with
  | O => EmptyString
  | S n' => String "0" (zeros n')
  end.

(** The shortest decimal [j * 10 ^ k] that reads back as the double
    [m * 2 ^ e]: the search goes down from the position [k] and stops at the
    first one where a multiple of [10 ^ k] lies inside the rounding
    interval of the double; of the multiples inside, the one nearest to the
    double is taken. *)
Fixpoint shortest_from (fuel : nat) (m : positive) (e k : Z) : Z * Z :=
  let tight := (Zpos m =? 2 ^ 52) && (-1074 <? e) in
  let shift2 := e - 2 in
  let den2 := if shift2 <? 0 then 2 ^ (- shift2) else 1 in
  let up2 := if shift2 <? 0 then 1 else 2 ^ shift2 in
  let up10 := if k <? 0 then 10 ^ (- k) else 1 in
  let a := den2 * (if k <? 0 then 1 else 10 ^ k) in
  let lo := (4 * Zpos m - (if tight then 1 else 2)) * up2 * up10 in
  let hi := (4 * Zpos m + 2) * up2 * up10 in
  let v := 4 * Zpos m * up2 * up10 in
  let closed := Z.even (Zpos m) in
  let jmin := if closed then (lo + a - 1) / a else lo / a + 1 in
  let jmax := if closed then hi / a else (hi - 1) / a in
  match fuel with
  | O => (round_half_even v a, k)
  | S fuel' =>
      if jmin <=? jmax
      then (Z.max jmin (Z.min jmax (round_half_even v a)), k)
      else shortest_from fuel' m e (k - 1)
  end.

Definition shortest (m : positive) (e : Z) : Z * Z :=
  shortest_from 400 m e ((Z.log2 (Zpos m) + e + 2) * 30103 / 100000 + 2).

Definition exponent_str (x : Z) : string :=
  let d := if x =? 0 then "0" else digits_of (Z.abs x) in
  let sign := if x <? 0 then "-" else "+" in
  let pad := if Z.abs x <? 10 then "0" else "" in
  sign ++ pad ++ d.

(** [str(n)] for a natural number. *)
Definition str_nat (n : nat) : string :=
  match n with
  | O => "0"
  | _ => digits_of (Z.of_nat n)
  end.

(** The layout of [repr]: scientific notation when the decimal point falls
    at or before position [-4] or after position [16]; otherwise plain
    notation with at least one digit after the point. *)
Definition format_short (ds : string) (decpt : Z) : string :=
  let len := String.length ds in
  let n := Z.of_nat len in
  let pt := Z.to_nat decpt in
  if (decpt <=? -4) || (16 <? decpt)
  then
    let frac := String.substring 1 (len - 1) ds in
    String.substring 0 1 ds
      ++ (if truthy frac then "." ++ frac else "")
      ++ "e" ++ exponent_str (decpt - 1)
  else if decpt <=? 0
  then "0." ++ zeros (Z.to_nat (- decpt)) ++ ds
  else if n <=? decpt
  then ds ++ zeros (Z.to_nat (decpt - n)) ++ ".0"
  else String.substring 0 pt ds ++ "." ++ String.substring pt (len - pt) ds.

Definition repr_float (x : float) : string :=
  match Prim2SF x with
  | S754_nan => "nan"
  | S754_infinity s => if s then "-inf" else "inf"
  | S754_zero s => if s then "-0.0" else "0.0"
  | S754_finite s m e =>
      let (j, k) := shortest m e in
      let ds := digits_of j in
      (if s then "-" else "") ++ format_short ds (Z.of_nat (String.length ds) + k)
  end.

(** Truthiness of a [float]: non-zero (NaN is truthy). *)
Definition ftruthy (x : float) : bool := negb (x =? 0)%float.

End Py.


Import Py.

(* ===================================================================== *)
(** * [xml.etree.ElementTree] *)
(* ===================================================================== *)

Module Xml.

(** An element: its tag in Clark notation ([{uri}local]), its attributes in
    document order, the text before its first child ([None] when there is
    none) and its children. *)
Inductive elem : Type :=
| Elem (tag : string) (attrib : list (string * string))
       (text : option string) (children : list elem).

Definition tag (e : elem) : string := let 'Elem t _ _ _ := e in t.
Definition attrib (e : elem) : list (string * string) := let 'Elem _ a _ _ := e in a.
Definition text (e : elem) : option string := let 'Elem _ _ t _ := e in t.
Definition children (e : elem) : list elem := let 'Elem _ _ _ c := e in c.

(** [d.get(key)] on an attribute dictionary. *)
Fixpoint get (d : list (string * string)) (key : string) : option string :=
  match d with
  | [] => None
  | (k, v) :: d' => if String.eqb k key then Some v else get d' key
  end.

(** [d.get(key, default)] *)
Definition get_default (d : list (string * string)) (key default : string) : string :=
  match get d key with
  | Some v => v
  | None => default
  end.

(** [key in d] *)
Definition has_key (d : list (string * string)) (key : string) : bool :=
  match get d key with
  | Some _ => true
  | None => false
  end.

(** [e.iter()]: the element and all its descendants, in document order. *)
Fixpoint iter (e : elem) : list elem :=
  match e with
  | Elem _ _ _ cs => e :: flat_map iter cs
  end.

(** The proper descendants of an element, in document order. *)
Definition descendants (e : elem) : list elem := flat_map iter (children e).

(** One step of a path: [tag] selects children, [//tag] selects proper
    descendants. *)
Inductive step : Type :=
| Child (t : string)
| Desc (t : string).

Definition has_tag (t : string) (e : elem) : bool := String.eqb (tag e) t.

Definition select (s : step) (e : elem) : list elem :=
  match s with
  | Child t => filter (has_tag t) (children e)
  | Desc t => filter (has_tag t) (descendants e)
  end.

(** [e.findall(path, NS)]: each step is applied to every element selected
    so far, results concatenated in order. *)
Fixpoint findall (p : list step) (e : elem) : list elem :=
  match p with
  | [] => [e]
  | s :: p' => flat_map (findall p') (select s e)
  end.

(** [e.find(path, NS)]: the first match, if any. *)
Definition find (p : list step) (e : elem) : option elem :=
  hd_error (findall p e).

Definition is_some {A : Type} (o : option A) : bool :=
  match o with
  | Some _ => true
  | None => false
  end.

End Xml.

Import Xml.

(* ===================================================================== *)
(** * [parsers/utils.py] *)
(* ===================================================================== *)

Module Utils.

(** The namespace table [NS]. *)
Definition NS : list (string * string) :=
  [ ("w",   "http://schemas.openxmlformats.org/wordprocessingml/2006/main");
    ("a",   "http://schemas.openxmlformats.org/drawingml/2006/main");
    ("wp",  "http://schemas.openxmlformats.org/wordprocessingDrawing");
    ("r",   "http://schemas.openxmlformats.org/officeDocument/2006/relationships");
    ("wps", "http://schemas.microsoft.com/office/word/2010/wordprocessingShape");
    ("v",   "urn:schemas-microsoft-com:vml");
    ("w14", "http://schemas.microsoft.com/office/word/2010/wordml");
    ("mc",  "http://schemas.openxmlformats.org/markup-compatibility/2006") ].

(** The qualified name [prefix:local] resolved against [NS], as the tag or
    attribute key [{uri}local]. *)
Definition qn (prefix local : string) : string :=
  ("{" ++ get_default NS prefix "" ++ "}" ++ local)%string.

Definition HALF_POINT_TO_PT : float := 0.5%float.
Definition EMU_PER_CM : float := 360000%float.
Definition PT_TO_CM : float := 0.0352778%float.

(** [try: return round(float(v) * HALF_POINT_TO_PT, 2)
    except Exception: return None] *)
Definition half_point_to_pt (v : option string) : exc (option float) :=
  try_except
    (x <- py_float v ;;
     Val (Some (py_round (x * HALF_POINT_TO_PT)%float 2)))
    (fun _ => Val None).

(** [try: return round(int(v) / EMU_PER_CM, 3)
    except Exception: return None] *)
Definition emu_to_cm (v : option string) : exc (option float) :=
  try_except
    (n <- py_int v ;;
     q <- int_truediv_float n EMU_PER_CM ;;
     Val (Some (py_round q 3)))
    (fun _ => Val None).

End Utils.

Import Utils.

(* ===================================================================== *)
(** * Runs and their styles *)
(* ===================================================================== *)

(** The [fonts] entry of a run style: the four font slots of [w:rFonts],
    each the attribute value or [None]. *)
Record font_slots : Type := Fonts {
  f_ascii : option string;
  f_eastAsia : option string;
  f_cs : option string;
  f_hAnsi : option string
}.

(** The style dictionary built by [parse_run_props].  A key that may be
    missing is an [option]; [size_pt] may be present with the value [None];
    [bold], [italic], [underline] and [strike] are present (with [True]) or
    missing. *)
Record style : Type := Style {
  styleName : option string;
  fonts : option font_slots;
  size_pt : option (option float);
  bold : bool;
  italic : bool;
  color : option string;
  spacing_cm : option float;
  background_color : option string;
  underline : bool;
  strike : bool
}.

(** The empty dictionary [{}]. *)
Definition no_style : style :=
  Style None None None false false None None None false false.

(** A run dictionary [{"text": ..., "style": ...}]; the text of an empty
    [w:t] element is [None]. *)
Record run : Type := Run {
  run_text : option string;
  run_style : style
}.

Module Merge.

(** Truthiness of a style dictionary: it has at least one key. *)
Definition style_truthy (s : style) : bool :=
  is_some (styleName s) || is_some (fonts s) || is_some (size_pt s)
  || bold s || italic s || is_some (color s) || is_some (spacing_cm s)
  || is_some (background_color s) || underline s || strike s.

(** Python [==] on optional strings, floats and font dictionaries. *)
Definition ostr_eq (a b : option string) : bool :=
  match a, b with
  | Some x, Some y => String.eqb x y
  | None, None => true
  | _, _ => false
  end.

Definition ofloat_eq (a b : option float) : bool :=
  match a, b with
  | Some x, Some y => (x =? y)%float
  | None, None => true
  | _, _ => false
  end.

Definition fonts_eq (a b : option font_slots) : bool :=
  match a, b with
  | Some x, Some y =>
      ostr_eq (f_ascii x) (f_ascii y) && ostr_eq (f_eastAsia x) (f_eastAsia y)
      && ostr_eq (f_cs x) (f_cs y) && ostr_eq (f_hAnsi x) (f_hAnsi y)
  | None, None => true
  | _, _ => false
  end.

(** [style.get("size_pt")]: a missing key and a [None] value read alike. *)
Definition get_size_pt (s : style) : option float :=
  match size_pt s with
  | Some v => v
  | None => None
  end.

(** [styles_equal] of [merge_runs]. *)
Definition styles_equal (style1 style2 : style) : bool :=
  if negb (style_truthy style1) && negb (style_truthy style2) then true
  else if negb (style_truthy style1) || negb (style_truthy style2) then false
  else
    ostr_eq (styleName style1) (styleName style2)
    && Bool.eqb (bold style1) (bold style2)
    && Bool.eqb (italic style1) (italic style2)
    && Bool.eqb (underline style1) (underline style2)
    && Bool.eqb (strike style1) (strike style2)
    && ofloat_eq (get_size_pt style1) (get_size_pt style2)
    && ostr_eq (color style1) (color style2)
    && ostr_eq (background_color style1) (background_color style2)
    && ofloat_eq (spacing_cm style1) (spacing_cm style2)
    && fonts_eq (fonts style1) (fonts style2).

(** The last element of [merged] and the elements before it. *)
Fixpoint unsnoc {A : Type} (l : list A) : option (list A * A) :=
  match l with
  | [] => None
  | x :: l' =>
      match unsnoc l' with
      | None => Some ([], x)
      | Some (init, lst) => Some (x :: init, lst)
      end
  end.

(** [a += b] on the [text] entries: defined on two strings. *)
Definition text_add (a b : option string) : exc (option string) :=
  match a, b with
  | Some x, Some y => Val (Some (x ++ y)%string)
  | _, _ => Raise TypeError
  end.

(** One iteration of the loop of [merge_runs]. *)
Definition merge_runs_step (merged : list run) (r : run) : exc (list run) :=
  if negb (otruthy (run_text r)) then Val merged
  else
    match unsnoc merged with
    | Some (init, lst) =>
        if styles_equal (run_style r) (run_style lst)
        then t <- text_add (run_text lst) (run_text r) ;;
             Val (init ++ [Run t (run_style lst)])
        else Val (merged ++ [r])
    | None => Val (merged ++ [r])
    end.

(** [merge_runs(runs)] of [paragraph_parser.py]. *)
Definition merge_runs (runs : list run) : exc (list run) :=
  for_each merge_runs_step runs [].

(** [str(v)] inside an f-string. *)
Definition str_bool (b : bool) : string := if b then "True" else "False".

Definition str_ostr (o : option string) : string :=
  match o with
  | Some s => s
  | None => "None"
  end.

Definition str_ofloat (o : option float) : string :=
  match o with
  | Some x => repr_float x
  | None => "None"
  end.

(** [sep.join(parts)] *)
Fixpoint join (sep : string) (parts : list string) : string :=
  match parts with
  | [] => ""
  | [p] => p
  | p :: ps => p ++ sep ++ join sep ps
  end.

(** [create_style_key] of [_merge_runs_by_style]: the attributes present in
    the style, in the fixed order of the source, then the font slots sorted
    by slot name. *)
Definition create_style_key (s : style) : string :=
  if negb (style_truthy s) then ""
  else
    let key_parts :=
      (if bold s then [("bold:" ++ str_bool true)%string] else [])
      ++ (if italic s then [("italic:" ++ str_bool true)%string] else [])
      ++ (if underline s then [("underline:" ++ str_bool true)%string] else [])
      ++ (if strike s then [("strike:" ++ str_bool true)%string] else [])
      ++ match size_pt s with
         | Some v => [("size_pt:" ++ str_ofloat v)%string]
         | None => []
         end
      ++ match color s with
         | Some c => [("color:" ++ c)%string]
         | None => []
         end
      ++ match background_color s with
         | Some c => [("background_color:" ++ c)%string]
         | None => []
         end
      ++ match spacing_cm s with
         | Some x => [("spacing_cm:" ++ repr_float x)%string]
         | None => []
         end
      ++ match fonts s with
         | Some f =>
             [("fonts:" ++ join "," [ ("ascii:" ++ str_ostr (f_ascii f))%string;
                                      ("cs:" ++ str_ostr (f_cs f))%string;
                                      ("eastAsia:" ++ str_ostr (f_eastAsia f))%string;
                                      ("hAnsi:" ++ str_ostr (f_hAnsi f))%string ])%string]
         | None => []
         end in
    join "|" key_parts.

(** The state of the loop of [_merge_runs_by_style]: [merged],
    [current_group] and [current_style_key]. *)
Definition group_state : Type := (list run * run * string)%type.

(** [if current_group['text']: merged.append(current_group)] *)
Definition flush (merged : list run) (current_group : run) : list run :=
  if otruthy (run_text current_group) then merged ++ [current_group] else merged.

Definition merge_by_style_step (st : group_state) (r : run) : exc group_state :=
  let '(merged, current_group, current_style_key) := st in
  let style_key := create_style_key (run_style r) in
  if String.eqb style_key current_style_key && otruthy (run_text r)
  then t <- text_add (run_text current_group) (run_text r) ;;
       Val (merged, Run t (run_style current_group), current_style_key)
  else Val (flush merged current_group, Run (run_text r) (run_style r), style_key).

(** [DocParser._merge_runs_by_style(runs)] *)
Definition _merge_runs_by_style (runs : list run) : exc (list run) :=
  match runs with
  | [] => Val []
  | r0 :: rest =>
      st <- for_each merge_by_style_step rest
              ([], Run (run_text r0) (run_style r0), create_style_key (run_style r0)) ;;
      let '(merged, current_group, _) := st in
      Val (flush merged current_group)
  end.

End Merge.


(* ===================================================================== *)
(** * [parsers/paragraph_parser.py] *)
(* ===================================================================== *)

(** Values stored in the untyped attribute dictionaries of the summary
    (paragraph properties, geometry, effects, tables, images). *)
Inductive pyobj : Type :=
| PNone
| PBool (b : bool)
| PFloat (x : float)
| PStr (s : string)
| PList (l : list pyobj)
| PDict (d : list (string * pyobj)).

Definition of_ostr (o : option string) : pyobj :=
  match o with
  | Some s => PStr s
  | None => PNone
  end.

Definition of_ofloat (o : option float) : pyobj :=
  match o with
  | Some x => PFloat x
  | None => PNone
  end.

(** [d[key] = v]: the value is replaced in place when the key is present,
    the entry is added at the end otherwise. *)
Fixpoint dict_set {V : Type} (d : list (string * V)) (key : string) (v : V)
  : list (string * V) :=
  match d with
  | [] => [(key, v)]
  | (k, w) :: d' =>
      if String.eqb k key then (k, v) :: d' else (k, w) :: dict_set d' key v
  end.

(** A paragraph dictionary of the summary. *)
Record paragraph : Type := Paragraph {
  p_source : string;          (* "來源" *)
  p_index : nat;              (* "編號" *)
  p_text : string;            (* "文字" *)
  p_runs : list run;          (* "runs" *)
  p_props : pyobj             (* "屬性" *)
}.

Module ParagraphParser.

Definition w (local : string) : string := qn "w" local.

(** [o is not None and o] for an attribute value. *)
Definition present (e : option elem) (key : string) : option string :=
  match e with
  | Some x => match get (attrib x) key with
              | Some v => if truthy v then Some v else None
              | None => None
              end
  | None => None
  end.

(** Twips to centimetres as the source computes it:
    [round(int(v) / 20.0 * 0.0352778, 3)]. *)
Definition twips_to_cm (v : option string) : exc float :=
  twips <- py_int v ;;
  pt <- int_truediv_float twips 20%float ;;
  Val (py_round (pt * 0.0352778)%float 3).

(** [parse_run_props(r)] *)
Definition parse_run_props (r : elem) : exc style :=
  match find [Child (w "rPr")] r with
  | None => Val no_style
  | Some rPr =>
      let style_name := present (find [Child (w "rStyle")] rPr) (w "val") in
      let out_fonts :=
        match find [Child (w "rFonts")] rPr with
        | Some rFonts =>
            Some (Fonts (get (attrib rFonts) (w "ascii"))
                        (get (attrib rFonts) (w "eastAsia"))
                        (get (attrib rFonts) (w "cs"))
                        (get (attrib rFonts) (w "hAnsi")))
        | None => None
        end in
      out_size <-
        match find [Child (w "sz")] rPr with
        | Some sz => v <- half_point_to_pt (get (attrib sz) (w "val")) ;; Val (Some v)
        | None => Val None
        end ;;
      let out_bold := is_some (find [Child (w "b")] rPr) in
      let out_italic := is_some (find [Child (w "i")] rPr) in
      let out_color :=
        option_map (String.append "#") (present (find [Child (w "color")] rPr) (w "val")) in
      out_spacing <-
        match present (find [Child (w "spacing")] rPr) (w "val") with
        | Some v => try_except (cm <- twips_to_cm (Some v) ;; Val (Some cm))
                               (fun _ => Val None)
        | None => Val None
        end ;;
      let out_background :=
        option_map (String.append "#") (present (find [Child (w "shd")] rPr) (w "fill")) in
      let out_underline := is_some (find [Child (w "u")] rPr) in
      let out_strike := is_some (find [Child (w "strike")] rPr) in
      Val (Style style_name out_fonts out_size out_bold out_italic out_color
                 out_spacing out_background out_underline out_strike)
  end.

(** [k.split('}')[1] if '}' in k else k] *)
Fixpoint until_brace (l : list ascii) : list ascii :=
  match l with
  | [] => []
  | c :: l' => if Ascii.eqb c "}" then [] else c :: until_brace l'
  end.

Fixpoint after_brace (l : list ascii) : option (list ascii) :=
  match l with
  | [] => None
  | c :: l' => if Ascii.eqb c "}" then Some (until_brace l') else after_brace l'
  end.

Definition attr_name (k : string) : string :=
  match after_brace (list_ascii_of_string k) with
  | Some l => string_of_list_ascii l
  | None => k
  end.

(** The loop over [attrib.items()] shared by the spacing and indentation
    blocks: every attribute is copied under its local name, and the ones in
    [converted] get a [_cm] companion when they read as integers.  Only
    [ValueError] and [TypeError] are caught. *)
Definition convert_attr (converted : list string) (info : list (string * pyobj))
    (kv : string * string) : exc (list (string * pyobj)) :=
  let (k, v) := kv in
  let name := attr_name k in
  let info1 := dict_set info name (PStr v) in
  if existsb (String.eqb name) converted
  then try_except
         (cm <- twips_to_cm (Some v) ;;
          Val (dict_set info1 (name ++ "_cm") (PFloat cm)))
         (fun e => match e with
                   | ValueError | TypeError => Val info1
                   | _ => Raise e
                   end)
  else Val info1.

(** One entry of the tab-stop list. *)
Definition parse_tab (tab : elem) : exc pyobj :=
  pos_twips <- py_float (Some (get_default (attrib tab) (w "pos") "0")) ;;
  let pos_pt := (pos_twips / 20)%float in
  let pos_cm := py_round (pos_pt * 0.0352778)%float 3 in
  Val (PDict [ ("位置_pt", PFloat pos_pt);
               ("位置_cm", PFloat pos_cm);
               ("對齊", PStr (get_default (attrib tab) (w "val") "left"));
               ("前置符號", PStr (get_default (attrib tab) (w "leader") "none")) ]).

(** [parse_paragraph_props(p)] *)
Definition parse_paragraph_props (p : elem) : exc pyobj :=
  match find [Child (w "pPr")] p with
  | None => Val (PDict [])
  | Some pPr =>
      let out0 :=
        match present (find [Child (w "pStyle")] pPr) (w "val") with
        | Some n => [("styleName", PStr n)]
        | None => []
        end in
      let out1 :=
        match find [Child (w "jc")] pPr with
        | Some jc => out0 ++ [("align", of_ostr (get (attrib jc) (w "val")))]
        | None => out0
        end in
      out2 <-
        match find [Child (w "spacing")] pPr with
        | Some sp =>
            info <- for_each (convert_attr ["line"; "before"; "after"]) (attrib sp) [] ;;
            Val (out1 ++ [("spacing", PDict info)])
        | None => Val out1
        end ;;
      out3 <-
        match find [Child (w "ind")] pPr with
        | Some ind =>
            info <- for_each (convert_attr ["left"; "right"; "firstLine";
                                            "hanging"; "start"; "end"])
                             (attrib ind) [] ;;
            Val (out2 ++ [("indent", PDict info)])
        | None => Val out2
        end ;;
      tabs <- map_exc parse_tab (findall [Child (w "tabs"); Child (w "tab")] pPr) ;;
      let out4 :=
        match tabs with
        | [] => out3
        | _ => out3 ++ [("tabs", PList tabs)]
        end in
      let out5 :=
        match find [Child (w "numPr")] pPr with
        | Some numPr =>
            let n1 :=
              match find [Child (w "numId")] numPr with
              | Some numId => [("numId", of_ostr (get (attrib numId) (w "val")))]
              | None => []
              end in
            let n2 :=
              match find [Child (w "ilvl")] numPr with
              | Some ilvl => n1 ++ [("level", of_ostr (get (attrib ilvl) (w "val")))]
              | None => n1
              end in
            out4 ++ [("numbering", PDict (n2 ++ [("isListItem", PBool true)]))]
        | None => out4
        end in
      Val (PDict out5)
  end.

(** The texts of a list of [w:t] elements that are non-empty strings. *)
Definition texts_of (ts : list elem) : list string :=
  flat_map (fun t => match text t with
                     | Some s => if truthy s then [s] else []
                     | None => []
                     end) ts.

(** [extract_paragraph_text(p)] *)
Definition extract_paragraph_text (p : elem) : string :=
  strip (String.concat "" (texts_of (findall [Desc (w "t")] p))).

(** The test at the head of the loop of [parse_paragraphs]: the paragraph
    carries WordArt. *)
Definition is_wordart_carrier (p : elem) : bool :=
  is_some (find [Desc (qn "w14" "textEffect")] p)
  || is_some (find [Desc (qn "wps" "wsp"); Desc (qn "w14" "textEffect")] p)
  || is_some (find [Desc (qn "mc" "AlternateContent"); Desc (qn "w14" "textEffect")] p)
  || is_some (find [Desc (qn "a" "graphic"); Child (qn "a" "graphicData");
                    Child (qn "a" "txBody"); Child (qn "a" "bodyPr");
                    Child (qn "a" "prstTxWarp")] p)
  || is_some (find [Desc (qn "v" "textpath")] p).

(** The run dictionaries of a paragraph, before merging. *)
Definition run_of (r : elem) : exc run :=
  let txt := match find [Child (w "t")] r with
             | Some t => text t
             | None => Some ""
             end in
  st <- parse_run_props r ;;
  Val (Run txt st).

(** The body of the loop of [parse_paragraphs] for the paragraph [p] at
    position [idx]. *)
Definition parse_paragraph (part_name : string) (out : list paragraph)
    (ip : nat * elem) : exc (list paragraph) :=
  let (idx, p) := ip in
  if is_wordart_carrier p then Val out
  else
    let text := extract_paragraph_text p in
    runs <- map_exc run_of (findall [Child (w "r")] p) ;;
    runs <- Merge.merge_runs runs ;;
    props <- parse_paragraph_props p ;;
    Val (out ++ [Paragraph part_name idx text runs props]).

(** [enumerate(l, start)] *)
Fixpoint enumerate {A : Type} (start : nat) (l : list A) : list (nat * A) :=
  match l with
  | [] => []
  | x :: l' => (start, x) :: enumerate (S start) l'
  end.

(** [parse_paragraphs(root, part_name, out)], on the list [out["段落"]]. *)
Definition parse_paragraphs (root : elem) (part_name : string)
    (out : list paragraph) : exc (list paragraph) :=
  for_each (parse_paragraph part_name) (enumerate 1 (findall [Desc (w "p")] root)) out.

End ParagraphParser.

(* ===================================================================== *)
(** * [parsers/drawing_parser.py] *)
(* ===================================================================== *)

(** The style dictionary of a WordArt element as [merge_across_sources]
    reads it (the [style] entry written by [parse_wordart]). *)
Record wordart_style : Type := WordArtStyle {
  ws_fonts : option (list (string * option string));
  ws_size_pt : option (option float);
  ws_fill_color : option string;
  ws_kern_pt : option float;
  ws_outline_color : option string;
  ws_background_color : option string
}.

(** The effect entries of a text box or text effect. *)
Record effects : Type := Effects {
  e_fill : option string;        (* "填色" *)
  e_outline : option string;     (* "輪廓" *)
  e_shadow : pyobj;              (* "陰影" *)
  e_glow : pyobj;                (* "Glow" *)
  e_reflection : pyobj           (* "Reflection" *)
}.

(** A WordArt dictionary of the summary.  [wa_effects] is missing in the
    elements built from legacy vector shapes, [wa_style] in every element
    built by [DrawingParser]. *)
Record wordart : Type := WordArt {
  wa_source : string;            (* "來源" *)
  wa_text : option string;       (* "文字" *)
  wa_font : option string;       (* "字型" *)
  wa_size : pyobj;               (* "大小" *)
  wa_color : option string;      (* "顏色" *)
  wa_kind : string;              (* "類型" *)
  wa_geometry : pyobj;           (* "幾何" *)
  wa_effects : option effects;
  wa_style : option wordart_style  (* "style" *)
}.

Module DrawingParser.

Definition w (local : string) : string := qn "w" local.
Definition a (local : string) : string := qn "a" local.

(** [x or y] on optional strings. *)
Definition or_else (x y : option string) : option string :=
  if otruthy x then x else y.

Definition _extract_font (node : elem) : option string :=
  match find [Desc (w "rFonts")] node with
  | Some rFonts =>
      or_else (get (attrib rFonts) (w "ascii")) (get (attrib rFonts) (w "hAnsi"))
  | None => None
  end.

Definition _extract_size (node : elem) : exc (option float) :=
  match find [Desc (w "sz")] node with
  | Some sz => half_point_to_pt (get (attrib sz) (w "val"))
  | None => Val None
  end.

Definition _extract_color (node : elem) : option string :=
  option_map (String.append "#")
             (ParagraphParser.present (find [Desc (w "color")] node) (w "val")).

(** [s.endswith(suffix)] *)
Definition endswith (s suffix : string) : bool :=
  let n := String.length s in
  let k := String.length suffix in
  Nat.leb k n && String.eqb (String.substring (n - k) k s) suffix.

(** [s.replace("pt", "")] *)
Fixpoint remove_pt (l : list ascii) : list ascii :=
  match l with
  | "p"%char :: ("t"%char :: l') => remove_pt l'
  | c :: l' => c :: remove_pt l'
  | [] => []
  end.

Definition _try_size (sz_str : option string) : exc (option float) :=
  match sz_str with
  | Some s =>
      if truthy s
      then try_except
             (if endswith s "pt"
              then x <- py_float (Some (string_of_list_ascii
                                          (remove_pt (list_ascii_of_string s)))) ;;
                   Val (Some x)
              else x <- py_float (Some s) ;; Val (Some x))
             (fun _ => Val None)
      else Val None
  | None => Val None
  end.

Definition _extract_warp (node : elem) : pyobj :=
  match find [Desc (a "prstTxWarp")] node with
  | Some prst => PDict [("prstTxWarp", of_ostr (get (attrib prst) "prst"))]
  | None => PDict []
  end.

Definition srgb_val (clr : option elem) : option string :=
  match clr with
  | Some c => option_map (String.append "#") (get (attrib c) "val")
  | None => None
  end.

Definition _extract_fill (node : elem) : option string :=
  srgb_val (find [Desc (a "solidFill"); Child (a "srgbClr")] node).

Definition _extract_outline (node : elem) : option string :=
  srgb_val (find [Desc (a "ln"); Child (a "solidFill"); Child (a "srgbClr")] node).

Definition _extract_shadow (node : elem) : pyobj :=
  match find [Desc (a "effectLst"); Child (a "outerShdw")] node with
  | Some shadow =>
      PDict [ ("blurRad", of_ostr (get (attrib shadow) "blurRad"));
              ("dist", of_ostr (get (attrib shadow) "dist"));
              ("dir", of_ostr (get (attrib shadow) "dir")) ]
  | None => PNone
  end.

Definition _extract_glow (node : elem) : pyobj :=
  match find [Desc (a "effectLst"); Child (a "glow")] node with
  | Some glow =>
      PDict [ ("半徑", of_ostr (get (attrib glow) "rad"));
              ("顏色", of_ostr (srgb_val (find [Child (a "srgbClr")] glow))) ]
  | None => PNone
  end.

Definition _extract_reflection (node : elem) : pyobj :=
  match find [Desc (a "effectLst"); Child (a "reflection")] node with
  | Some refl => PDict (map (fun kv => (fst kv, PStr (snd kv))) (attrib refl))
  | None => PNone
  end.

Definition effects_of (node : elem) : effects :=
  Effects (_extract_fill node) (_extract_outline node) (_extract_shadow node)
          (_extract_glow node) (_extract_reflection node).

(** [_parse_text_effect(te, part_name)]: always a dictionary. *)
Definition _parse_text_effect (te : elem) (part_name : string) : wordart :=
  let val := get (attrib te) (qn "w14" "val") in
  WordArt part_name None
          (get (attrib te) "font")
          (of_ostr (get (attrib te) "size"))
          (or_else (get (attrib te) "fillColor") (get (attrib te) "color"))
          ("WordArt-Effect:" ++ Merge.str_ostr val)
          (_extract_warp te)
          (Some (effects_of te))
          None.

(** [_parse_w_drawing(shape, part_name)]: a text box with non-blank text,
    or [None]. *)
Definition _parse_w_drawing (shape : elem) (part_name : string) : exc (option wordart) :=
  match find [Desc (qn "wps" "txbx"); Child (w "txbxContent")] shape with
  | Some txbx =>
      let text := String.concat "" (ParagraphParser.texts_of (findall [Desc (w "t")] txbx)) in
      if truthy (strip text)
      then size <- _extract_size txbx ;;
           Val (Some (WordArt part_name (Some (strip text))
                              (_extract_font txbx)
                              (of_ofloat size)
                              (_extract_color txbx)
                              "TextBox"
                              (_extract_warp shape)
                              (Some (effects_of shape))
                              None))
      else Val None
  | None => Val None
  end.

(** [_parse_vml_wordart(vshape, part_name)] *)
Definition _parse_vml_wordart (vshape : elem) (part_name : string) : exc (option wordart) :=
  match find [Desc (qn "v" "textpath")] vshape with
  | Some textpath =>
      size <- _try_size (get (attrib textpath) "font-size") ;;
      Val (Some (WordArt part_name
                         (Some (get_default (attrib textpath) "string" ""))
                         (get (attrib textpath) "font-family")
                         (of_ofloat size)
                         (or_else (get (attrib vshape) "strokecolor")
                                  (get (attrib vshape) "fillcolor"))
                         "VML-WordArt"
                         (match get (attrib vshape) "type" with
                          | Some t => PDict [("type", PStr t)]
                          | None => PDict []
                          end)
                         None
                         None))
  | None => Val None
  end.

(** [out["WordArt"].append(obj)] when the sub-parser produced one. *)
Definition append_opt (out : list wordart) (o : option wordart) : list wordart :=
  match o with
  | Some x => out ++ [x]
  | None => out
  end.

(** [DrawingParser.parse(root, part_name, out)], on the list
    [out["WordArt"]]: the three scans in the order of the source. *)
Definition parse (root : elem) (part_name : string) (out : list wordart)
  : exc (list wordart) :=
  out1 <- for_each (fun o te => Val (o ++ [_parse_text_effect te part_name]))
                   (findall [Desc (qn "w14" "textEffect")] root) out ;;
  out2 <- for_each (fun o shape => x <- _parse_w_drawing shape part_name ;;
                                   Val (append_opt o x))
                   (findall [Desc (w "drawing")] root) out1 ;;
  for_each (fun o vshape => x <- _parse_vml_wordart vshape part_name ;;
                            Val (append_opt o x))
           (findall [Desc (qn "v" "shape")] root) out2.

End DrawingParser.

(* ===================================================================== *)
(** * [parsers/table_parser.py]: cell properties *)
(* ===================================================================== *)

Module TableParser.

Definition w (local : string) : string := qn "w" local.

(** The dictionary returned by [_parse_cell_properties]. *)
Record cell_props : Type := CellProps {
  width_pt : option (option float);      (* "寬度_pt" *)
  v_align : option (option string);      (* "垂直對齊" *)
  cell_background : option string;       (* "背景顏色" *)
  v_merge : option string;               (* "垂直合併" *)
  h_merge : option string                (* "水平合併" *)
}.

Definition no_props : cell_props := CellProps None None None None None.

(** [TableParser._parse_cell_properties(cell)] *)
Definition _parse_cell_properties (cell : elem) : exc cell_props :=
  match find [Desc (w "tcPr")] cell with
  | None => Val no_props
  | Some tcPr =>
      width <-
        match find [Desc (w "tcW")] tcPr with
        | Some tcW =>
            let width_val := get (attrib tcW) (w "w") in
            let width_type := get (attrib tcW) (w "type") in
            if otruthy width_val && Merge.ostr_eq width_type (Some "dxa")
            then try_except (v <- half_point_to_pt width_val ;; Val (Some v))
                            (fun _ => Val None)
            else Val None
        | None => Val None
        end ;;
      let valign := option_map (fun e => get (attrib e) (w "val"))
                               (find [Desc (w "vAlign")] tcPr) in
      let shade := option_map (String.append "#")
                     (ParagraphParser.present (find [Desc (w "shd")] tcPr) (w "fill")) in
      let vmerge := option_map (fun e => get_default (attrib e) (w "val") "continue")
                               (find [Desc (w "vMerge")] tcPr) in
      let hmerge := option_map (fun e => get_default (attrib e) (w "val") "continue")
                               (find [Desc (w "hMerge")] tcPr) in
      Val (CellProps width valign shade vmerge hmerge)
  end.

(** [n / d] for two [int]s: the quotient, correctly rounded. *)
Definition int_truediv (n d : Z) : exc float :=
  if d =? 0 then Raise ZeroDivisionError
  else if n =? 0 then Val (if d <? 0 then (-0)%float else 0%float)
  else match nearest_ratio (xorb (n <? 0) (d <? 0)) (Z.abs n) (Z.abs d) with
       | S754_infinity _ => Raise OverflowError
       | sf => Val (SF2Prim sf)
       end.

(** [len(s)]: the number of characters of [s], a string held as UTF-8
    (every byte but the continuation bytes starts a character). *)
Definition py_len (s : string) : nat :=
  List.length (filter (fun c => negb ((128 <=? code c) && (code c <? 192)))
                      (list_ascii_of_string s)).

(** The line feed. *)
Definition nl : string := String (ascii_of_nat 10) EmptyString.

(** [TableParser._parse_run_style(run)] *)
Definition _parse_run_style (run : elem) : exc pyobj :=
  match find [Desc (w "rPr")] run with
  | None => Val (PDict [])
  | Some rPr =>
      let style1 :=
        match find [Desc (w "rFonts")] rPr with
        | Some rFonts =>
            [("字型", PDict [ ("ascii", of_ostr (get (attrib rFonts) (w "ascii")));
                              ("hAnsi", of_ostr (get (attrib rFonts) (w "hAnsi"))) ])]
        | None => []
        end in
      style2 <-
        match find [Desc (w "sz")] rPr with
        | Some sz =>
            v <- half_point_to_pt (get (attrib sz) (w "val")) ;;
            Val (dict_set style1 "字號_pt" (of_ofloat v))
        | None => Val style1
        end ;;
      let style3 :=
        if is_some (find [Desc (w "b")] rPr)
        then dict_set style2 "粗體" (PBool true) else style2 in
      let style4 :=
        if is_some (find [Desc (w "i")] rPr)
        then dict_set style3 "斜體" (PBool true) else style3 in
      Val (PDict (match ParagraphParser.present (find [Desc (w "color")] rPr) (w "val") with
                  | Some v => dict_set style4 "顏色" (PStr ("#" ++ v))
                  | None => style4
                  end))
  end.

(** A cell dictionary of [_parse_cell_content]. *)
Record cell_info : Type := CellInfo {
  ci_row : nat;                          (* "位置"."行" *)
  ci_col : nat;                          (* "位置"."列" *)
  ci_text : string;                      (* "文字" *)
  ci_length : nat;                       (* "文字長度" *)
  ci_runs : list (string * pyobj);       (* "樣式": text and style of each run *)
  ci_props : cell_props;                 (* "屬性" *)
  ci_empty : bool                        (* "是否為空" *)
}.

(** The text of the first text node of a run, [""] without one. *)
Definition run_text_of (run : elem) : option string :=
  match find [Desc (w "t")] run with
  | Some run_text_elem => text run_text_elem
  | None => Some ""
  end.

(** [TableParser._parse_cell_content(cell, row_idx, cell_idx)] *)
Definition _parse_cell_content (cell : elem) (row_idx cell_idx : nat) : exc cell_info :=
  let paragraphs := findall [Desc (w "p")] cell in
  let cell_text :=
    strip (String.concat ""
             (map (fun para =>
                     (String.concat "" (ParagraphParser.texts_of
                                          (findall [Desc (w "t")] para)) ++ nl)%string)
                  paragraphs)) in
  cell_runs <-
    map_exc (fun run =>
               run_style <- _parse_run_style run ;;
               Val (match run_text_of run with
                    | Some t => t
                    | None => ""
                    end, run_style))
            (filter (fun run => otruthy (run_text_of run))
                    (flat_map (findall [Desc (w "r")]) paragraphs)) ;;
  cell_props <- _parse_cell_properties cell ;;
  Val (CellInfo (row_idx + 1) (cell_idx + 1) cell_text (py_len cell_text)
                cell_runs cell_props (negb (truthy (strip cell_text)))).

(** [TableParser._extract_table_data(rows)] *)
Definition _extract_table_data (rows : list elem) : exc (list (list cell_info)) :=
  map_exc (fun ir : nat * elem =>
             map_exc (fun ic : nat * elem => _parse_cell_content (snd ic) (fst ir) (fst ic))
                     (ParagraphParser.enumerate 0 (findall [Desc (w "tc")] (snd ir))))
          (ParagraphParser.enumerate 0 rows).

(** [TableParser._get_column_count(rows)] *)
Definition _get_column_count (rows : list elem) : nat :=
  match rows with
  | [] => 0%nat
  | first_row :: _ => List.length (findall [Desc (w "tc")] first_row)
  end.

(** [TableParser._parse_borders(borders_elem)] *)
Definition _parse_borders (borders_elem : elem) : exc pyobj :=
  borders <-
    for_each (fun borders border_type =>
                match find [Desc (w border_type)] borders_elem with
                | Some border =>
                    size <- half_point_to_pt (get (attrib border) (w "sz")) ;;
                    Val (dict_set borders border_type
                           (PDict [ ("顏色", PStr ("#" ++ get_default (attrib border)
                                                                      (w "color") "000000"));
                                    ("大小_pt", of_ofloat size);
                                    ("樣式", PStr (get_default (attrib border)
                                                               (w "val") "single")) ]))
                | None => Val borders
                end)
             ["top"; "left"; "bottom"; "right"; "insideH"; "insideV"] [] ;;
  Val (PDict borders).

(** [TableParser._parse_table_properties(tbl)] *)
Definition _parse_table_properties (tbl : elem) : exc pyobj :=
  match find [Desc (w "tblPr")] tbl with
  | None => Val (PDict [])
  | Some tblPr =>
      let props1 :=
        match find [Desc (w "tblW")] tblPr with
        | Some tblW =>
            let width_val := get (attrib tblW) (w "w") in
            let width_type := get (attrib tblW) (w "type") in
            if otruthy width_val && Merge.ostr_eq width_type (Some "pct")
            then match (n <- py_int width_val ;; int_truediv n 50) with
                 | Val x => [("寬度百分比", PFloat x)]
                 | Raise _ => []
                 end
            else []
        | None => []
        end in
      let props2 :=
        match find [Desc (w "jc")] tblPr with
        | Some jc => dict_set props1 "對齊方式" (of_ostr (get (attrib jc) (w "val")))
        | None => props1
        end in
      props3 <-
        match find [Desc (w "tblBorders")] tblPr with
        | Some tblBorders =>
            b <- _parse_borders tblBorders ;; Val (dict_set props2 "邊框" b)
        | None => Val props2
        end ;;
      Val (PDict (match find [Desc (w "tblCellSpacing")] tblPr with
                  | Some tblCellSpacing =>
                      let spacing_val := get (attrib tblCellSpacing) (w "w") in
                      if otruthy spacing_val
                      then match half_point_to_pt spacing_val with
                           | Val x => dict_set props3 "儲存格間距_pt" (of_ofloat x)
                           | Raise _ => props3
                           end
                      else props3
                  | None => props3
                  end))
  end.

(** [TableParser._parse_table_style(tbl)] *)
Definition _parse_table_style (tbl : elem) : pyobj :=
  let style1 :=
    match find [Desc (w "tblPr"); Child (w "tblStyle")] tbl with
    | Some tblStyle => [("樣式名稱", of_ostr (get (attrib tblStyle) (w "val")))]
    | None => []
    end in
  PDict (match find [Desc (w "tblPr"); Child (w "tblLook")] tbl with
         | Some tblLook =>
             let flag (key : string) :=
               PBool (String.eqb (get_default (attrib tblLook) (w key) "0") "1") in
             dict_set style1 "條件格式"
                      (PDict [ ("首行", flag "firstRow"); ("末行", flag "lastRow");
                               ("首列", flag "firstColumn"); ("末列", flag "lastColumn") ])
         | None => style1
         end).

(** A number that is the [int] 0 or a rounded [float]. *)
Inductive num : Type :=
| NInt (n : Z)
| NFloat (x : float).

(** The dictionary of [_analyze_table_content]. *)
Record content_stats : Type := ContentStats {
  total_cells : nat;         (* "總儲存格數" *)
  empty_cells : nat;         (* "空儲存格數" *)
  text_cells : nat;          (* "有文字儲存格數" *)
  average_length : num;      (* "平均文字長度" *)
  fill_rate : num            (* "填滿率" *)
}.

(** The four counters of [_analyze_table_content] after one cell:
    [total_cells], [empty_cells], [total_text_length], [text_cells]. *)
Definition count_cell (st : nat * nat * nat * nat) (cell : cell_info)
  : nat * nat * nat * nat :=
  let '(total, empty, len, filled) := st in
  if ci_empty cell
  then (total + 1, empty + 1, len, filled)%nat
  else (total + 1, empty, len + ci_length cell, filled + 1)%nat.

(** [TableParser._analyze_table_content(table_data)] *)
Definition _analyze_table_content (table_data : list (list cell_info)) : exc content_stats :=
  let '(total, empty, len, filled) :=
    fold_left (fun st row => fold_left count_cell row st) table_data
              (0, 0, 0, 0)%nat in
  average <-
    (if Nat.ltb 0 filled
     then q <- int_truediv (Z.of_nat len) (Z.of_nat filled) ;; Val (NFloat (py_round q 2))
     else Val (NInt 0)) ;;
  rate <-
    (if Nat.ltb 0 total
     then q <- int_truediv (Z.of_nat filled) (Z.of_nat total) ;;
          Val (NFloat (py_round (q * 100)%float 2))
     else Val (NInt 0)) ;;
  Val (ContentStats total empty filled average rate).

(** [TableParser._find_special_elements(tbl)] *)
Definition _find_special_elements (tbl : elem) : list string :=
  (if is_some (find [Desc (w "drawing")] tbl) then ["圖片"] else [])
  ++ (if is_some (find [Desc (qn "w14" "textEffect")] tbl)
         || is_some (find [Desc (qn "v" "textpath")] tbl)
      then ["WordArt"] else [])
  ++ (if existsb (fun shd => has_key (attrib shd) (w "fill")) (findall [Desc (w "shd")] tbl)
      then ["背景顏色"] else []).

(** A table dictionary of [_parse_single_table]. *)
Record table_info : Type := TableInfo {
  t_source : string;                     (* "來源" *)
  t_index : nat;                         (* "表格編號" *)
  t_rows : nat;                          (* "行列結構"."行數" *)
  t_cols : nat;                          (* "行列結構"."列數" *)
  t_cells : nat;                         (* "行列結構"."總儲存格數" *)
  t_data : list (list cell_info);        (* "表格資料" *)
  t_props : pyobj;                       (* "表格屬性" *)
  t_style : pyobj;                       (* "表格樣式" *)
  t_stats : content_stats;               (* "內容統計" *)
  t_special : list string                (* "特殊元素" *)
}.

(** [TableParser._parse_single_table(tbl, part_name, table_index)] *)
Definition _parse_single_table (tbl : elem) (part_name : string) (table_index : nat)
  : exc (option table_info) :=
  let rows := findall [Desc (w "tr")] tbl in
  match rows with
  | [] => Val None
  | _ :: _ =>
      let row_count := List.length rows in
      let col_count := _get_column_count rows in
      table_data <- _extract_table_data rows ;;
      table_props <- _parse_table_properties tbl ;;
      let table_style := _parse_table_style tbl in
      stats <- _analyze_table_content table_data ;;
      Val (Some (TableInfo part_name table_index row_count col_count
                           (row_count * col_count) table_data table_props table_style
                           stats (_find_special_elements tbl)))
  end.

(** [TableParser.parse_tables(root, part_name)]: a table is appended when
    its dictionary was built; [None] and every exception leave the list as
    it is. *)
Definition parse_tables (root : elem) (part_name : string) : list table_info :=
  fold_left (fun tables it =>
               match _parse_single_table (snd it) part_name (fst it) with
               | Val (Some table_info) => tables ++ [table_info]
               | _ => tables
               end)
            (ParagraphParser.enumerate 1 (findall [Desc (w "tbl")] root)) [].

End TableParser.

(* ===================================================================== *)
(** * [parsers/image_parser.py] *)
(* ===================================================================== *)

(** An image dictionary.  The keys ["位置資訊"], ["圖片屬性"] and
    ["視覺效果"] belong to the DrawingML form, ["VML樣式"] to the VML
    form. *)
Record image : Type := Image {
  i_source : string;             (* "來源" *)
  i_index : nat;                 (* "圖片編號" *)
  i_kind : string;               (* "類型" *)
  i_rel : string;                (* "關係ID" *)
  i_geometry : pyobj;            (* "幾何資訊" *)
  i_position : option pyobj;     (* "位置資訊" *)
  i_props : option pyobj;        (* "圖片屬性" *)
  i_effects : option pyobj;      (* "視覺效果" *)
  i_vml_style : option pyobj;    (* "VML樣式" *)
  i_version : string;            (* "版本" *)
  i_special : list string        (* "特殊屬性" *)
}.

Module ImageParser.

(** A prefixed name of a path, resolved when [find] compiles the path: a
    prefix that [NS] does not hold makes [find] raise ([SyntaxError], prefix
    not found in prefix map) before any element is looked at. *)
Definition resolve (prefix local : string) : exc string :=
  match get NS prefix with
  | Some uri => Val ("{" ++ uri ++ "}" ++ local)%string
  | None => Raise Exception
  end.

(** [try: geom[key] = round(int(v) / d, 2) / except: pass], under [if v]. *)
Definition ratio_entry (key : string) (v : option string) (d : float)
    (geom : list (string * pyobj)) : list (string * pyobj) :=
  if otruthy v
  then match (n <- py_int v ;;
              q <- int_truediv_float n d ;;
              Val (py_round q 2)) with
       | Val x => dict_set geom key (PFloat x)
       | Raise _ => geom
       end
  else geom.

(** [geom[key] = emu_to_cm(v)], under [if v]. *)
Definition emu_entry (key : string) (v : option string)
    (geom : list (string * pyobj)) : exc (list (string * pyobj)) :=
  if otruthy v
  then x <- emu_to_cm v ;; Val (dict_set geom key (of_ofloat x))
  else Val geom.

(** [ImageParser._extract_geometry_info(drawing)] *)
Definition _extract_geometry_info (drawing : elem) : exc pyobj :=
  geom1 <-
    match find [Desc (qn "wp" "extent")] drawing with
    | Some extent =>
        g <- emu_entry "寬_cm" (get (attrib extent) "cx") [] ;;
        emu_entry "高_cm" (get (attrib extent) "cy") g
    | None => Val []
    end ;;
  let geom2 :=
    match find [Desc (qn "a" "xfrm")] drawing with
    | Some xfrm => ratio_entry "旋轉度" (get (attrib xfrm) "rot") 60000 geom1
    | None => geom1
    end in
  let geom3 :=
    match find [Desc (qn "a" "xfrm")] drawing with
    | Some xfrm =>
        ratio_entry "垂直縮放" (get (attrib xfrm) "sy") 100000
          (ratio_entry "水平縮放" (get (attrib xfrm) "sx") 100000 geom2)
    | None => geom2
    end in
  Val (PDict geom3).

(** [s.split(sep)] for a separator of one character. *)
Fixpoint split_on (sep : ascii) (l : list ascii) : list (list ascii) :=
  match l with
  | [] => [[]]
  | c :: l' =>
      if Ascii.eqb c sep then [] :: split_on sep l'
      else match split_on sep l' with
           | h :: t => (c :: h) :: t
           | [] => [[c]]
           end
  end.

Definition split (sep : ascii) (s : string) : list string :=
  map string_of_list_ascii (split_on sep (list_ascii_of_string s)).

(** [c in s] *)
Definition has_char (c : ascii) (s : string) : bool :=
  existsb (Ascii.eqb c) (list_ascii_of_string s).

(** [dict(s.split(":") for s in style_attr.split(";") if ":" in s)]: an
    item with more than one colon is no pair, and [dict] raises. *)
Definition style_dict (style_attr : string) : exc (list (string * string)) :=
  for_each (fun d item =>
              if has_char ":" item
              then match split ":" item with
                   | [k; v] => Val (dict_set d k v)
                   | _ => Raise ValueError
                   end
              else Val d)
           (split ";" style_attr) [].

Definition strs (d : list (string * string)) : list (string * pyobj) :=
  map (fun kv => (fst kv, PStr (snd kv))) d.

(** [ImageParser._extract_vml_geometry(shape)] *)
Definition _extract_vml_geometry (shape : elem) : exc pyobj :=
  let style_attr := get_default (attrib shape) "style" "" in
  geom1 <-
    (if truthy style_attr
     then styles <- style_dict style_attr ;;
          let g := match get styles "width" with
                   | Some v => [("寬度", v)]
                   | None => []
                   end in
          Val (match get styles "height" with
               | Some v => dict_set g "高度" v
               | None => g
               end)
     else Val []) ;;
  let coord_attr := get_default (attrib shape) "coordsize" "" in
  Val (PDict (strs (if truthy coord_attr
                    then dict_set geom1 "座標大小" coord_attr
                    else geom1))).

(** One side of [_extract_position_info]. *)
Definition position_side (pos : option elem) (align_key offset_key : string)
    (position : list (string * pyobj)) : exc (list (string * pyobj)) :=
  match pos with
  | Some pos_h =>
      let p1 :=
        match find [Desc (qn "wp" "align")] pos_h with
        | Some align => dict_set position align_key (of_ostr (text align))
        | None => position
        end in
      match find [Desc (qn "wp" "posOffset")] pos_h with
      | Some offset =>
          if otruthy (text offset)
          then x <- emu_to_cm (text offset) ;;
               Val (dict_set p1 offset_key (of_ofloat x))
          else Val p1
      | None => Val p1
      end
  | None => Val position
  end.

(** [ImageParser._extract_position_info(drawing)] *)
Definition _extract_position_info (drawing : elem) : exc pyobj :=
  p1 <- position_side (find [Desc (qn "wp" "positionH")] drawing)
                      "水平對齊" "水平偏移_cm" [] ;;
  p2 <- position_side (find [Desc (qn "wp" "positionV")] drawing)
                      "垂直對齊" "垂直偏移_cm" p1 ;;
  Val (PDict (match find [Desc (qn "wp" "anchor")] drawing with
              | Some anchor =>
                  dict_set p2 "錨定方式"
                           (PStr (get_default (attrib anchor) "relativeHeight" "未知"))
              | None => p2
              end)).

(** [ImageParser._parse_image_properties(drawing)].  Every path of the
    function uses the prefix [pic]; an element that is [None] is searched
    twice ([nv_pic_pr] for the description, [pic] for the fill). *)
Definition _parse_image_properties (drawing : elem) : exc pyobj :=
  pic_tag <- resolve "pic" "pic" ;;
  let pic := find [Desc pic_tag] drawing in
  props1 <-
    match pic with
    | Some pic_elem =>
        nv_tag <- resolve "pic" "nvPicPr" ;;
        let nv_pic_pr := find [Desc nv_tag] pic_elem in
        p1 <-
          match nv_pic_pr with
          | Some nv =>
              c_tag <- resolve "pic" "cNvPicPr" ;;
              Val (match find [Desc c_tag] nv with
                   | Some c_nv_pic_pr =>
                       [("圖片名稱", PStr (get_default (attrib c_nv_pic_pr) "name" "未命名"))]
                   | None => []
                   end)
          | None => Val []
          end ;;
        match nv_pic_pr with
        | Some nv =>
            d_tag <- resolve "pic" "cNvPr" ;;
            Val (match find [Desc d_tag] nv with
                 | Some doc_pr =>
                     dict_set (dict_set p1 "圖片描述"
                                        (PStr (get_default (attrib doc_pr) "descr" "")))
                              "標題" (PStr (get_default (attrib doc_pr) "title" ""))
                 | None => p1
                 end)
        | None => Raise AttributeError
        end
    | None => Val []
    end ;;
  match pic with
  | Some pic_elem =>
      b_tag <- resolve "pic" "blipFill" ;;
      Val (PDict (match find [Desc b_tag] pic_elem with
                  | Some blip_fill =>
                      match find [Desc (qn "a" "alphaMod")] blip_fill with
                      | Some alpha_mod =>
                          dict_set props1 "透明度"
                                   (PStr (get_default (attrib alpha_mod) "amt" "100000"))
                      | None => props1
                      end
                  | None => props1
                  end))
  | None => Raise AttributeError
  end.

(** [ImageParser._parse_image_effects(drawing)] *)
Definition _parse_image_effects (drawing : elem) : pyobj :=
  match find [Desc (qn "a" "effectLst")] drawing with
  | None => PDict []
  | Some effect_lst =>
      let e1 :=
        match find [Desc (qn "a" "outerShdw")] effect_lst with
        | Some shadow =>
            [("陰影", PDict [ ("模糊半徑", PStr (get_default (attrib shadow) "blurRad" "0"));
                              ("距離", PStr (get_default (attrib shadow) "dist" "0"));
                              ("方向", PStr (get_default (attrib shadow) "dir" "0")) ])]
        | None => []
        end in
      let e2 :=
        match find [Desc (qn "a" "glow")] effect_lst with
        | Some glow =>
            dict_set e1 "發光"
              (PDict [ ("半徑", PStr (get_default (attrib glow) "rad" "0"));
                       ("顏色", PStr (match find [Desc (qn "a" "srgbClr")] glow with
                                      | Some srgb_clr =>
                                          "#" ++ get_default (attrib srgb_clr) "val" "FFFFFF"
                                      | None => "FFFFFF"
                                      end)%string) ])
        | None => e1
        end in
      let e3 :=
        match find [Desc (qn "a" "softEdge")] effect_lst with
        | Some soft_edge =>
            dict_set e2 "軟邊"
              (PDict [("半徑", PStr (get_default (attrib soft_edge) "rad" "0"))])
        | None => e2
        end in
      PDict (match find [Desc (qn "a" "reflection")] effect_lst with
             | Some reflection => dict_set e3 "倒影" (PDict (strs (attrib reflection)))
             | None => e3
             end)
  end.

(** [ImageParser._parse_vml_style(shape)] *)
Definition _parse_vml_style (shape : elem) : exc pyobj :=
  let style_attr := get_default (attrib shape) "style" "" in
  style1 <- (if truthy style_attr then style_dict style_attr else Val []) ;;
  let add (key : string) (v : option string) (d : list (string * string)) :=
    match v with
    | Some x => if truthy x then dict_set d key x else d
    | None => d
    end in
  Val (PDict (strs (add "邊框粗細" (get (attrib shape) "strokeweight")
                     (add "邊框顏色" (get (attrib shape) "strokecolor")
                        (add "填充顏色" (get (attrib shape) "fillcolor") style1))))).

(** [ImageParser._extract_special_properties(drawing)] *)
Definition _extract_special_properties (drawing : elem) : list string :=
  (if is_some (find [Desc (qn "a" "srcRect")] drawing) then ["圖片裁剪"] else [])
  ++ (match find [Desc (qn "a" "xfrm")] drawing with
      | Some xfrm => if has_key (attrib xfrm) "rot" then ["圖片旋轉"] else []
      | None => []
      end)
  ++ (if is_some (find [Desc (qn "a" "effectLst")] drawing) then ["視覺特效"] else [])
  ++ (if is_some (find [Desc (qn "wp" "cNvGraphicFramePr")] drawing) then ["文字框"] else []).

(** [ImageParser._extract_vml_special_properties(shape)] *)
Definition _extract_vml_special_properties (shape : elem) : list string :=
  (if has_key (attrib shape) "rotation" then ["VML旋轉"] else [])
  ++ (if has_key (attrib shape) "fill" then ["VML填充"] else [])
  ++ (if has_key (attrib shape) "stroke" then ["VML邊框"] else []).

(** [ImageParser._parse_drawing_element(drawing, part_name, img_index)] *)
Definition _parse_drawing_element (drawing : elem) (part_name : string)
    (img_index : nat) : exc (option image) :=
  match find [Desc (qn "a" "blip")] drawing with
  | None => Val None
  | Some blip =>
      match get (attrib blip) (qn "r" "embed") with
      | Some embed_id =>
          if truthy embed_id
          then geom <- _extract_geometry_info drawing ;;
               img_props <- _parse_image_properties drawing ;;
               let effects := _parse_image_effects drawing in
               position <- _extract_position_info drawing ;;
               Val (Some (Image part_name img_index "DrawingML" embed_id geom
                                (Some position) (Some img_props) (Some effects) None
                                "Modern (2007+)"
                                (_extract_special_properties drawing)))
          else Val None
      | None => Val None
      end
  end.

(** [ImageParser._parse_vml_element(pict, part_name, img_index)] *)
Definition _parse_vml_element (pict : elem) (part_name : string)
    (img_index : nat) : exc (option image) :=
  match find [Desc (qn "v" "shape")] pict with
  | None => Val None
  | Some shape =>
      match find [Desc (qn "v" "imagedata")] shape with
      | None => Val None
      | Some imagedata =>
          match get (attrib imagedata) (qn "r" "id") with
          | Some embed_id =>
              if truthy embed_id
              then geom <- _extract_vml_geometry shape ;;
                   vml_style <- _parse_vml_style shape ;;
                   Val (Some (Image part_name img_index "VML" embed_id geom
                                    None None None (Some vml_style)
                                    "Legacy (2003-2007)"
                                    (_extract_vml_special_properties shape)))
              else Val None
          | None => Val None
          end
      end
  end.

(** The body of both loops of [parse_images]: the dictionary is appended;
    [None] and every exception leave the list as it is. *)
Definition keep (images : list image) (r : exc (option image)) : list image :=
  match r with
  | Val (Some image_info) => images ++ [image_info]
  | _ => images
  end.

(** [ImageParser.parse_images(root, part_name)]: the drawings are numbered
    from 1, the VML pictures from the number of images found so far plus
    one. *)
Definition parse_images (root : elem) (part_name : string) : list image :=
  let images :=
    fold_left (fun acc id => keep acc (_parse_drawing_element (snd id) part_name (fst id)))
              (ParagraphParser.enumerate 1 (findall [Desc (qn "w" "drawing")] root)) [] in
  fold_left (fun acc ip => keep acc (_parse_vml_element (snd ip) part_name (fst ip)))
            (ParagraphParser.enumerate (List.length images + 1)
                                       (findall [Desc (qn "w" "pict")] root))
            images.

End ImageParser.

(* ===================================================================== *)
(** * [parsers/utils.py]: the cross-source merge *)
(* ===================================================================== *)

(** A value of the character-spacing set: a number, or a string still to be
    normalised. *)
Inductive scalar : Type :=
| SNum (x : float)
| SText (s : string).

(** An entry of [para_map].  While the map is built the collections are
    Python sets, kept here as the list of their distinct elements in the
    order of first insertion; in the returned dictionary they are lists. *)
Record entry : Type := Entry {
  en_text : string;                    (* "文字" *)
  en_sources : list string;            (* "來源列表" *)
  en_fonts : list string;              (* "fonts" *)
  en_size_pt : list float;             (* "size_pt" *)
  en_color : list string;              (* "color" *)
  en_isWordArt : bool;                 (* "isWordArt" *)
  en_geometry : pyobj;                 (* "幾何" *)
  en_props : pyobj;                    (* "段落屬性" *)
  en_spacing : list scalar;            (* "字距" *)
  en_outline_color : list string;      (* "outline_color" *)
  en_background_color : list string    (* "background_color" *)
}.

(** The order in which iterating a [set] yields the elements that were
    inserted in a given order.  CPython derives it from the elements'
    hashes, and the hash of a [str] from a seed the interpreter draws when
    it starts: the order is a fixed function within one process and some
    rearrangement of the elements. *)
Record set_iteration : Type := SetIteration {
  set_order : forall A : Type, list A -> list A;
  set_order_perm : forall (A : Type) (l : list A), Permutation (set_order A l) l
}.

Module CrossSource.

(** [s.add(x)] *)
Definition set_add {A : Type} (eqb : A -> A -> bool) (s : list A) (x : A) : list A :=
  if existsb (eqb x) s then s else s ++ [x].

Definition add_str := set_add String.eqb.
Definition add_float := set_add PrimFloat.eqb.

Definition scalar_eqb (x y : scalar) : bool :=
  match x, y with
  | SNum u, SNum v => (u =? v)%float
  | SText u, SText v => String.eqb u v
  | _, _ => false
  end.

Definition add_scalar := set_add scalar_eqb.

(** [for v in fonts.values(): if v: s.add(v)] *)
Definition add_font_values (s : list string) (vs : list (option string)) : list string :=
  fold_left (fun acc v => match v with
                          | Some name => if truthy name then add_str acc name else acc
                          | None => acc
                          end) vs s.

Definition add_if_truthy (s : list string) (v : option string) : list string :=
  match v with
  | Some x => if truthy x then add_str s x else s
  | None => s
  end.

(** [normalize_spacing(values)] *)
Definition normalize_spacing (values : list scalar) : list scalar :=
  map (fun v => match v with
                | SText t =>
                    match (n <- int_of_str t ;;
                           x <- int_truediv_float n 100%float ;;
                           Val (SNum x)) with
                    | Val r => r
                    | Raise _ => v
                    end
                | SNum _ => v
                end) values.

(** A new entry of [para_map]. *)
Definition new_entry (txt : string) (is_wa : bool) (geom : pyobj) : entry :=
  Entry txt [] [] [] [] is_wa geom (PDict []) [] [] [].

(** [para_map[txt]], after the entry was created if it was missing. *)
Fixpoint lookup (m : list (string * entry)) (txt : string) : option entry :=
  match m with
  | [] => None
  | (k, e) :: m' => if String.eqb k txt then Some e else lookup m' txt
  end.

(** The updates of one run of a paragraph on the entry of its text. *)
Definition add_run (e : entry) (r : run) : entry :=
  let st := run_style r in
  let fonts1 :=
    match fonts st with
    | Some f => add_font_values (en_fonts e) [f_ascii f; f_eastAsia f; f_cs f; f_hAnsi f]
    | None => en_fonts e
    end in
  let sizes1 :=
    match size_pt st with
    | Some (Some x) => if ftruthy x then add_float (en_size_pt e) x else en_size_pt e
    | _ => en_size_pt e
    end in
  let colors1 := add_if_truthy (en_color e) (color st) in
  let spacing1 :=
    match spacing_cm st with
    | Some x => add_scalar (en_spacing e) (SNum x)
    | None => en_spacing e
    end in
  let background1 :=
    match background_color st with
    | Some c => add_str (en_background_color e) c
    | None => en_background_color e
    end in
  Entry (en_text e) (en_sources e) fonts1 sizes1 colors1 (en_isWordArt e)
        (en_geometry e) (en_props e) spacing1 (en_outline_color e) background1.

(** The updates of one paragraph on the entry of its text: its part joins
    the sources, every run adds its facts, and the paragraph properties
    replace the ones recorded before. *)
Definition update_from_paragraph (e0 : entry) (para : paragraph) : entry :=
  let e1 := Entry (en_text e0) (add_str (en_sources e0) (p_source para))
                  (en_fonts e0) (en_size_pt e0) (en_color e0) (en_isWordArt e0)
                  (en_geometry e0) (en_props e0) (en_spacing e0)
                  (en_outline_color e0) (en_background_color e0) in
  let e2 := fold_left add_run (p_runs para) e1 in
  Entry (en_text e2) (en_sources e2) (en_fonts e2) (en_size_pt e2)
        (en_color e2) (en_isWordArt e2) (en_geometry e2) (p_props para)
        (en_spacing e2) (en_outline_color e2) (en_background_color e2).

(** The body of the loop over the paragraphs. *)
Definition add_paragraph (para_map : list (string * entry)) (para : paragraph)
  : list (string * entry) :=
  let txt := strip (p_text para) in
  if negb (truthy txt) then para_map
  else
    let e0 := match lookup para_map txt with
              | Some e => e
              | None => new_entry txt false PNone
              end in
    dict_set para_map txt (update_from_paragraph e0 para).

(** The updates of the style dictionary of a WordArt element. *)
Definition add_wordart_style (e : entry) (st : wordart_style) : entry :=
  let fonts1 :=
    match ws_fonts st with
    | Some f => add_font_values (en_fonts e) (map snd f)
    | None => en_fonts e
    end in
  let sizes1 :=
    match ws_size_pt st with
    | Some (Some x) => if ftruthy x then add_float (en_size_pt e) x else en_size_pt e
    | _ => en_size_pt e
    end in
  let colors1 := add_if_truthy (en_color e) (ws_fill_color st) in
  let spacing1 :=
    match ws_kern_pt st with
    | Some x => add_scalar (en_spacing e) (SNum x)
    | None => en_spacing e
    end in
  let outline1 := add_if_truthy (en_outline_color e) (ws_outline_color st) in
  let background1 := add_if_truthy (en_background_color e) (ws_background_color st) in
  Entry (en_text e) (en_sources e) fonts1 sizes1 colors1 (en_isWordArt e)
        (en_geometry e) (en_props e) spacing1 outline1 background1.

(** The updates of one WordArt element on the entry of its text: its part
    joins the sources, the entry is marked as WordArt and takes the
    geometry of the element, and the style dictionary adds its facts. *)
Definition update_from_wordart (e0 : entry) (wa : wordart) : entry :=
  let e1 := Entry (en_text e0) (add_str (en_sources e0) (wa_source wa))
                  (en_fonts e0) (en_size_pt e0) (en_color e0) true
                  (wa_geometry wa) (en_props e0) (en_spacing e0)
                  (en_outline_color e0) (en_background_color e0) in
  match wa_style wa with
  | Some st => add_wordart_style e1 st
  | None => e1
  end.

(** The body of the loop over the WordArt elements; [wa.get("文字", "")]
    is [None] for a text effect, and [None.strip()] raises. *)
Definition add_wordart (para_map : list (string * entry)) (wa : wordart)
  : exc (list (string * entry)) :=
  match wa_text wa with
  | None => Raise AttributeError
  | Some t =>
      let txt := strip t in
      if negb (truthy txt) then Val para_map
      else
        let e0 := match lookup para_map txt with
                  | Some e => e
                  | None => new_entry txt true (wa_geometry wa)
                  end in
        Val (dict_set para_map txt (update_from_wordart e0 wa))
  end.

(** The entry as it is returned: every set becomes a list, in the
    iteration order of the set; the spacing values are normalised first. *)
Definition export (ord : set_iteration) (e : entry) : entry :=
  Entry (en_text e)
        (set_order ord _ (en_sources e))
        (set_order ord _ (en_fonts e))
        (set_order ord _ (en_size_pt e))
        (set_order ord _ (en_color e))
        (en_isWordArt e)
        (en_geometry e)
        (en_props e)
        (normalize_spacing (set_order ord _ (en_spacing e)))
        (set_order ord _ (en_outline_color e))
        (set_order ord _ (en_background_color e)).

(** [merge_across_sources(summary)]: the list under ["段落完整文字"]. *)
Definition merge_across_sources (ord : set_iteration)
    (paragraphs : list paragraph) (wordarts : list wordart) : exc (list entry) :=
  let para_map := fold_left add_paragraph paragraphs [] in
  para_map <- for_each add_wordart wordarts para_map ;;
  Val (map (fun kv => export ord (snd kv)) para_map).

End CrossSource.

(* ===================================================================== *)
(** * [parsers/doc_parser.py] *)
(* ===================================================================== *)

(** The summary dictionary.  ["表格"] and ["圖片"] are missing until a part
    with tables or images is met; ["整合文字樣式"] is the empty dictionary
    until the cross-source merge has run. *)
Record summary : Type := Summary {
  s_paragraphs : list paragraph;        (* "段落" *)
  s_wordart : list wordart;             (* "WordArt" *)
  s_notices : list string;              (* "提示" *)
  s_merged : option (list entry);       (* "整合文字樣式" *)
  s_tables : option (list pyobj);       (* "表格" *)
  s_images : option (list pyobj)        (* "圖片" *)
}.

(** What the file system holds at [file_path]: nothing, a file that is not
    a zip archive, or an archive with the result of its integrity test (the
    first corrupt member, if any) and its members in archive order, each
    with its name and content. *)
Inductive file : Type :=
| Missing
| NotZip
| Zip (bad_file : option string) (members : list (string * string)).

Module DocParser.

Section Analyzer.

(** [ET.fromstring]: the tree of a well-formed document, an exception for
    anything else. *)
Variable fromstring : string -> exc elem.

(** [TableParser.parse_tables] and [ImageParser.parse_images]: both catch
    every exception of their sub-parsers and return a list. *)
Variable parse_tables : elem -> string -> list pyobj.
Variable parse_images : elem -> string -> list pyobj.

Variable ord : set_iteration.

(** [z.read(name)]: the content of the last member of that name. *)
Fixpoint zread (members : list (string * string)) (name : string) : option string :=
  match members with
  | [] => None
  | (n, c) :: rest =>
      match zread rest name with
      | Some c' => Some c'
      | None => if String.eqb n name then Some c else None
      end
  end.

(** [get_xml(z, name)] of [utils.py] *)
Definition get_xml (members : list (string * string)) (name : string) : exc (option elem) :=
  try_except
    (match zread members name with
     | Some content => root <- fromstring content ;; Val (Some root)
     | None => Raise Exception
     end)
    (fun _ => Val None).

(** [s.startswith(prefix)] and [sub in s] *)
Definition startswith (s prefix : string) : bool :=
  String.eqb (String.substring 0 (String.length prefix) s) prefix.

Fixpoint contains (sub s : string) : bool :=
  startswith s sub
  || match s with
     | EmptyString => false
     | String _ s' => contains sub s'
     end.

(** The parts the analyzer reads: under [word/], ending in [.xml], outside
    any [_rels] directory. *)
Definition eligible (name : string) : bool :=
  negb (negb (startswith name "word/")
        || negb (DrawingParser.endswith name ".xml")
        || contains "/_rels/" name).

(** [parse_all_tables_in_document] and [parse_all_images_in_document] *)
Definition parse_all_tables_in_document (root : elem) (part_name : string)
    (out : summary) : summary :=
  let tables := parse_tables root part_name in
  match tables with
  | [] => out
  | _ :: _ =>
      Summary (s_paragraphs out) (s_wordart out)
              (s_notices out
               ++ [("檢測到 " ++ str_nat (List.length tables) ++ " 個表格")%string])
              (s_merged out) (Some tables) (s_images out)
  end.

Definition parse_all_images_in_document (root : elem) (part_name : string)
    (out : summary) : summary :=
  let images := parse_images root part_name in
  match images with
  | [] => out
  | _ :: _ =>
      Summary (s_paragraphs out) (s_wordart out)
              (s_notices out
               ++ [("檢測到 " ++ str_nat (List.length images) ++ " 張圖片")%string])
              (s_merged out) (s_tables out) (Some images)
  end.

(** The body of the loop over [z.namelist()]. *)
Definition process_part (members : list (string * string)) (out : summary)
    (name : string) : exc summary :=
  if negb (eligible name) then Val out
  else
    root <- get_xml members name ;;
    match root with
    | None => Val out
    | Some root =>
        paragraphs <- ParagraphParser.parse_paragraphs root name (s_paragraphs out) ;;
        wordarts <- DrawingParser.parse root name (s_wordart out) ;;
        let out1 := Summary paragraphs wordarts (s_notices out) (s_merged out)
                            (s_tables out) (s_images out) in
        let out2 := parse_all_tables_in_document root name out1 in
        Val (parse_all_images_in_document root name out2)
    end.

(** [DocParser._merge_similar_runs(summary)] *)
Definition merge_paragraph_runs (para : paragraph) : exc paragraph :=
  match p_runs para with
  | [] => Val para
  | runs =>
      merged_runs <- Merge._merge_runs_by_style runs ;;
      Val (Paragraph (p_source para) (p_index para) (p_text para) merged_runs
                     (p_props para))
  end.

Definition _merge_similar_runs (out : summary) : exc summary :=
  paragraphs <- map_exc merge_paragraph_runs (s_paragraphs out) ;;
  Val (Summary paragraphs (s_wordart out) (s_notices out) (s_merged out)
               (s_tables out) (s_images out)).

Definition empty_summary : summary := Summary [] [] [] None None None.

(** The [try] block of [summarize]. *)
Definition analyze (f : file) : exc summary :=
  match f with
  | Missing => Raise FileNotFoundError
  | NotZip => Raise BadZipFile
  | Zip bad_file members =>
      if otruthy bad_file then Raise BadZipFile
      else
        out <- for_each (process_part members) (map fst members) empty_summary ;;
        out <- _merge_similar_runs out ;;
        merged <- CrossSource.merge_across_sources ord (s_paragraphs out) (s_wordart out) ;;
        Val (Summary (s_paragraphs out) (s_wordart out) (s_notices out) (Some merged)
                     (s_tables out) (s_images out))
  end.

(** [DocParser.summarize(file_path)]: a missing file is reported before the
    [try]; inside it a corrupt archive becomes a [ValueError] and every
    other exception the generic [Exception]. *)
Definition summarize (f : file) : exc summary :=
  match f with
  | Missing => Raise FileNotFoundError
  | _ =>
      try_except (analyze f)
                 (fun e => match e with
                           | BadZipFile => Raise ValueError
                           | _ => Raise Exception
                           end)
  end.

End Analyzer.

End DocParser.

(* ===================================================================== *)
(** * [analysis/document_analyzer.py] *)
(* ===================================================================== *)

Module DocumentAnalyzer.

Section Complexity.

(** The dictionary [data] handed to the analyzer: any of the four element
    lists may be missing.  Only their lengths matter here. *)
Variables P W I T : Type.

Record data : Type := Data {
  d_paragraphs : option (list P);   (* "段落" *)
  d_wordart : option (list W);      (* "WordArt" *)
  d_images : option (list I);       (* "圖片" *)
  d_tables : option (list T)        (* "表格" *)
}.

(** [len(data.get(key, []))] *)
Definition len_get {A : Type} (o : option (list A)) : nat :=
  match o with
  | Some l => List.length l
  | None => 0%nat
  end.

(** The expression bound to [elements_count].  A conditional expression
    binds weaker than [+], so the source reads
    [(p + w + i) if "圖片" in data else ((0 + t) if "表格" in data else 0)]. *)
Definition elements_count (d : data) : nat :=
  if is_some (d_images d)
  then (len_get (d_paragraphs d) + len_get (d_wordart d) + len_get (d_images d))%nat
  else if is_some (d_tables d)
       then (0 + len_get (d_tables d))%nat
       else 0%nat.

(** [DocumentAnalyzer._assess_complexity(data)] *)
Definition _assess_complexity (d : data) : string :=
  if Nat.ltb 50 (elements_count d) then "高複雜度"
  else if Nat.ltb 20 (elements_count d) then "中等複雜度"
  else "低複雜度".

End Complexity.

Arguments Data {P W I T} _ _ _ _.
Arguments d_paragraphs {P W I T} d.
Arguments d_wordart {P W I T} d.
Arguments d_images {P W I T} d.
Arguments d_tables {P W I T} d.
Arguments elements_count {P W I T} d.
Arguments _assess_complexity {P W I T} d.

Section Report.

(** The dictionary [data] with the paragraphs and WordArt elements of the
    summary; of the images and tables only the number is read here. *)
Variables I T : Type.

(** The order in which a [set] is iterated. *)
Variable ord : set_iteration.

(** [data.get("段落", [])] and [data.get("WordArt", [])] *)
Definition paragraphs_of (d : data paragraph wordart I T) : list paragraph :=
  match d_paragraphs d with
  | Some l => l
  | None => []
  end.

Definition wordarts_of (d : data paragraph wordart I T) : list wordart :=
  match d_wordart d with
  | Some l => l
  | None => []
  end.

(** [style.get("fonts", {}).values()] of a run *)
Definition font_values (r : run) : list (option string) :=
  match fonts (run_style r) with
  | Some f => [f_ascii f; f_eastAsia f; f_cs f; f_hAnsi f]
  | None => []
  end.

(** [DocumentAnalyzer._extract_main_fonts(data)]: the values of all font
    slots go into a set, and the truthy ones come out in its order. *)
Definition _extract_main_fonts (d : data paragraph wordart I T) : list string :=
  let fonts :=
    fold_left (fun s para =>
                 fold_left (fun s r =>
                              fold_left (CrossSource.set_add Merge.ostr_eq) (font_values r) s)
                           (p_runs para) s)
              (paragraphs_of d) [] in
  flat_map (fun v => match v with
                     | Some x => if truthy x then [x] else []
                     | None => []
                     end)
           (set_order ord _ fonts).

(** The dictionary of [_calculate_document_quality]. *)
Record quality : Type := Quality {
  q_total : nat;        (* "總分" *)
  q_content : nat;      (* "內容豐富度" *)
  q_creative : nat;     (* "創意元素" *)
  q_visual : nat;       (* "視覺元素" *)
  q_styles : nat        (* "樣式多樣性" *)
}.

(** [DocumentAnalyzer._calculate_document_quality(data)] *)
Definition _calculate_document_quality (d : data paragraph wordart I T) : quality :=
  let paragraph_count := len_get (d_paragraphs d) in
  let wordart_count := len_get (d_wordart d) in
  let image_count := if is_some (d_images d) then len_get (d_images d) else 0%nat in
  let table_count := if is_some (d_tables d) then len_get (d_tables d) else 0%nat in
  let style_variety := List.length (_extract_main_fonts d) in
  let score := Nat.min 100 (paragraph_count * 2 + wordart_count * 10
                            + image_count * 5 + table_count * 8 + style_variety * 3) in
  Quality score
          (Nat.min 30 (paragraph_count * 2))
          (Nat.min 40 (wordart_count * 10))
          (Nat.min 20 ((image_count + table_count) * 5))
          (Nat.min 10 (style_variety * 3)).

(** [d.get(key, 0)] on a dictionary of counts, and
    [d[key] = d.get(key, 0) + 1]. *)
Fixpoint count_of (d : list (string * nat)) (key : string) : nat :=
  match d with
  | [] => 0%nat
  | (k, v) :: d' => if String.eqb k key then v else count_of d' key
  end.

Definition bump (d : list (string * nat)) (key : string) : list (string * nat) :=
  dict_set d key (count_of d key + 1)%nat.

(** [if v: d[v] = d.get(v, 0) + 1] *)
Definition bump_truthy (d : list (string * nat)) (v : option string)
  : list (string * nat) :=
  match v with
  | Some x => if truthy x then bump d x else d
  | None => d
  end.

(** [DocumentAnalyzer._analyze_font_usage(data)] *)
Definition _analyze_font_usage (d : data paragraph wordart I T) : list (string * nat) :=
  fold_left (fun font_count para =>
               fold_left (fun font_count r => fold_left bump_truthy (font_values r) font_count)
                         (p_runs para) font_count)
            (paragraphs_of d) [].

(** [DocumentAnalyzer._analyze_color_usage(data)] *)
Definition _analyze_color_usage (d : data paragraph wordart I T) : list (string * nat) :=
  let color_count :=
    fold_left (fun color_count para =>
                 fold_left (fun color_count r => bump_truthy color_count (color (run_style r)))
                           (p_runs para) color_count)
              (paragraphs_of d) [] in
  fold_left (fun color_count wa =>
               match wa_style wa with
               | Some st => bump_truthy color_count (ws_fill_color st)
               | None => color_count
               end)
            (wordarts_of d) color_count.

End Report.

Arguments paragraphs_of {I T} d.
Arguments wordarts_of {I T} d.
Arguments _extract_main_fonts {I T} ord d.
Arguments _calculate_document_quality {I T} ord d.
Arguments _analyze_font_usage {I T} d.
Arguments _analyze_color_usage {I T} d.

(** [font_info.get("ascii") or font_info.get("hAnsi")
    or font_info.get("eastAsia") or "預設"] for the fonts of a run. *)
Definition main_font_of (r : run) : string :=
  let pick (v : option string) (rest : string) :=
    match v with
    | Some x => if truthy x then x else rest
    | None => rest
    end in
  match fonts (run_style r) with
  | Some f => pick (f_ascii f) (pick (f_hAnsi f) (pick (f_eastAsia f) "預設"))
  | None => "預設"
  end.

(** [max(items, key=count)]: the first item with the largest count. *)
Definition first_max (d : list (string * nat)) : option (string * nat) :=
  match d with
  | [] => None
  | kv :: d' =>
      Some (fold_left (fun best kv' => if Nat.ltb (snd best) (snd kv') then kv' else best)
                      d' kv)
  end.

(** [DocumentAnalyzer._extract_main_font_in_paragraph(para)]:
    [Counter(fonts).most_common(1)[0][0]], which would raise ([IndexError])
    on an empty counter. *)
Definition _extract_main_font_in_paragraph (para : paragraph) : exc string :=
  let fonts := flat_map (fun r => let main_font := main_font_of r in
                                  if truthy main_font then [main_font] else [])
                        (p_runs para) in
  match fonts with
  | [] => Val "預設"
  | _ :: _ =>
      match first_max (fold_left bump fonts []) with
      | Some (font, _) => Val font
      | None => Raise Exception
      end
  end.

(** Truthiness of a value of a dictionary. *)
Definition obj_truthy (o : pyobj) : bool :=
  match o with
  | PNone => false
  | PBool b => b
  | PFloat x => ftruthy x
  | PStr s => truthy s
  | PList l => match l with [] => false | _ :: _ => true end
  | PDict d => match d with [] => false | _ :: _ => true end
  end.

(** [d.get(key)] on a dictionary of values. *)
Fixpoint obj_get (d : list (string * pyobj)) (key : string) : option pyobj :=
  match d with
  | [] => None
  | (k, v) :: d' => if String.eqb k key then Some v else obj_get d' key
  end.

(** [DocumentAnalyzer._describe_wordart_effects(wordart)]: the style is
    read from the key ["style"], the rotation from the geometry, which must
    be a dictionary. *)
Definition _describe_wordart_effects (wa : wordart) : exc (list string) :=
  let fill := match wa_style wa with
              | Some st => otruthy (ws_fill_color st)
              | None => false
              end in
  let outline := match wa_style wa with
                 | Some st => otruthy (ws_outline_color st)
                 | None => false
                 end in
  rotation <-
    match wa_geometry wa with
    | PDict g => Val (match obj_get g "旋轉度" with
                      | Some v => obj_truthy v
                      | None => false
                      end)
    | _ => Raise AttributeError
    end ;;
  let kern := match wa_style wa with
              | Some st => match ws_kern_pt st with
                           | Some x => ftruthy x
                           | None => false
                           end
              | None => false
              end in
  let effects :=
    (if fill then ["填色效果"] else [])
    ++ (if outline then ["輪廓效果"] else [])
    ++ (if rotation then ["旋轉效果"] else [])
    ++ (if kern then ["字距調整"] else []) in
  Val (match effects with
       | [] => ["基本效果"]
       | _ :: _ => effects
       end).

End DocumentAnalyzer.

(* ===================================================================== *)
(** * Vocabulary of the properties *)
(* ===================================================================== *)

(** The text a run contributes to a concatenation: a missing text counts
    as the empty string. *)
Definition text_of (r : run) : string :=
  match run_text r with
  | Some s => s
  | None => ""
  end.

(** The texts of a run sequence, concatenated in order. *)
Fixpoint concat_texts (l : list run) : string :=
  match l with
  | [] => ""
  | r :: l' => text_of r ++ concat_texts l'
  end.

Definition has_text (r : run) : bool := otruthy (run_text r).

Definition is_str (r : run) : bool := is_some (run_text r).

(** The run that stands for a block of consecutive runs: their texts
    concatenated, under the style of the first; nothing when that text is
    empty. *)
Definition block_run (b : list run) : list run :=
  match b with
  | [] => []
  | r :: _ =>
      if truthy (concat_texts b)
      then [Run (Some (concat_texts b)) (run_style r)]
      else []
  end.

(** [out] regroups [runs]: [runs] can be cut into consecutive blocks such
    that [out] lists, in the same order, the run of every block with
    text. *)
Definition regroups (runs out : list run) : Prop :=
  exists blocks : list (list run),
    List.concat blocks = runs /\ out = flat_map block_run blocks.

(** Every run has text and no run is style-equal to the one before it, for
    the comparison [eq] at hand. *)
Fixpoint separated (eq : style -> style -> bool) (prev : option run) (l : list run)
  : bool :=
  match l with
  | [] => true
  | r :: l' =>
      has_text r
      && match prev with
         | Some p => negb (eq (run_style r) (run_style p))
         | None => true
         end
      && separated eq (Some r) l'
  end.

(** The comparison of [_merge_runs_by_style]: equal style keys. *)
Definition same_key (s1 s2 : style) : bool :=
  String.eqb (Merge.create_style_key s1) (Merge.create_style_key s2).

(** The first text node of every direct run child of a paragraph. *)
Definition first_texts (p : elem) : list elem :=
  flat_map (fun r => match find [Child (qn "w" "t")] r with
                     | Some t => [t]
                     | None => []
                     end)
           (findall [Child (qn "w" "r")] p).

(** The text a paragraph node gives to its runs. *)
Definition direct_run_text (p : elem) : string :=
  String.concat "" (ParagraphParser.texts_of (first_texts p)).

(** The paragraph nodes of a part with their 1-based positions, and those
    of them that become paragraphs of the summary. *)
Definition paragraph_nodes (root : elem) : list (nat * elem) :=
  ParagraphParser.enumerate 1 (findall [Desc (qn "w" "p")] root).

Definition plain_nodes (root : elem) : list (nat * elem) :=
  filter (fun ip => negb (ParagraphParser.is_wordart_carrier (snd ip)))
         (paragraph_nodes root).

(** The WordArt elements a sub-parser yields over a list of nodes. *)
Definition yielded (f : elem -> exc (option wordart)) (nodes : list elem) : list wordart :=
  flat_map (fun x => match f x with
                     | Val (Some y) => [y]
                     | _ => []
                     end) nodes.


(** What the paragraph parser records for the plain paragraph node [ip]:
    its part and position, the stripped text of all its text nodes, and
    runs that all have text and together spell the text of the first text
    nodes of its direct run children. *)
Definition describes (part_name : string) (ip : nat * elem) (para : paragraph) : Prop :=
  p_source para = part_name
  /\ p_index para = fst ip
  /\ p_text para = ParagraphParser.extract_paragraph_text (snd ip)
  /\ forallb has_text (p_runs para) = true
  /\ concat_texts (p_runs para) = direct_run_text (snd ip).

(** An occurrence of a text in the summary: a paragraph or a WordArt
    element. *)
Inductive occurrence : Type :=
| InParagraph (p : paragraph)
| InWordArt (wa : wordart).

Definition occurrences (paragraphs : list paragraph) (wordarts : list wordart)
  : list occurrence :=
  map InParagraph paragraphs ++ map InWordArt wordarts.

(** The trimmed text of an occurrence, the key of its entry. *)
Definition key_of (o : occurrence) : string :=
  match o with
  | InParagraph p => strip (p_text p)
  | InWordArt wa => match wa_text wa with
                    | Some t => strip t
                    | None => ""
                    end
  end.

Definition source_of (o : occurrence) : string :=
  match o with
  | InParagraph p => p_source p
  | InWordArt wa => wa_source wa
  end.

Definition truthy_values (vs : list (option string)) : list string :=
  flat_map (fun v => match v with
                     | Some x => if truthy x then [x] else []
                     | None => []
                     end) vs.

(** The facts one run adds to the entry of its paragraph. *)
Definition run_fonts (r : run) : list string :=
  match fonts (run_style r) with
  | Some f => truthy_values [f_ascii f; f_eastAsia f; f_cs f; f_hAnsi f]
  | None => []
  end.

Definition run_sizes (r : run) : list float :=
  match size_pt (run_style r) with
  | Some (Some x) => if ftruthy x then [x] else []
  | _ => []
  end.

Definition run_colors (r : run) : list string :=
  truthy_values [color (run_style r)].

Definition run_spacings (r : run) : list scalar :=
  match spacing_cm (run_style r) with
  | Some x => [SNum x]
  | None => []
  end.

Definition run_backgrounds (r : run) : list string :=
  match background_color (run_style r) with
  | Some c => [c]
  | None => []
  end.

(** The facts one occurrence adds to the entry of its text. *)
Definition fonts_of (o : occurrence) : list string :=
  match o with
  | InParagraph p => flat_map run_fonts (p_runs p)
  | InWordArt wa =>
      match wa_style wa with
      | Some st => match ws_fonts st with
                   | Some f => truthy_values (map snd f)
                   | None => []
                   end
      | None => []
      end
  end.

Definition sizes_of (o : occurrence) : list float :=
  match o with
  | InParagraph p => flat_map run_sizes (p_runs p)
  | InWordArt wa =>
      match wa_style wa with
      | Some st => match ws_size_pt st with
                   | Some (Some x) => if ftruthy x then [x] else []
                   | _ => []
                   end
      | None => []
      end
  end.

Definition colors_of (o : occurrence) : list string :=
  match o with
  | InParagraph p => flat_map run_colors (p_runs p)
  | InWordArt wa =>
      match wa_style wa with
      | Some st => truthy_values [ws_fill_color st]
      | None => []
      end
  end.

Definition spacings_of (o : occurrence) : list scalar :=
  match o with
  | InParagraph p => flat_map run_spacings (p_runs p)
  | InWordArt wa =>
      match wa_style wa with
      | Some st => match ws_kern_pt st with
                   | Some x => [SNum x]
                   | None => []
                   end
      | None => []
      end
  end.

Definition outlines_of (o : occurrence) : list string :=
  match o with
  | InParagraph _ => []
  | InWordArt wa =>
      match wa_style wa with
      | Some st => truthy_values [ws_outline_color st]
      | None => []
      end
  end.

Definition backgrounds_of (o : occurrence) : list string :=
  match o with
  | InParagraph p => flat_map run_backgrounds (p_runs p)
  | InWordArt wa =>
      match wa_style wa with
      | Some st => truthy_values [ws_background_color st]
      | None => []
      end
  end.

(** The set built by adding the values [xs] in order to the set [s]. *)
Definition added {A : Type} (eqb : A -> A -> bool) (s xs : list A) : list A :=
  fold_left (CrossSource.set_add eqb) xs s.

(** The occurrences of the text [k]. *)
Definition group (k : string) (occs : list occurrence) : list occurrence :=
  filter (fun o => String.eqb (key_of o) k) occs.

(** The texts with an entry: the non-empty keys, each once, in the order of
    their first occurrence. *)
Definition keys_of (occs : list occurrence) : list string :=
  added String.eqb [] (filter truthy (map key_of occs)).

(** The state of an entry after the occurrences [os] of its text, from the
    state [e]. *)
Definition after (e : entry) (os : list occurrence) : entry :=
  Entry (en_text e)
        (added String.eqb (en_sources e) (map source_of os))
        (added String.eqb (en_fonts e) (flat_map fonts_of os))
        (added PrimFloat.eqb (en_size_pt e) (flat_map sizes_of os))
        (added String.eqb (en_color e) (flat_map colors_of os))
        (fold_left (fun b o => match o with
                               | InParagraph _ => b
                               | InWordArt _ => true
                               end) os (en_isWordArt e))
        (fold_left (fun g o => match o with
                               | InParagraph _ => g
                               | InWordArt wa => wa_geometry wa
                               end) os (en_geometry e))
        (fold_left (fun q o => match o with
                               | InParagraph p => p_props p
                               | InWordArt _ => q
                               end) os (en_props e))
        (added CrossSource.scalar_eqb (en_spacing e) (flat_map spacings_of os))
        (added String.eqb (en_outline_color e) (flat_map outlines_of os))
        (added String.eqb (en_background_color e) (flat_map backgrounds_of os)).

(** The returned entry [e] collects the occurrences [os]: each of its lists
    holds, in some order, the values the occurrences contribute, each value
    once. *)
Definition collects (os : list occurrence) (e : entry) : Prop :=
  Permutation (en_sources e) (added String.eqb [] (map source_of os))
  /\ Permutation (en_fonts e) (added String.eqb [] (flat_map fonts_of os))
  /\ Permutation (en_size_pt e) (added PrimFloat.eqb [] (flat_map sizes_of os))
  /\ Permutation (en_color e) (added String.eqb [] (flat_map colors_of os))
  /\ Permutation (en_spacing e)
                 (CrossSource.normalize_spacing
                    (added CrossSource.scalar_eqb [] (flat_map spacings_of os)))
  /\ Permutation (en_outline_color e) (added String.eqb [] (flat_map outlines_of os))
  /\ Permutation (en_background_color e)
                 (added String.eqb [] (flat_map backgrounds_of os)).

(** Two returned entries that differ at most in the order of their lists. *)
Definition entry_similar (e1 e2 : entry) : Prop :=
  en_text e1 = en_text e2
  /\ Permutation (en_sources e1) (en_sources e2)
  /\ Permutation (en_fonts e1) (en_fonts e2)
  /\ Permutation (en_size_pt e1) (en_size_pt e2)
  /\ Permutation (en_color e1) (en_color e2)
  /\ en_isWordArt e1 = en_isWordArt e2
  /\ en_geometry e1 = en_geometry e2
  /\ en_props e1 = en_props e2
  /\ Permutation (en_spacing e1) (en_spacing e2)
  /\ Permutation (en_outline_color e1) (en_outline_color e2)
  /\ Permutation (en_background_color e1) (en_background_color e2).

(** Two outcomes of the analysis that differ at most in the order of the
    lists of the merged text styles. *)
Definition summary_similar (s1 s2 : summary) : Prop :=
  s_paragraphs s1 = s_paragraphs s2
  /\ s_wordart s1 = s_wordart s2
  /\ s_notices s1 = s_notices s2
  /\ s_tables s1 = s_tables s2
  /\ s_images s1 = s_images s2
  /\ match s_merged s1, s_merged s2 with
     | Some l1, Some l2 => Forall2 entry_similar l1 l2
     | None, None => True
     | _, _ => False
     end.

Definition outcome_similar (r1 r2 : exc summary) : Prop :=
  match r1, r2 with
  | Val s1, Val s2 => summary_similar s1 s2
  | Raise e1, Raise e2 => e1 = e2
  | _, _ => False
  end.

(** Two iteration orders: the order of insertion and its reverse. *)
Definition insertion_order : set_iteration :=
  SetIteration (fun _ l => l) (fun _ l => Permutation_refl l).

Definition reversed_order : set_iteration :=
  SetIteration (fun _ l => rev l) (fun _ l => Permutation_sym (Permutation_rev l)).

(** ** A table cell of a given width *)

Section CellVocabulary.

Import TableParser.

(** A cell [<w:tc><w:tcPr><w:tcW w:w=v w:type="dxa"/></w:tcPr></w:tc>]. *)
Definition dxa_cell (v : string) : elem :=
  Elem (w "tc") [] None
       [Elem (w "tcPr") [] None
             [Elem (w "tcW") [(w "w", v); (w "type", "dxa")] None []]].

End CellVocabulary.

(** ** Invariants of the two run merges *)

Section MergeVocabulary.

Import Merge.

(** The invariant of the loop of [merge_runs]: nothing was emitted and
    every run met so far is silent, or the runs met so far are cut into
    blocks of which the last stands behind the last emitted run. *)
Definition merge_runs_inv (done merged : list run) : Prop :=
  (merged = [] /\ forallb (fun r => negb (has_text r)) done = true)
  \/ (exists blocks b x,
        done = List.concat blocks ++ b
        /\ block_run b = [x]
        /\ merged = flat_map block_run blocks ++ [x]).

(** The run before the first run of a continuation: the last of [l], or
    [prev] when [l] is empty. *)
Definition tail_of (prev : option run) (l : list run) : option run :=
  fold_left (fun _ r => Some r) l prev.

(** The invariant of the loop of [_merge_runs_by_style] started on [r0]:
    the runs met so far are cut into blocks; the closed blocks are behind
    [merged], the open one behind [current_group]. *)
Definition by_style_inv (r0 : run) (done : list run) (st : group_state) : Prop :=
  let '(merged, current_group, current_style_key) := st in
  exists blocks h tl,
    r0 :: done = List.concat blocks ++ h :: tl
    /\ merged = flat_map block_run blocks
    /\ current_group = Run (Some (concat_texts (h :: tl))) (run_style h)
    /\ current_style_key = create_style_key (run_style h).

Definition by_style_sep (st : group_state) : Prop :=
  let '(merged, current_group, current_style_key) := st in
  current_style_key = create_style_key (run_style current_group)
  /\ separated same_key None (merged ++ [current_group]) = true.

(** Three runs of one style, the middle one with an empty text. *)
Definition bold_style : style :=
  Style None None None true false None None None false false.

Definition around_empty : list run :=
  [Run (Some "A") bold_style; Run (Some "") bold_style; Run (Some "B") bold_style].

End MergeVocabulary.

(** ** Paragraph nodes and sample parts *)

Section ParagraphVocabulary.

Import ParagraphParser.

(** The text of the run dictionary built for a run node. *)
Definition raw_text (r : elem) : option string :=
  match find [Child (w "t")] r with
  | Some t => text t
  | None => Some ""
  end.

Definition plain (ip : nat * elem) : bool := negb (is_wordart_carrier (snd ip)).

Definition node (t : string) (cs : list elem) : elem := Elem t [] None cs.

Definition text_run (s : string) : elem :=
  node (w "r") [Elem (w "t") [] (Some s) []].

Definition document (paragraphs : list elem) : elem :=
  node (w "document") [node (w "body") paragraphs].

(** A plain paragraph "Hello" + "World" and a paragraph whose run carries a
    text effect. *)
Definition effect_part : elem :=
  document
    [ node (w "p") [text_run "Hello"; text_run "World"];
      node (w "p")
           [node (w "r")
                 [node (w "rPr")
                       [Elem (qn "w14" "textEffect") [(qn "w14" "val", "glow")] None []];
                  Elem (w "t") [] (Some "Fancy") []]] ].



(** A paragraph whose only run ends with a space. *)
Definition spaced_part : elem :=
  document [ node (w "p") [text_run "Hello "] ].

(** A part whose one paragraph holds the legacy WordArt "標題", drawn in
    the color [c]. *)
Definition vml_title_part (c : string) : elem :=
  document
    [ node (w "p")
           [node (w "r")
                 [node (w "pict")
                       [Elem (qn "v" "shape") [("strokecolor", c)] None
                             [Elem (qn "v" "textpath") [("string", "標題")] None []]]]] ].

End ParagraphVocabulary.

(** ** The merge, one occurrence at a time *)

Section CrossSourceVocabulary.

Import CrossSource.

(** One occurrence updates the entry of its text. *)
Definition update (e : entry) (o : occurrence) : entry :=
  match o with
  | InParagraph p => update_from_paragraph e p
  | InWordArt wa => update_from_wordart e wa
  end.

(** The entry created for the first occurrence of a text. *)
Definition init (o : occurrence) (k : string) : entry :=
  match o with
  | InParagraph _ => new_entry k false PNone
  | InWordArt wa => new_entry k true (wa_geometry wa)
  end.

Definition step (m : list (string * entry)) (o : occurrence) : list (string * entry) :=
  let k := key_of o in
  if negb (truthy k) then m
  else dict_set m k (update (match lookup m k with
                             | Some e => e
                             | None => init o k
                             end) o).

(** The entry of the text [k] after its occurrences [os]. *)
Definition folded (k : string) (os : list occurrence) : option entry :=
  match os with
  | [] => None
  | o :: _ => Some (after (init o k) os)
  end.

(** The invariant of the merge: the dictionary has one entry per non-empty
    text met so far, in the order of first occurrence, and the entry of a
    text is the result of its occurrences. *)
Definition grouped (done : list occurrence) (m : list (string * entry)) : Prop :=
  map fst m = keys_of done
  /\ forall k, lookup m k = if truthy k then folded k (group k done) else None.

(** The text "標題" in two parts, in red and in blue. *)
Definition colored (c : string) : style :=
  Style None None None false false (Some c) None None false false.

Definition title_in (part c : string) : paragraph :=
  Paragraph part 1 "標題" [Run (Some "標題") (colored c)] (PDict []).

Definition two_titles : list paragraph :=
  [title_in "word/document.xml" "#FF0000"; title_in "word/header1.xml" "#0000FF"].

End CrossSourceVocabulary.

(** ** Sample archives *)

Section Samples.

(** A part with the one paragraph "標題" in the color [c], as text and as
    the tree [ET.fromstring] builds from it. *)
Definition title_xml (c : string) : string :=
  "<w:document xmlns:w='http://schemas.openxmlformats.org/wordprocessingml/2006/main'>"
  ++ "<w:body><w:p><w:r><w:rPr><w:color w:val='" ++ c ++ "'/></w:rPr>"
  ++ "<w:t>標題</w:t></w:r></w:p></w:body></w:document>".

Definition title_part (c : string) : elem :=
  document
    [ node (qn "w" "p")
           [ node (qn "w" "r")
                  [ node (qn "w" "rPr") [Elem (qn "w" "color") [(qn "w" "val", c)] None []];
                    Elem (qn "w" "t") [] (Some "標題") [] ] ] ].

(** The same for [vml_title_part] and [effect_part]. *)
Definition vml_title_xml (c : string) : string :=
  "<w:document xmlns:w='http://schemas.openxmlformats.org/wordprocessingml/2006/main'"
  ++ " xmlns:v='urn:schemas-microsoft-com:vml'><w:body><w:p><w:r><w:pict>"
  ++ "<v:shape strokecolor='" ++ c ++ "'><v:textpath string='標題'/></v:shape>"
  ++ "</w:pict></w:r></w:p></w:body></w:document>".

Definition effect_xml : string :=
  "<w:document xmlns:w='http://schemas.openxmlformats.org/wordprocessingml/2006/main'"
  ++ " xmlns:w14='http://schemas.microsoft.com/office/word/2010/wordml'><w:body>"
  ++ "<w:p><w:r><w:t>Hello</w:t></w:r><w:r><w:t>World</w:t></w:r></w:p>"
  ++ "<w:p><w:r><w:rPr><w14:textEffect w14:val='glow'/></w:rPr><w:t>Fancy</w:t></w:r></w:p>"
  ++ "</w:body></w:document>".

(** [ET.fromstring] on the contents used below; anything else is taken not
    to parse. *)
Definition sample_fromstring (content : string) : exc elem :=
  if String.eqb content (title_xml "FF0000") then Val (title_part "FF0000")
  else if String.eqb content (title_xml "0000FF") then Val (title_part "0000FF")
  else if String.eqb content (vml_title_xml "#FF0000") then Val (vml_title_part "#FF0000")
  else if String.eqb content (vml_title_xml "#0000FF") then Val (vml_title_part "#0000FF")
  else if String.eqb content effect_xml then Val effect_part
  else Raise ParseError.

Definition nothing (root : elem) (part_name : string) : list pyobj := [].

Definition two_part_archive : file :=
  Zip None [ ("word/document.xml", title_xml "FF0000");
             ("word/header1.xml", title_xml "0000FF") ].

Definition broken_archive : file :=
  Zip None [ ("word/footer1.xml", "<w:ftr");
             ("word/document.xml", title_xml "FF0000") ].

(** The WordArt "標題" in two parts, in red and in blue. *)
Definition vml_archive : file :=
  Zip None [ ("word/document.xml", vml_title_xml "#FF0000");
             ("word/header1.xml", vml_title_xml "#0000FF") ].

(** The two parts of [two_part_archive] and a footer with a text effect. *)
Definition effect_archive : file :=
  Zip None [ ("word/document.xml", title_xml "FF0000");
             ("word/header1.xml", title_xml "0000FF");
             ("word/footer1.xml", effect_xml) ].

End Samples.

(** ** Parts of an archive *)

Section ArchiveVocabulary.

Variable fromstring : string -> exc elem.

(** The tree of the member [name], when the analyzer reads it: the name is
    eligible and the content parses. *)
Definition part_root (members : list (string * string)) (name : string) : option elem :=
  if DocParser.eligible name
  then match DocParser.get_xml fromstring members name with
       | Val (Some root) => Some root
       | _ => None
       end
  else None.

(** The parts the analyzer reads, in the order of [z.namelist()]. *)
Definition parsed_parts (members : list (string * string)) : list (string * elem) :=
  flat_map (fun name => match part_root members name with
                        | Some root => [(name, root)]
                        | None => []
                        end)
           (map fst members).

End ArchiveVocabulary.

(** The last non-empty list of [ls], from [start]. *)
Definition last_nonempty {A : Type} (start : option (list A)) (ls : list (list A))
  : option (list A) :=
  fold_left (fun acc l => match l with
                          | [] => acc
                          | _ :: _ => Some l
                          end) ls start.

(** The notice recorded for a non-empty list of tables or images. *)
Definition count_notice (unit : string) (l : list pyobj) : list string :=
  match l with
  | [] => []
  | _ :: _ => [("檢測到 " ++ str_nat (List.length l) ++ unit)%string]
  end.

(** A style under another character style name. *)
Definition with_style_name (n : option string) (s : style) : style :=
  Style n (fonts s) (size_pt s) (bold s) (italic s) (color s) (spacing_cm s)
        (background_color s) (underline s) (strike s).

(** The paragraph properties of the last paragraph among the occurrences
    [os], the geometry of the last WordArt element among them. *)
Definition last_props (os : list occurrence) : option pyobj :=
  fold_left (fun q o => match o with
                        | InParagraph p => Some (p_props p)
                        | InWordArt _ => q
                        end) os None.

Definition last_geometry (os : list occurrence) : option pyobj :=
  fold_left (fun g o => match o with
                        | InParagraph _ => g
                        | InWordArt wa => Some (wa_geometry wa)
                        end) os None.

Definition is_wordart_occurrence (o : occurrence) : bool :=
  match o with
  | InParagraph _ => false
  | InWordArt _ => true
  end.

(** A table parser for the samples: one table per part, named after it. *)
Definition one_table (root : elem) (part_name : string) : list pyobj :=
  [PStr part_name].

(** A part whose one paragraph has a tab stop at the position [pos]. *)
Definition tabbed_part (pos : string) : elem :=
  document
    [ node (qn "w" "p")
           [ node (qn "w" "pPr")
                  [ node (qn "w" "tabs")
                         [ Elem (qn "w" "tab") [(qn "w" "pos", pos)] None [] ] ];
             text_run "Hello" ] ].

(** The VML pictures of a part, each under the 1-based position of its
    [w:pict] element. *)
Definition vml_images (root : elem) (part_name : string) : list image :=
  flat_map (fun ip => match ImageParser._parse_vml_element (snd ip) part_name (fst ip) with
                      | Val (Some image_info) => [image_info]
                      | _ => []
                      end)
           (ParagraphParser.enumerate 1 (findall [Desc (qn "w" "pict")] root)).

(** A part with one DrawingML picture (relationship [rId5]) and one VML
    picture (relationship [rId7]) whose shape has the style [style]. *)
Definition pictures_part (style : string) : elem :=
  document
    [ node (qn "w" "p")
           [ node (qn "w" "r")
                  [ node (qn "w" "drawing")
                         [ node (qn "wp" "inline")
                                [ Elem (qn "wp" "extent") [("cx", "360000"); ("cy", "720000")]
                                       None [];
                                  node (qn "a" "graphic")
                                       [ node (qn "a" "graphicData")
                                              [ Elem (qn "a" "blip")
                                                     [(qn "r" "embed", "rId5")] None [] ] ] ] ] ];
             node (qn "w" "r")
                  [ node (qn "w" "pict")
                         [ Elem (qn "v" "shape") [("style", style)] None
                                [ Elem (qn "v" "imagedata") [(qn "r" "id", "rId7")]
                                       None [] ] ] ] ] ].

(** The number of cells found under each row of a table: every [w:tc]
    below the row counts, those of nested tables included. *)
Definition cells_per_row (tbl : elem) : list nat :=
  map (fun row => List.length (findall [Desc (qn "w" "tc")] row))
      (findall [Desc (qn "w" "tr")] tbl).

(** What [parse_tables] reports for the table [tbl] met at position [idx]. *)
Definition reports (part_name : string) (idx : nat) (tbl : elem)
    (t : TableParser.table_info) : Prop :=
  TableParser.t_source t = part_name
  /\ TableParser.t_index t = idx
  /\ TableParser.t_rows t = List.length (findall [Desc (qn "w" "tr")] tbl)
  /\ (0 < TableParser.t_rows t)%nat
  /\ TableParser.t_cols t = hd 0%nat (cells_per_row tbl)
  /\ TableParser.t_cells t = (TableParser.t_rows t * TableParser.t_cols t)%nat
  /\ map (@List.length _) (TableParser.t_data t) = cells_per_row tbl
  /\ TableParser.total_cells (TableParser.t_stats t) = list_sum (cells_per_row tbl)
  /\ (TableParser.empty_cells (TableParser.t_stats t)
      + TableParser.text_cells (TableParser.t_stats t))%nat
     = TableParser.total_cells (TableParser.t_stats t).

(** A cell with the text [s], and a part with three tables: one without
    rows, then a table of one row whose cell holds a table of two rows. *)
Definition text_cell (s : string) : elem :=
  node (qn "w" "tc") [node (qn "w" "p") [text_run s]].

Definition nested_tables_part : elem :=
  document
    [ node (qn "w" "tbl") [];
      node (qn "w" "tbl")
           [ node (qn "w" "tr")
                  [ node (qn "w" "tc")
                         [ node (qn "w" "tbl")
                                [ node (qn "w" "tr") [text_cell "a"];
                                  node (qn "w" "tr") [text_cell ""] ] ] ] ] ].

(** The colors and the fonts that the summary uses, one item per use, in
    the order in which the analyzer meets them: the colors of the runs, then
    the fill colors of the WordArt styles; the font slots of the runs. *)
Definition used_colors {I T : Type} (d : DocumentAnalyzer.data paragraph wordart I T)
  : list string :=
  flat_map (fun para => flat_map run_colors (p_runs para)) (DocumentAnalyzer.paragraphs_of d)
  ++ flat_map (fun wa => match wa_style wa with
                         | Some st => truthy_values [ws_fill_color st]
                         | None => []
                         end)
              (DocumentAnalyzer.wordarts_of d).

Definition used_fonts {I T : Type} (d : DocumentAnalyzer.data paragraph wordart I T)
  : list string :=
  flat_map (fun para => flat_map run_fonts (p_runs para)) (DocumentAnalyzer.paragraphs_of d).

(** A paragraph with two red runs and a blue one, and a WordArt element in
    the layout of [parse_wordart], filled in red. *)
Definition three_runs : paragraph :=
  Paragraph "word/document.xml" 1 "abc"
            [Run (Some "a") (colored "#FF0000"); Run (Some "b") (colored "#0000FF");
             Run (Some "c") (colored "#FF0000")]
            (PDict []).

Definition red_wordart : wordart :=
  WordArt "word/document.xml" (Some "Title") None PNone None "" (PDict []) None
          (Some (WordArtStyle None None (Some "#FF0000") None None None)).

(** The paragraph [para] of a summary comes from the paragraph node [ip]
    of the part [part]: it carries the name of the part, the position of
    the node and its stripped text. *)
Definition comes_from (parts : list (string * elem)) (para : paragraph) : Prop :=
  exists root ip,
    In (p_source para, root) parts
    /\ In ip (plain_nodes root)
    /\ p_index para = fst ip
    /\ p_text para = ParagraphParser.extract_paragraph_text (snd ip).

(** A paragraph of four runs: two in Arial, then two in Times. *)
Definition font_run (name : string) : run :=
  Run (Some "x")
      (Style None (Some (Fonts (Some name) None None None)) None false false None None
             None false false).

Definition four_fonts : paragraph :=
  Paragraph "word/document.xml" 1 "xxxx"
            [font_run "Times"; font_run "Arial"; font_run "Arial"; font_run "Times"]
            (PDict []).

(* ===================================================================== *)
(** * Properties *)
(* ===================================================================== *)

(** ** Unit conversion *)

Section Conversions.

Import Utils.

Lemma try_except_none {A B : Type} (body : exc A) (f : A -> B) :
  try_except (x <- body ;; Val (Some (f x))) (fun _ => Val None)
  = Val (match body with
         | Val x => Some (f x)
         | Raise _ => None
         end).
Proof. destruct body; reflexivity. Qed.

Lemma half_point_to_pt_spec (v : option string) :
  half_point_to_pt v
  = Val (match py_float v with
         | Val x => Some (py_round (x * HALF_POINT_TO_PT)%float 2)
         | Raise _ => None
         end).
Proof. unfold half_point_to_pt. apply try_except_none. Qed.

Lemma emu_to_cm_spec (v : option string) :
  emu_to_cm v
  = Val (match py_int v with
         | Val n =>
             match float_of_int n with
             | Val x => Some (py_round (x / EMU_PER_CM)%float 3)
             | Raise _ => None
             end
         | Raise _ => None
         end).
Proof.
  unfold emu_to_cm, int_truediv_float.
  destruct (py_int v) as [n | e]; simpl; [ | reflexivity ].
  destruct (float_of_int n) as [x | e]; reflexivity.
Qed.

(** C6.  [half_point_to_pt] and [emu_to_cm] return on every argument: the
    result is absent exactly when the argument is missing or is refused by
    [float()] (resp. [int()]), and otherwise it is the argument times 0.5
    rounded to two places (resp. divided by 360000 and rounded to three).
    In particular "24" gives 12.0 pt, "360000" gives 1.0 cm and "1260000"
    gives 3.5 cm, while a missing value, the empty string and strings such
    as "abc" or "12pt" give an absent value.  Every whole number of
    half-points below 200 gives exactly its half, and every multiple
    360 k of 360 EMU with k below 200 gives k / 1000 cm.  What counts as
    numeric is decided by [float()] and [int()]: surrounding blanks are
    accepted, "inf" and "nan" are floats (and come back as such), and a
    decimal string is no integer, so [emu_to_cm] gives an absent value
    for it. *)
Theorem conversions_never_raise :
  (forall v : option string,
      half_point_to_pt v
      = Val (match py_float v with
             | Val x => Some (py_round (x * HALF_POINT_TO_PT)%float 2)
             | Raise _ => None
             end))
  /\ (forall v : option string,
      emu_to_cm v
      = Val (match py_int v with
             | Val n =>
                 match float_of_int n with
                 | Val x => Some (py_round (x / EMU_PER_CM)%float 3)
                 | Raise _ => None
                 end
             | Raise _ => None
             end))
  /\ half_point_to_pt None = Val None
  /\ emu_to_cm None = Val None
  /\ map half_point_to_pt [Some ""; Some "abc"; Some "12pt"; Some "1,5"]
     = [Val None; Val None; Val None; Val None]
  /\ map emu_to_cm [Some ""; Some "abc"; Some "12cm"; Some "0x10"]
     = [Val None; Val None; Val None; Val None]
  /\ half_point_to_pt (Some "24") = Val (Some 12%float)
  /\ half_point_to_pt (Some "48") = Val (Some 24%float)
  /\ emu_to_cm (Some "360000") = Val (Some 1%float)
  /\ emu_to_cm (Some "1260000") = Val (Some 3.5%float)
  /\ map (fun n => half_point_to_pt (Some (str_nat n))) (seq 0 200)
     = map (fun n => Val (Some (PrimFloat.of_uint63 (Uint63.of_Z (Z.of_nat n))
                                * 0.5)%float))
           (seq 0 200)
  /\ map (fun k => emu_to_cm (Some (str_nat (360 * k)))) (seq 0 200)
     = map (fun k => Val (Some (PrimFloat.of_uint63 (Uint63.of_Z (Z.of_nat k))
                                / 1000)%float))
           (seq 0 200)
  /\ map half_point_to_pt [Some " 24 "; Some "2.5e1"; Some "inf"; Some "nan"]
     = [Val (Some 12%float); Val (Some 12.5%float); Val (Some infinity);
        Val (Some nan)]
  /\ map emu_to_cm [Some " 360000 "; Some "1.5"; Some "3.6e5"; Some "inf"]
     = [Val (Some 1%float); Val None; Val None; Val None].
Proof.
  split; [ exact half_point_to_pt_spec | ].
  split; [ exact emu_to_cm_spec | ].
  repeat (apply conj); vm_compute; reflexivity.
Qed.

End Conversions.

(** ** Table cells *)

Section CellWidth.

Import TableParser.

Lemma dxa_cell_width (v : string) :
  _parse_cell_properties (dxa_cell v)
  = Val (if truthy v
         then CellProps (Some (match py_float (Some v) with
                               | Val x => Some (py_round (x * Utils.HALF_POINT_TO_PT)%float 2)
                               | Raise _ => None
                               end)) None None None None
         else no_props).
Proof.
  unfold _parse_cell_properties.
  change (find [Desc (w "tcPr")] (dxa_cell v))
    with (Some (Elem (w "tcPr") [] None
                     [Elem (w "tcW") [(w "w", v); (w "type", "dxa")] None []])).
  cbv beta iota.
  change (find [Desc (w "tcW")] _)
    with (Some (Elem (w "tcW") [(w "w", v); (w "type", "dxa")] None [])).
  cbv beta iota.
  change (get (attrib (Elem (w "tcW") [(w "w", v); (w "type", "dxa")] None [])) (w "w"))
    with (Some v).
  change (get (attrib (Elem (w "tcW") [(w "w", v); (w "type", "dxa")] None [])) (w "type"))
    with (Some "dxa").
  destruct v as [ | c v']; [ reflexivity | ].
  cbn [otruthy truthy Merge.ostr_eq andb].
  change (String.eqb "dxa" "dxa") with true. cbv iota.
  rewrite half_point_to_pt_spec. reflexivity.
Qed.

(** C9 (the code at the failing input).  A cell of width 200 twips, that
    is 10 pt, is reported with a width of 100 pt: the width attribute goes
    through the half-point conversion. *)
Theorem cell_width_dxa_200 :
  _parse_cell_properties (dxa_cell "200")
  = Val (CellProps (Some (Some 100%float)) None None None None).
Proof. vm_compute. reflexivity. Qed.

End CellWidth.

(** ** Document complexity *)

Section ComplexityProperties.

Import DocumentAnalyzer.

Variables P W I T : Type.


End ComplexityProperties.

(** ** The two run merges *)

Section MergeProperties.

Import Merge.

Lemma append_nil_r (s : string) : (s ++ "")%string = s.
Proof. induction s as [ | c s IH]; simpl; [ reflexivity | now rewrite IH ]. Qed.

Lemma append_assoc (a b c : string) : ((a ++ b) ++ c)%string = (a ++ (b ++ c))%string.
Proof. induction a as [ | x a IH]; simpl; [ reflexivity | now rewrite IH ]. Qed.

Lemma truthy_append_l (a b : string) : truthy a = true -> truthy (a ++ b) = true.
Proof. destruct a; simpl; [ discriminate | reflexivity ]. Qed.

Lemma truthy_false (s : string) : truthy s = false -> s = "".
Proof. destruct s; simpl; [ reflexivity | discriminate ]. Qed.

Lemma concat_texts_app (l1 l2 : list run) :
  concat_texts (l1 ++ l2) = (concat_texts l1 ++ concat_texts l2)%string.
Proof.
  induction l1 as [ | r l1 IH]; simpl; [ reflexivity | ].
  now rewrite IH, append_assoc.
Qed.

Lemma text_of_no_text (r : run) : has_text r = false -> text_of r = "".
Proof.
  unfold has_text, text_of. destruct (run_text r) as [s | ]; simpl; [ | reflexivity ].
  apply truthy_false.
Qed.

Lemma has_text_some (r : run) :
  has_text r = true -> exists t, run_text r = Some t /\ truthy t = true.
Proof.
  unfold has_text. destruct (run_text r) as [s | ]; simpl; [ | discriminate ].
  intros H. now exists s.
Qed.

Lemma run_eta (r : run) : Run (run_text r) (run_style r) = r.
Proof. now destruct r. Qed.

(** *** What a regrouping preserves *)

Lemma block_run_texts (b : list run) : concat_texts (block_run b) = concat_texts b.
Proof.
  destruct b as [ | r b]; [ reflexivity | ].
  unfold block_run. destruct (truthy _) eqn:E.
  - cbn [concat_texts text_of run_text]. apply append_nil_r.
  - symmetry. now apply truthy_false.
Qed.

Lemma block_run_has_text (b : list run) : forallb has_text (block_run b) = true.
Proof.
  destruct b as [ | r b]; [ reflexivity | ].
  unfold block_run. destruct (truthy _) eqn:E; [ | reflexivity ].
  cbn [forallb]. unfold has_text. cbn [run_text otruthy]. now rewrite E.
Qed.

Lemma regroups_texts (runs out : list run) :
  regroups runs out -> concat_texts out = concat_texts runs.
Proof.
  intros (blocks & <- & ->).
  induction blocks as [ | b blocks IH]; [ reflexivity | ].
  cbn [flat_map List.concat]. now rewrite !concat_texts_app, block_run_texts, IH.
Qed.

Lemma regroups_has_text (runs out : list run) :
  regroups runs out -> forallb has_text out = true.
Proof.
  intros (blocks & _ & ->).
  induction blocks as [ | b blocks IH]; [ reflexivity | ].
  cbn [flat_map]. now rewrite forallb_app, block_run_has_text, IH.
Qed.

Lemma block_run_snoc_silent (b : list run) (r : run) :
  b <> [] -> has_text r = false -> block_run (b ++ [r]) = block_run b.
Proof.
  intros Hb Hr. destruct b as [ | x b]; [ contradiction | ].
  unfold block_run. cbn [app].
  change (x :: b ++ [r]) with ((x :: b) ++ [r]).
  rewrite concat_texts_app. cbn [concat_texts].
  now rewrite (text_of_no_text r Hr), !append_nil_r.
Qed.

(** *** Loops *)

(** A loop whose body keeps an invariant, indexed by the items already
    consumed, for every item with the property [P]: over such items it
    returns in a state where the invariant holds for all of them. *)
Lemma for_each_invariant {S A : Type} (body : S -> A -> exc S)
    (P : A -> Prop) (Inv : list A -> S -> Prop) :
  (forall done s x, P x -> Inv done s ->
     exists s', body s x = Val s' /\ Inv (done ++ [x]) s') ->
  forall l done s, Forall P l -> Inv done s ->
    exists s', for_each body l s = Val s' /\ Inv (done ++ l) s'.
Proof.
  intros Hstep l. induction l as [ | x l IH]; intros done s Hl H.
  - exists s. now rewrite app_nil_r.
  - inversion Hl as [ | ? ? Hx Hl' ]; subst.
    destruct (Hstep done s x Hx H) as (s1 & E1 & H1).
    destruct (IH (done ++ [x]) s1 Hl' H1) as (s2 & E2 & H2).
    exists s2. cbn [for_each]. rewrite E1. cbn [bind].
    rewrite <- app_assoc in H2. now split.
Qed.

Lemma Forall_trivial {A : Type} (l : list A) : Forall (fun _ => True) l.
Proof. induction l; constructor; trivial. Qed.

Lemma forallb_Forall {A : Type} (f : A -> bool) (l : list A) :
  forallb f l = true -> Forall (fun x => f x = true) l.
Proof.
  intros H. apply Forall_forall. now apply forallb_forall.
Qed.

Lemma unsnoc_snoc {A : Type} (l : list A) (x : A) : unsnoc (l ++ [x]) = Some (l, x).
Proof.
  induction l as [ | y l IH]; [ reflexivity | ].
  cbn [app unsnoc]. now rewrite IH.
Qed.

Lemma unsnoc_none {A : Type} (l : list A) : unsnoc l = None -> l = [].
Proof.
  destruct l as [ | x l]; [ reflexivity | ].
  cbn [unsnoc]. destruct (unsnoc l) as [[i y] | ]; discriminate.
Qed.

Lemma unsnoc_some {A : Type} (l i : list A) (x : A) :
  unsnoc l = Some (i, x) -> l = i ++ [x].
Proof.
  revert i. induction l as [ | y l IH]; intros i H; [ discriminate | ].
  cbn [unsnoc] in H. destruct (unsnoc l) as [[i' z] | ] eqn:E.
  - injection H as <- <-. cbn [app]. f_equal. now apply IH.
  - injection H as <- <-. now rewrite (unsnoc_none l E).
Qed.

Lemma for_each_app {S A : Type} (body : S -> A -> exc S) (l1 l2 : list A) (s : S) :
  for_each body (l1 ++ l2) s = (s' <- for_each body l1 s ;; for_each body l2 s').
Proof.
  revert s. induction l1 as [ | x l1 IH]; intros s; [ reflexivity | ].
  cbn [app for_each]. destruct (body s x) as [s1 | e]; cbn [bind]; [ apply IH | reflexivity ].
Qed.

(** *** [merge_runs] regroups its input *)

Lemma block_run_single (b : list run) (x : run) :
  block_run b = [x] ->
  exists h tl, b = h :: tl /\ truthy (concat_texts b) = true
               /\ x = Run (Some (concat_texts b)) (run_style h).
Proof.
  destruct b as [ | h tl]; [ discriminate | ].
  unfold block_run. destruct (truthy _) eqn:E; [ | discriminate ].
  intros [= <-]. now exists h, tl.
Qed.

Lemma block_run_silent (b : list run) :
  forallb (fun r => negb (has_text r)) b = true -> block_run b = [].
Proof.
  intros H. destruct b as [ | h tl]; [ reflexivity | ].
  unfold block_run.
  assert (E : concat_texts (h :: tl) = "").
  { revert H. generalize (h :: tl). intros l. induction l as [ | r l IH]; [ reflexivity | ].
    cbn [forallb concat_texts]. intros [Hr Hl]%andb_prop.
    rewrite text_of_no_text, IH; [ reflexivity | assumption | ].
    now apply negb_true_iff. }
  now rewrite E.
Qed.

Lemma block_run_start (r : run) : has_text r = true -> block_run [r] = [r].
Proof.
  intros (t & Ht & Htt)%has_text_some. unfold block_run.
  cbn [concat_texts]. unfold text_of. rewrite Ht, append_nil_r, Htt.
  now rewrite <- Ht, run_eta.
Qed.

Lemma block_run_extend (b : list run) (x r : run) (t : string) :
  block_run b = [x] -> run_text r = Some t ->
  block_run (b ++ [r]) = [Run (Some (text_of x ++ t)%string) (run_style x)].
Proof.
  intros (h & tl & -> & Htt & ->)%block_run_single Hr.
  unfold block_run. cbn [app].
  change (h :: tl ++ [r]) with ((h :: tl) ++ [r]).
  rewrite concat_texts_app.
  assert (E : concat_texts [r] = t).
  { cbn [concat_texts]. unfold text_of. rewrite Hr. apply append_nil_r. }
  rewrite E, (truthy_append_l _ t Htt). reflexivity.
Qed.

Lemma merge_runs_step_inv (done merged : list run) (r : run) :
  merge_runs_inv done merged ->
  exists merged', merge_runs_step merged r = Val merged'
                  /\ merge_runs_inv (done ++ [r]) merged'.
Proof.
  intros Inv. unfold merge_runs_step. fold (has_text r).
  destruct (has_text r) eqn:Hr; cbn [negb].
  - (* a run with text *)
    destruct (has_text_some r Hr) as (t & Ht & Htt).
    destruct Inv as [[-> Hsil] | (blocks & b & x & -> & Hb & ->)].
    + exists [r]. split; [ reflexivity | ]. right.
      exists [done], [r], r. cbn [List.concat flat_map].
      rewrite app_nil_r, (block_run_silent done Hsil).
      now rewrite block_run_start.
    + rewrite unsnoc_snoc.
      destruct (styles_equal (run_style r) (run_style x)).
      * destruct (block_run_single b x Hb) as (h & tl & Eb & Hbt & Ex).
        assert (Etx : run_text x = Some (concat_texts b)) by now rewrite Ex.
        rewrite Etx, Ht. cbn [text_add bind].
        eexists. split; [ reflexivity | ]. right.
        exists blocks, (b ++ [r]), (Run (Some (concat_texts b ++ t)%string) (run_style x)).
        rewrite app_assoc. split; [ reflexivity | ]. split; [ | reflexivity ].
        rewrite (block_run_extend b x r t Hb Ht). unfold text_of. now rewrite Etx.
      * eexists. split; [ reflexivity | ]. right.
        exists (blocks ++ [b]), [r], r.
        rewrite concat_app, flat_map_app. cbn [List.concat flat_map].
        rewrite !app_nil_r, Hb. now rewrite block_run_start.
  - (* a silent run *)
    exists merged. split; [ reflexivity | ].
    destruct Inv as [[-> Hsil] | (blocks & b & x & -> & Hb & ->)].
    + left. split; [ reflexivity | ].
      rewrite forallb_app, Hsil. cbn. now rewrite Hr.
    + right. exists blocks, (b ++ [r]), x.
      rewrite app_assoc. split; [ reflexivity | ]. split; [ | reflexivity ].
      rewrite block_run_snoc_silent; [ assumption | | assumption ].
      intros ->. discriminate.
Qed.

Lemma merge_runs_inv_regroups (runs merged : list run) :
  merge_runs_inv runs merged -> regroups runs merged.
Proof.
  intros [[-> Hsil] | (blocks & b & x & -> & Hb & ->)].
  - exists [runs]. cbn [List.concat flat_map].
    now rewrite !app_nil_r, block_run_silent.
  - exists (blocks ++ [b]).
    rewrite concat_app, flat_map_app. cbn [List.concat flat_map].
    now rewrite !app_nil_r, Hb.
Qed.

Lemma merge_runs_regroups (runs : list run) :
  exists out, merge_runs runs = Val out /\ regroups runs out.
Proof.
  destruct (for_each_invariant merge_runs_step (fun _ => True) merge_runs_inv
              (fun done merged r _ => merge_runs_step_inv done merged r) runs [] [])
    as (out & E & Inv).
  - apply Forall_trivial.
  - left. now split.
  - exists out. split; [ exact E | ]. now apply merge_runs_inv_regroups.
Qed.

(** A run without text leaves the result of [merge_runs] unchanged. *)
Lemma merge_runs_skips_silent (l1 l2 : list run) (e : run) :
  has_text e = false -> merge_runs (l1 ++ e :: l2) = merge_runs (l1 ++ l2).
Proof.
  intros He. unfold merge_runs. rewrite !for_each_app.
  destruct (for_each merge_runs_step l1 []) as [m | x]; cbn [bind]; [ | reflexivity ].
  cbn [for_each]. unfold merge_runs_step at 1. fold (has_text e). now rewrite He.
Qed.

(** *** [merge_runs] is idempotent *)

Lemma separated_app (eq : style -> style -> bool) (l1 l2 : list run) (prev : option run) :
  separated eq prev (l1 ++ l2)
  = separated eq prev l1 && separated eq (tail_of prev l1) l2.
Proof.
  revert prev. induction l1 as [ | r l1 IH]; intros prev; [ reflexivity | ].
  cbn [app separated tail_of fold_left]. rewrite IH. unfold tail_of.
  now rewrite <- !andb_assoc.
Qed.

Lemma tail_of_snoc (prev : option run) (l : list run) (x : run) :
  tail_of prev (l ++ [x]) = Some x.
Proof. unfold tail_of. now rewrite fold_left_app. Qed.

Lemma separated_snoc (eq : style -> style -> bool) (m : list run) (x r : run) :
  separated eq None (m ++ [x]) = true -> has_text r = true ->
  eq (run_style r) (run_style x) = false ->
  separated eq None ((m ++ [x]) ++ [r]) = true.
Proof.
  intros Hm Hr Hne. rewrite separated_app, Hm, tail_of_snoc.
  cbn [separated andb]. now rewrite Hr, Hne.
Qed.

Lemma separated_last (eq : style -> style -> bool) (m : list run) (x : run) :
  separated eq None (m ++ [x]) = true -> has_text x = true.
Proof.
  rewrite separated_app. cbn [separated].
  intros [_ [[H _]%andb_prop _]%andb_prop]%andb_prop. exact H.
Qed.

(** Lengthening the text of the last run keeps a sequence separated. *)
Lemma separated_grow (eq : style -> style -> bool) (m : list run) (x : run) (t : string) :
  separated eq None (m ++ [x]) = true -> truthy t = true ->
  separated eq None (m ++ [Run (Some t) (run_style x)]) = true.
Proof.
  rewrite !separated_app. cbn [separated].
  intros [Hm [[_ Hc]%andb_prop _]%andb_prop]%andb_prop Ht.
  rewrite Hm. unfold has_text. cbn [run_text run_style otruthy andb].
  now rewrite Ht, Hc.
Qed.

Lemma merge_runs_step_separated (done merged : list run) (r : run) :
  separated styles_equal None merged = true ->
  exists merged', merge_runs_step merged r = Val merged'
                  /\ separated styles_equal None merged' = true.
Proof.
  intros Hsep. unfold merge_runs_step. fold (has_text r).
  destruct (has_text r) eqn:Hr; cbn [negb]; [ | now exists merged ].
  destruct (has_text_some r Hr) as (t & Ht & Htt).
  destruct (unsnoc merged) as [[init x] | ] eqn:E.
  - apply unsnoc_some in E. subst merged.
    destruct (styles_equal (run_style r) (run_style x)) eqn:Heq.
    + destruct (has_text_some x (separated_last _ _ _ Hsep)) as (tx & Hx & Hxt).
      rewrite Hx, Ht. cbn [text_add bind]. eexists. split; [ reflexivity | ].
      apply separated_grow; [ assumption | now apply truthy_append_l ].
    + eexists. split; [ reflexivity | ]. now apply separated_snoc.
  - apply unsnoc_none in E. subst merged. exists [r]. split; [ reflexivity | ].
    cbn [app separated]. now rewrite Hr.
Qed.

Lemma merge_runs_separated (runs out : list run) :
  merge_runs runs = Val out -> separated styles_equal None out = true.
Proof.
  intros E.
  destruct (for_each_invariant merge_runs_step (fun _ => True)
              (fun _ merged => separated styles_equal None merged = true)
              (fun done merged r _ => merge_runs_step_separated done merged r)
              runs [] [] (Forall_trivial runs) eq_refl)
    as (out' & E' & H).
  unfold merge_runs in E. rewrite E in E'. now injection E' as <-.
Qed.

(** On a separated sequence the loop of [merge_runs] only appends. *)
Lemma merge_runs_fixes_separated (l m : list run) :
  separated styles_equal None (m ++ l) = true ->
  for_each merge_runs_step l m = Val (m ++ l).
Proof.
  revert m. induction l as [ | r l IH]; intros m H.
  - now rewrite app_nil_r.
  - assert (H' : separated styles_equal None ((m ++ [r]) ++ l) = true)
      by now rewrite <- app_assoc.
    cbn [for_each].
    assert (Hstep : merge_runs_step m r = Val (m ++ [r])).
    { rewrite separated_app in H'. apply andb_prop in H' as [H' _].
      unfold merge_runs_step. fold (has_text r).
      rewrite (separated_last _ _ _ H'). cbn [negb].
      destruct (unsnoc m) as [[init x] | ] eqn:E; [ | reflexivity ].
      apply unsnoc_some in E. subst m.
      rewrite separated_app, tail_of_snoc in H'. cbn [separated] in H'.
      apply andb_prop in H' as [_ [[_ Hne%negb_true_iff]%andb_prop _]%andb_prop].
      now rewrite Hne. }
    rewrite Hstep. cbn [bind]. rewrite (IH (m ++ [r]) H').
    now rewrite <- app_assoc.
Qed.

Lemma merge_runs_idempotent (runs : list run) :
  exists out, merge_runs runs = Val out /\ merge_runs out = Val out.
Proof.
  destruct (merge_runs_regroups runs) as (out & E & _).
  exists out. split; [ exact E | ].
  apply (merge_runs_fixes_separated out []). cbn [app].
  now apply (merge_runs_separated runs).
Qed.

(** *** [_merge_runs_by_style] regroups a sequence of runs with string texts *)

Lemma flush_block_run (merged : list run) (h : run) (tl : list run) :
  flush merged (Run (Some (concat_texts (h :: tl))) (run_style h))
  = merged ++ block_run (h :: tl).
Proof.
  unfold flush, block_run. cbn [run_text otruthy].
  destruct (truthy _); [ reflexivity | now rewrite app_nil_r ].
Qed.

Lemma concat_texts_single (r : run) (t : string) :
  run_text r = Some t -> concat_texts [r] = t.
Proof.
  intros H. cbn [concat_texts]. unfold text_of. rewrite H. apply append_nil_r.
Qed.

Lemma by_style_step_inv (r0 : run) (done : list run) (st : group_state) (r : run) :
  is_str r = true -> by_style_inv r0 done st ->
  exists st', merge_by_style_step st r = Val st' /\ by_style_inv r0 (done ++ [r]) st'.
Proof.
  destruct st as [[merged cur] key].
  intros Hr (blocks & h & tl & Hdone & -> & -> & ->).
  unfold is_str in Hr. destruct (run_text r) as [t | ] eqn:Ht; [ clear Hr | discriminate ].
  unfold merge_by_style_step. rewrite Ht.
  destruct (_ && _).
  - cbn [run_text run_style text_add bind]. eexists. split; [ reflexivity | ].
    exists blocks, h, (tl ++ [r]).
    split; [ | split; [ reflexivity | split; [ | reflexivity ] ] ].
    + change (r0 :: done ++ [r]) with ((r0 :: done) ++ [r]).
      now rewrite Hdone, <- app_assoc.
    + change (h :: tl ++ [r]) with ((h :: tl) ++ [r]).
      now rewrite concat_texts_app, (concat_texts_single r t Ht).
  - eexists. split; [ reflexivity | ].
    exists (blocks ++ [h :: tl]), r, [].
    split; [ | split; [ | split; [ | reflexivity ] ] ].
    + change (r0 :: done ++ [r]) with ((r0 :: done) ++ [r]).
      rewrite Hdone, concat_app. cbn [List.concat].
      now rewrite app_nil_r, <- app_assoc.
    + rewrite flat_map_app. cbn [flat_map]. rewrite app_nil_r.
      apply flush_block_run.
    + now rewrite (concat_texts_single r t Ht).
Qed.

Lemma merge_by_style_regroups (runs : list run) :
  forallb is_str runs = true ->
  exists out, _merge_runs_by_style runs = Val out /\ regroups runs out.
Proof.
  destruct runs as [ | r0 rest]; intros Hstr.
  - exists []. split; [ reflexivity | ]. now exists [].
  - cbn [forallb] in Hstr. apply andb_prop in Hstr as [H0 Hrest].
    unfold is_str in H0. destruct (run_text r0) as [t0 | ] eqn:Ht0; [ | discriminate ].
    destruct (for_each_invariant merge_by_style_step (fun r => is_str r = true)
                (by_style_inv r0) (by_style_step_inv r0) rest []
                ([], Run (run_text r0) (run_style r0), create_style_key (run_style r0))
                (forallb_Forall _ _ Hrest))
      as ([[merged cur] key] & E & (blocks & h & tl & Hdone & -> & -> & ->)).
    + exists [], r0, []. cbn [List.concat app flat_map].
      now rewrite Ht0, (concat_texts_single r0 t0 Ht0).
    + unfold _merge_runs_by_style. rewrite E. cbn [bind]. eexists. split; [ reflexivity | ].
      exists (blocks ++ [h :: tl]).
      rewrite concat_app, flat_map_app. cbn [List.concat flat_map app] in *.
      rewrite !app_nil_r. split; [ now symmetry | apply flush_block_run ].
Qed.

(** *** [_merge_runs_by_style] is idempotent on runs that all have text *)

Lemma by_style_step_sep (done : list run) (st : group_state) (r : run) :
  has_text r = true -> by_style_sep st ->
  exists st', merge_by_style_step st r = Val st' /\ by_style_sep st'.
Proof.
  destruct st as [[merged cur] key]. intros Hr [-> Hsep].
  destruct (has_text_some r Hr) as (t & Ht & Htt).
  destruct (has_text_some cur (separated_last _ _ _ Hsep)) as (c & Hc & Hct).
  unfold merge_by_style_step. fold (has_text r). rewrite Hr, andb_true_r.
  destruct (String.eqb _ _) eqn:Hk.
  - rewrite Hc, Ht. cbn [text_add bind]. eexists. split; [ reflexivity | ].
    split; [ reflexivity | ].
    apply separated_grow; [ assumption | now apply truthy_append_l ].
  - eexists. split; [ reflexivity | ]. split; [ reflexivity | ].
    unfold flush. fold (has_text cur). rewrite (separated_last _ _ _ Hsep).
    rewrite run_eta. now apply separated_snoc.
Qed.

Lemma merge_by_style_separated (runs out : list run) :
  forallb has_text runs = true ->
  _merge_runs_by_style runs = Val out -> separated same_key None out = true.
Proof.
  destruct runs as [ | r0 rest]; intros Hall E.
  - now injection E as <-.
  - cbn [forallb] in Hall. apply andb_prop in Hall as [H0 Hrest].
    destruct (for_each_invariant merge_by_style_step (fun r => has_text r = true)
                (fun _ => by_style_sep) by_style_step_sep rest []
                ([], Run (run_text r0) (run_style r0), create_style_key (run_style r0))
                (forallb_Forall _ _ Hrest))
      as ([[merged cur] key] & E' & (-> & Hsep)).
    + split; [ reflexivity | ]. rewrite run_eta. cbn [app separated]. now rewrite H0.
    + unfold _merge_runs_by_style in E. rewrite E' in E. cbn [bind] in E.
      injection E as <-. unfold flush. fold (has_text cur).
      now rewrite (separated_last _ _ _ Hsep).
Qed.

(** On a separated sequence the loop of [_merge_runs_by_style] closes one
    group per run. *)
Lemma by_style_fixes_separated (rest m : list run) (c : run) :
  separated same_key None (m ++ c :: rest) = true ->
  exists m' c',
    for_each merge_by_style_step rest (m, c, create_style_key (run_style c))
    = Val (m', c', create_style_key (run_style c'))
    /\ flush m' c' = m ++ c :: rest.
Proof.
  revert m c. induction rest as [ | r rest IH]; intros m c H.
  - exists m, c. split; [ reflexivity | ].
    unfold flush. fold (has_text c). now rewrite (separated_last _ _ _ H).
  - assert (H' : separated same_key None ((m ++ [c]) ++ r :: rest) = true)
      by now rewrite <- app_assoc.
    destruct (IH (m ++ [c]) r H') as (m' & c' & E & F).
    exists m', c'. split; [ | now rewrite F, <- app_assoc ].
    cbn [for_each]. rewrite <- E.
    assert (Hstep : merge_by_style_step (m, c, create_style_key (run_style c)) r
                    = Val (m ++ [c], r, create_style_key (run_style r))).
    { rewrite separated_app in H'. apply andb_prop in H' as [Hmc Hr].
      rewrite tail_of_snoc in Hr. cbn [separated] in Hr.
      apply andb_prop in Hr as [[_ Hne%negb_true_iff]%andb_prop _].
      unfold same_key in Hne. unfold merge_by_style_step. rewrite Hne. cbn [andb].
      unfold flush. fold (has_text c). now rewrite (separated_last _ _ _ Hmc), run_eta. }
    now rewrite Hstep.
Qed.

Lemma merge_by_style_fixes_separated (l : list run) :
  separated same_key None l = true -> _merge_runs_by_style l = Val l.
Proof.
  destruct l as [ | r0 rest]; intros H; [ reflexivity | ].
  destruct (by_style_fixes_separated rest [] r0 H) as (m' & c' & E & F).
  unfold _merge_runs_by_style. rewrite run_eta, E. cbn [bind]. now rewrite F.
Qed.

Lemma has_text_is_str (l : list run) : forallb has_text l = true -> forallb is_str l = true.
Proof.
  induction l as [ | r l IH]; [ reflexivity | ].
  cbn [forallb]. intros [Hr Hl]%andb_prop. rewrite (IH Hl), andb_true_r.
  destruct (has_text_some r Hr) as (t & Ht & _). unfold is_str. now rewrite Ht.
Qed.

Lemma merge_by_style_idempotent (runs : list run) :
  forallb has_text runs = true ->
  exists out, _merge_runs_by_style runs = Val out /\ _merge_runs_by_style out = Val out.
Proof.
  intros Hall.
  destruct (merge_by_style_regroups runs (has_text_is_str runs Hall)) as (out & E & _).
  exists out. split; [ exact E | ].
  apply merge_by_style_fixes_separated. now apply (merge_by_style_separated runs).
Qed.

Lemma merge_runs_has_text (runs out : list run) :
  merge_runs runs = Val out -> forallb has_text out = true.
Proof.
  intros E. destruct (merge_runs_regroups runs) as (out' & E' & R).
  rewrite E in E'. injection E' as <-. now apply (regroups_has_text runs).
Qed.

(** An empty run between two runs of one style closes the group of
    [_merge_runs_by_style]: the two runs are not merged. *)
Lemma by_style_closes_on_empty (s : style) (ta tb : string) :
  truthy ta = true -> truthy tb = true ->
  _merge_runs_by_style [Run (Some ta) s; Run (Some "") s; Run (Some tb) s]
  = Val [Run (Some ta) s; Run (Some tb) s].
Proof.
  intros Ha Hb. unfold _merge_runs_by_style. cbn [for_each run_text run_style].
  unfold merge_by_style_step at 1. cbn [run_text run_style otruthy truthy].
  rewrite andb_false_r. cbn [bind].
  unfold merge_by_style_step. cbn [run_text run_style otruthy].
  rewrite String.eqb_refl, Hb. cbn [andb text_add bind String.append].
  unfold flush. cbn [run_text otruthy]. now rewrite Ha, Hb.
Qed.

(** C3 (amended).  [merge_runs] and, on runs whose texts are strings,
    [_merge_runs_by_style] return a regrouping of their input: every output
    run stands for a block of consecutive input runs, in input order, with
    the texts of the block concatenated under the style of its first run;
    so the output texts concatenate to the non-empty input texts and every
    output run has text.  A run without text is dropped; [merge_runs]
    merges across it, while in [_merge_runs_by_style] it closes the current
    group, so the two style-identical runs around it stay apart. *)
Theorem run_merge_regroups :
  (forall runs : list run,
      exists out, merge_runs runs = Val out
                  /\ regroups runs out
                  /\ concat_texts out = concat_texts runs
                  /\ forallb has_text out = true)
  /\ (forall (l1 l2 : list run) (e : run),
        has_text e = false -> merge_runs (l1 ++ e :: l2) = merge_runs (l1 ++ l2))
  /\ (forall runs : list run,
        forallb is_str runs = true ->
        exists out, _merge_runs_by_style runs = Val out
                    /\ regroups runs out
                    /\ concat_texts out = concat_texts runs
                    /\ forallb has_text out = true)
  /\ (forall (s : style) (ta tb : string),
        truthy ta = true -> truthy tb = true ->
        _merge_runs_by_style [Run (Some ta) s; Run (Some "") s; Run (Some tb) s]
        = Val [Run (Some ta) s; Run (Some tb) s]).
Proof.
  split; [ | split; [ | split ] ].
  - intros runs. destruct (merge_runs_regroups runs) as (out & E & R).
    exists out. repeat split; try assumption.
    + now apply regroups_texts.
    + now apply (regroups_has_text runs).
  - exact merge_runs_skips_silent.
  - intros runs H. destruct (merge_by_style_regroups runs H) as (out & E & R).
    exists out. repeat split; try assumption.
    + now apply regroups_texts.
    + now apply (regroups_has_text runs).
  - exact by_style_closes_on_empty.
Qed.

(** The guarantees of C3 on the three runs [around_empty]. *)
Lemma run_merge_regroups_witness :
  forallb is_str around_empty = true
  /\ (exists out, _merge_runs_by_style around_empty = Val out
                  /\ regroups around_empty out
                  /\ concat_texts out = concat_texts around_empty
                  /\ forallb has_text out = true)
  /\ merge_runs ([Run (Some "A") bold_style] ++ Run (Some "") bold_style
                                              :: [Run (Some "B") bold_style])
     = merge_runs ([Run (Some "A") bold_style] ++ [Run (Some "B") bold_style]).
Proof.
  split; [ reflexivity | ]. split.
  - apply (proj1 (proj2 (proj2 run_merge_regroups)) around_empty). reflexivity.
  - apply (proj1 (proj2 run_merge_regroups)). reflexivity.
Defined.

(** C3 as stated fails for [_merge_runs_by_style]: the empty run in the
    middle keeps "A" and "B" from being merged, although all three runs
    have the same style. *)
Lemma by_style_empty_run_splits :
  _merge_runs_by_style around_empty
  = Val [Run (Some "A") bold_style; Run (Some "B") bold_style].
Proof. reflexivity. Qed.

(** C4 (amended).  [merge_runs] is idempotent on every run sequence;
    [_merge_runs_by_style] is idempotent on the sequences in which every
    run has text, which are the only ones it is given: it runs on the
    output of [merge_runs]. *)
Theorem run_merge_idempotent :
  (forall runs : list run,
      exists out, merge_runs runs = Val out /\ merge_runs out = Val out)
  /\ (forall runs : list run,
        forallb has_text runs = true ->
        exists out, _merge_runs_by_style runs = Val out
                    /\ _merge_runs_by_style out = Val out)
  /\ (forall runs : list run,
        exists out1 out2, merge_runs runs = Val out1
                          /\ _merge_runs_by_style out1 = Val out2
                          /\ _merge_runs_by_style out2 = Val out2).
Proof.
  split; [ exact merge_runs_idempotent | ].
  split; [ exact merge_by_style_idempotent | ].
  intros runs. destruct (merge_runs_regroups runs) as (out1 & E1 & _).
  destruct (merge_by_style_idempotent out1 (merge_runs_has_text runs out1 E1))
    as (out2 & E2 & E3).
  now exists out1, out2.
Qed.

(** Idempotence of [_merge_runs_by_style] on two runs with text. *)
Lemma run_merge_idempotent_witness :
  forallb has_text [Run (Some "A") bold_style; Run (Some "B") no_style] = true
  /\ exists out,
       _merge_runs_by_style [Run (Some "A") bold_style; Run (Some "B") no_style] = Val out
       /\ _merge_runs_by_style out = Val out.
Proof.
  split; [ reflexivity | ].
  apply (proj1 (proj2 run_merge_idempotent)). reflexivity.
Defined.

(** C4 as stated fails for [_merge_runs_by_style]: merging [around_empty]
    gives two runs, and merging those two again gives one. *)
Lemma by_style_second_pass_merges :
  _merge_runs_by_style around_empty
  = Val [Run (Some "A") bold_style; Run (Some "B") bold_style]
  /\ _merge_runs_by_style [Run (Some "A") bold_style; Run (Some "B") bold_style]
     = Val [Run (Some "AB") bold_style].
Proof. split; reflexivity. Qed.

End MergeProperties.

(** ** Paragraphs and WordArt carriers *)

Section ParagraphProperties.

Import ParagraphParser.

Lemma try_except_returns {A : Type} (body : exc (option A)) :
  exists r, try_except body (fun _ => Val None) = Val r.
Proof. destruct body as [r | e]; [ now exists r | now exists None ]. Qed.

Lemma half_point_to_pt_returns (v : option string) :
  exists r, Utils.half_point_to_pt v = Val r.
Proof. rewrite half_point_to_pt_spec. eexists. reflexivity. Qed.

Lemma parse_run_props_returns (r : elem) : exists st, parse_run_props r = Val st.
Proof.
  unfold parse_run_props. destruct (find [Child (w "rPr")] r) as [rPr | ];
    [ | eexists; reflexivity ].
  destruct (find [Child (w "sz")] rPr) as [sz | ].
  - destruct (half_point_to_pt_returns (get (attrib sz) (w "val"))) as (v & ->).
    cbn [bind].
    destruct (present (find [Child (w "spacing")] rPr) (w "val")) as [sp | ].
    + destruct (try_except_returns (cm <- twips_to_cm (Some sp) ;; Val (Some cm)))
        as (c & ->).
      eexists. reflexivity.
    + eexists. reflexivity.
  - cbn [bind].
    destruct (present (find [Child (w "spacing")] rPr) (w "val")) as [sp | ].
    + destruct (try_except_returns (cm <- twips_to_cm (Some sp) ;; Val (Some cm)))
        as (c & ->).
      eexists. reflexivity.
    + eexists. reflexivity.
Qed.

Lemma run_of_returns (r : elem) :
  exists st, run_of r = Val (Run (raw_text r) st).
Proof.
  unfold run_of. destruct (parse_run_props_returns r) as (st & ->).
  now exists st.
Qed.

Lemma map_exc_returns {A B : Type} (f : A -> exc B) (R : A -> B -> Prop) (l : list A) :
  (forall x, exists y, f x = Val y /\ R x y) ->
  exists ys, map_exc f l = Val ys /\ Forall2 R l ys.
Proof.
  intros H. induction l as [ | x l (ys & E & F)].
  - exists []. now split.
  - destruct (H x) as (y & Ey & Ry). exists (y :: ys).
    cbn [map_exc]. rewrite Ey, E. split; [ reflexivity | now constructor ].
Qed.

Lemma concat_empty_sep (l : list string) :
  String.concat "" l = fold_right String.append "" l.
Proof.
  induction l as [ | x l IH]; [ reflexivity | ].
  cbn [fold_right]. rewrite <- IH. destruct l as [ | y l].
  - cbn. now rewrite append_nil_r.
  - reflexivity.
Qed.

Lemma texts_of_app (l1 l2 : list elem) : texts_of (l1 ++ l2) = texts_of l1 ++ texts_of l2.
Proof. unfold texts_of. apply flat_map_app. Qed.

Lemma fold_append_app (l1 l2 : list string) :
  fold_right String.append "" (l1 ++ l2)
  = (fold_right String.append "" l1 ++ fold_right String.append "" l2)%string.
Proof.
  induction l1 as [ | x l1 IH]; [ reflexivity | ].
  cbn [app fold_right]. now rewrite IH, append_assoc.
Qed.

(** The raw runs of a paragraph carry the texts of the first text nodes of
    its direct run children. *)
Lemma raw_runs_text (rs : list elem) (runs : list run) :
  Forall2 (fun r x => run_text x = raw_text r) rs runs ->
  concat_texts runs
  = fold_right String.append ""
      (texts_of (flat_map (fun r => match find [Child (w "t")] r with
                                    | Some t => [t]
                                    | None => []
                                    end) rs)).
Proof.
  induction 1 as [ | r x rs runs Hx _ IH]; [ reflexivity | ].
  cbn [concat_texts flat_map]. rewrite texts_of_app, fold_append_app, <- IH.
  f_equal. unfold text_of, raw_text in *. rewrite Hx.
  destruct (find [Child (w "t")] r) as [t | ]; [ | reflexivity ].
  cbn [texts_of flat_map]. destruct (text t) as [u | ]; [ | reflexivity ].
  destruct u; [ reflexivity | ]. cbn. now rewrite append_nil_r.
Qed.

Lemma parse_paragraph_carrier (part : string) (out : list paragraph) (idx : nat) (p : elem) :
  is_wordart_carrier p = true -> parse_paragraph part out (idx, p) = Val out.
Proof. intros H. unfold parse_paragraph. now rewrite H. Qed.

Lemma raw_runs_of (p : elem) :
  exists raws, map_exc run_of (findall [Child (w "r")] p) = Val raws
               /\ concat_texts raws = direct_run_text p.
Proof.
  destruct (map_exc_returns run_of (fun r x => run_text x = raw_text r)
              (findall [Child (w "r")] p)) as (raws & E & F).
  - intros r. destruct (run_of_returns r) as (st & ->). eexists. split; reflexivity.
  - exists raws. split; [ exact E | ].
    rewrite (raw_runs_text _ _ F). unfold direct_run_text, first_texts.
    now rewrite concat_empty_sep.
Qed.

Lemma parse_paragraph_plain (part : string) (out out' : list paragraph) (idx : nat) (p : elem) :
  is_wordart_carrier p = false ->
  parse_paragraph part out (idx, p) = Val out' ->
  exists para, out' = out ++ [para] /\ describes part (idx, p) para.
Proof.
  intros Hc. unfold parse_paragraph. rewrite Hc.
  destruct (raw_runs_of p) as (raws & -> & Hraw). cbn [bind].
  destruct (merge_runs_regroups raws) as (runs & -> & Rg). cbn [bind].
  destruct (parse_paragraph_props p) as [props | e]; cbn [bind]; [ | discriminate ].
  intros [= <-]. eexists. split; [ reflexivity | ].
  repeat split.
  - now apply (regroups_has_text raws).
  - cbn [p_runs snd]. now rewrite (regroups_texts raws runs Rg).
Qed.

Lemma parse_paragraph_returns (part : string) (out : list paragraph) (idx : nat) (p : elem) :
  is_wordart_carrier p = false ->
  returns (parse_paragraph_props p) = true ->
  exists out', parse_paragraph part out (idx, p) = Val out'.
Proof.
  intros Hc Hp. unfold parse_paragraph. rewrite Hc.
  destruct (raw_runs_of p) as (raws & -> & _). cbn [bind].
  destruct (merge_runs_regroups raws) as (runs & -> & _). cbn [bind].
  destruct (parse_paragraph_props p) as [props | e]; [ | discriminate ].
  eexists. reflexivity.
Qed.

Lemma parse_loop_spec (part : string) (l : list (nat * elem)) (out out' : list paragraph) :
  for_each (parse_paragraph part) l out = Val out' ->
  exists news, out' = out ++ news /\ Forall2 (describes part) (filter plain l) news.
Proof.
  revert out. induction l as [ | [idx p] l IH]; intros out.
  - intros [= <-]. exists []. rewrite app_nil_r. now split.
  - cbn [for_each filter]. unfold plain at 1. cbn [snd].
    destruct (is_wordart_carrier p) eqn:Hc; cbn [negb].
    + rewrite (parse_paragraph_carrier part out idx p Hc). cbn [bind]. apply IH.
    + destruct (parse_paragraph part out (idx, p)) as [out1 | e] eqn:E; cbn [bind];
        [ | discriminate ].
      destruct (parse_paragraph_plain part out out1 idx p Hc E) as (para & -> & D).
      intros (news & -> & F)%IH. exists (para :: news).
      rewrite <- app_assoc. split; [ reflexivity | now constructor ].
Qed.

Lemma parse_loop_returns (part : string) (l : list (nat * elem)) (out : list paragraph) :
  (forall ip, In ip (filter plain l) -> returns (parse_paragraph_props (snd ip)) = true) ->
  exists out', for_each (parse_paragraph part) l out = Val out'.
Proof.
  revert out. induction l as [ | [idx p] l IH]; intros out H.
  - now exists out.
  - cbn [for_each]. cbn [filter] in H. unfold plain at 1 in H. cbn [snd] in H.
    destruct (is_wordart_carrier p) eqn:Hc; cbn [negb] in H.
    + rewrite (parse_paragraph_carrier part out idx p Hc). cbn [bind]. now apply IH.
    + destruct (parse_paragraph_returns part out idx p Hc) as (out1 & ->).
      * apply (H (idx, p)). now left.
      * cbn [bind]. apply IH. intros ip Hip. apply H. now right.
Qed.

Lemma parse_paragraphs_spec (root : elem) (part : string) (out out' : list paragraph) :
  parse_paragraphs root part out = Val out' ->
  exists news, out' = out ++ news /\ Forall2 (describes part) (plain_nodes root) news.
Proof. apply parse_loop_spec. Qed.




(** *** The WordArt scans *)

Import DrawingParser.

Lemma effect_loop (f : elem -> wordart) (l : list elem) (out : list wordart) :
  for_each (fun o te => Val (o ++ [f te])) l out = Val (out ++ map f l).
Proof.
  revert out. induction l as [ | x l IH]; intros out.
  - now rewrite app_nil_r.
  - cbn [for_each bind map]. rewrite IH. now rewrite <- app_assoc.
Qed.

Lemma yield_loop (f : elem -> exc (option wordart)) (l : list elem) (out : list wordart) :
  (forall x, returns (f x) = true) ->
  for_each (fun o x => y <- f x ;; Val (append_opt o y)) l out = Val (out ++ yielded f l).
Proof.
  intros Hf. revert out. induction l as [ | x l IH]; intros out.
  - now rewrite app_nil_r.
  - cbn [for_each]. unfold yielded. cbn [flat_map]. fold (yielded f l).
    specialize (Hf x). destruct (f x) as [[y | ] | e]; [ | | discriminate ];
      cbn [bind append_opt]; rewrite IH.
    + now rewrite <- app_assoc.
    + reflexivity.
Qed.

Lemma parse_w_drawing_returns (part : string) (shape : elem) :
  returns (_parse_w_drawing shape part) = true.
Proof.
  unfold _parse_w_drawing. destruct (find _ shape) as [txbx | ]; [ | reflexivity ].
  destruct (truthy _); [ | reflexivity ].
  unfold _extract_size. destruct (find _ txbx) as [sz | ]; [ | reflexivity ].
  now destruct (half_point_to_pt_returns (get (attrib sz) (DrawingParser.w "val"))) as (v & ->).
Qed.

Lemma try_size_returns (v : option string) : exists r, _try_size v = Val r.
Proof.
  unfold _try_size. destruct v as [sz | ]; [ | now exists None ].
  destruct (truthy sz); [ | now exists None ].
  apply try_except_returns.
Qed.

Lemma parse_vml_wordart_returns (part : string) (vshape : elem) :
  returns (_parse_vml_wordart vshape part) = true.
Proof.
  unfold _parse_vml_wordart. destruct (find _ vshape) as [textpath | ]; [ | reflexivity ].
  now destruct (try_size_returns (get (attrib textpath) "font-size")) as (v & ->).
Qed.

(** [DrawingParser.parse] always returns: it appends one element per text
    effect node, then what the drawings yield, then what the vector shapes
    yield. *)
Lemma drawing_parse_spec (root : elem) (part : string) (out : list wordart) :
  DrawingParser.parse root part out
  = Val (out
         ++ map (fun te => _parse_text_effect te part)
                (findall [Desc (qn "w14" "textEffect")] root)
         ++ yielded (fun x => _parse_w_drawing x part)
                    (findall [Desc (qn "w" "drawing")] root)
         ++ yielded (fun x => _parse_vml_wordart x part)
                    (findall [Desc (qn "v" "shape")] root)).
Proof.
  unfold DrawingParser.parse.
  rewrite (effect_loop (fun te => _parse_text_effect te part)). cbn [bind].
  rewrite (yield_loop (fun x => _parse_w_drawing x part));
    [ | apply parse_w_drawing_returns ]. cbn [bind].
  rewrite (yield_loop (fun x => _parse_vml_wordart x part));
    [ | apply parse_vml_wordart_returns ].
  now rewrite <- !app_assoc.
Qed.



(** *** C1 *)




(** *** C2 *)

Lemma merge_paragraph_runs_spec (para : paragraph) :
  forallb has_text (p_runs para) = true ->
  exists runs',
    DocParser.merge_paragraph_runs para
    = Val (Paragraph (p_source para) (p_index para) (p_text para) runs' (p_props para))
    /\ concat_texts runs' = concat_texts (p_runs para)
    /\ forallb has_text runs' = true.
Proof.
  intros H. unfold DocParser.merge_paragraph_runs.
  destruct (p_runs para) as [ | r0 rest] eqn:E.
  - exists []. destruct para. cbn in E. subst. now repeat split.
  - destruct (merge_by_style_regroups (r0 :: rest) (has_text_is_str _ H))
      as (runs' & -> & Rg).
    exists runs'. cbn [bind]. split; [ reflexivity | ]. split.
    + now apply regroups_texts.
    + now apply (regroups_has_text (r0 :: rest)).
Qed.

(** C2 (amended).  For every paragraph recorded for a part, after the
    run-merge pass: its text field is the stripped concatenation of all
    text nodes below the paragraph node, while its runs concatenate to the
    texts of the first text node of each direct run child.  The two agree
    when the text nodes of the paragraph are exactly those first text nodes
    and their concatenation has no leading or trailing whitespace. *)
Theorem paragraph_runs_concat (root : elem) (part : string) (out out' : list paragraph) :
  parse_paragraphs root part out = Val out' ->
  exists news,
    out' = out ++ news
    /\ Forall2
         (fun ip para =>
            exists para',
              DocParser.merge_paragraph_runs para = Val para'
              /\ p_text para' = extract_paragraph_text (snd ip)
              /\ concat_texts (p_runs para') = direct_run_text (snd ip)
              /\ (findall [Desc (qn "w" "t")] (snd ip) = first_texts (snd ip) ->
                  strip (direct_run_text (snd ip)) = direct_run_text (snd ip) ->
                  concat_texts (p_runs para') = p_text para'))
         (plain_nodes root) news.
Proof.
  intros E. destruct (parse_paragraphs_spec root part out out' E) as (news & -> & F).
  exists news. split; [ reflexivity | ]. clear E.
  induction F as [ | ip para l news' (Hs & Hi & Ht & Hh & Hc) _ IH];
    [ constructor | ].
  constructor; [ | exact IH ].
  destruct (merge_paragraph_runs_spec para Hh) as (runs' & Em & Hc' & _).
  eexists. split; [ exact Em | ]. cbn [p_text p_runs].
  split; [ exact Ht | ]. split; [ now rewrite Hc' | ].
  intros Hall Hstrip. rewrite Hc', Hc, Ht. unfold extract_paragraph_text.
  change (ParagraphParser.w "t") with (qn "w" "t"). rewrite Hall.
  fold (direct_run_text (snd ip)). now symmetry.
Qed.

(** C2 on [effect_part]: the plain paragraph "Hello" + "World" is recorded
    with the text "HelloWorld" and runs that spell it. *)
Lemma paragraph_runs_concat_witness :
  parse_paragraphs effect_part "word/document.xml" []
  = Val [Paragraph "word/document.xml" 1 "HelloWorld"
                   [Run (Some "HelloWorld") no_style] (PDict [])]
  /\ exists news,
       [Paragraph "word/document.xml" 1 "HelloWorld"
                  [Run (Some "HelloWorld") no_style] (PDict [])] = [] ++ news
       /\ Forall2
            (fun ip para =>
               exists para',
                 DocParser.merge_paragraph_runs para = Val para'
                 /\ p_text para' = extract_paragraph_text (snd ip)
                 /\ concat_texts (p_runs para') = direct_run_text (snd ip)
                 /\ (findall [Desc (qn "w" "t")] (snd ip) = first_texts (snd ip) ->
                     strip (direct_run_text (snd ip)) = direct_run_text (snd ip) ->
                     concat_texts (p_runs para') = p_text para'))
            (plain_nodes effect_part) news.
Proof.
  assert (E : parse_paragraphs effect_part "word/document.xml" []
              = Val [Paragraph "word/document.xml" 1 "HelloWorld"
                               [Run (Some "HelloWorld") no_style] (PDict [])])
    by (vm_compute; reflexivity).
  split; [ exact E | ].
  exact (paragraph_runs_concat effect_part "word/document.xml" [] _ E).
Defined.

(** C2 as stated fails on [spaced_part]: after both merge passes the
    paragraph has the text "Hello" while its runs spell "Hello ". *)
Lemma stripped_text_differs_from_runs :
  (paras <- parse_paragraphs spaced_part "word/document.xml" [] ;;
   paras <- map_exc DocParser.merge_paragraph_runs paras ;;
   Val (map (fun para => (p_text para, concat_texts (p_runs para))) paras))
  = Val [("Hello", "Hello ")].
Proof. vm_compute. reflexivity. Qed.

End ParagraphProperties.

(** ** The cross-source merge *)

Section CrossSourceProperties.

Import CrossSource.

Lemma added_app {A : Type} (eqb : A -> A -> bool) (s xs ys : list A) :
  added eqb s (xs ++ ys) = added eqb (added eqb s xs) ys.
Proof. unfold added. apply fold_left_app. Qed.

Lemma entry_eta (e : entry) :
  Entry (en_text e) (en_sources e) (en_fonts e) (en_size_pt e) (en_color e)
        (en_isWordArt e) (en_geometry e) (en_props e) (en_spacing e)
        (en_outline_color e) (en_background_color e) = e.
Proof. now destruct e. Qed.

Lemma add_font_values_added (s : list string) (vs : list (option string)) :
  add_font_values s vs = added String.eqb s (truthy_values vs).
Proof.
  unfold add_font_values, added. revert s.
  induction vs as [ | v vs IH]; intros s; [ reflexivity | ].
  cbn [fold_left truthy_values flat_map]. rewrite fold_left_app, IH.
  destruct v as [x | ]; [ | reflexivity ]. now destruct (truthy x).
Qed.

Lemma add_if_truthy_added (s : list string) (v : option string) :
  add_if_truthy s v = added String.eqb s (truthy_values [v]).
Proof.
  unfold add_if_truthy, added. destruct v as [x | ]; [ | reflexivity ].
  cbn. now destruct (truthy x).
Qed.

(** The effect of the runs of a paragraph on an entry. *)
Lemma fold_add_run (rs : list run) (e : entry) :
  fold_left add_run rs e
  = Entry (en_text e) (en_sources e)
          (added String.eqb (en_fonts e) (flat_map run_fonts rs))
          (added PrimFloat.eqb (en_size_pt e) (flat_map run_sizes rs))
          (added String.eqb (en_color e) (flat_map run_colors rs))
          (en_isWordArt e) (en_geometry e) (en_props e)
          (added scalar_eqb (en_spacing e) (flat_map run_spacings rs))
          (en_outline_color e)
          (added String.eqb (en_background_color e) (flat_map run_backgrounds rs)).
Proof.
  revert e. induction rs as [ | r rs IH]; intros e.
  - cbn. symmetry. apply entry_eta.
  - cbn [fold_left flat_map]. rewrite IH, !added_app. unfold add_run.
    cbn [en_text en_sources en_fonts en_size_pt en_color en_isWordArt en_geometry
         en_props en_spacing en_outline_color en_background_color].
    f_equal.
    + unfold run_fonts. destruct (fonts (run_style r)); [ | reflexivity ].
      now rewrite add_font_values_added.
    + unfold run_sizes. destruct (size_pt (run_style r)) as [[x | ] | ]; try reflexivity.
      now destruct (ftruthy x).
    + unfold run_colors. now rewrite add_if_truthy_added.
    + unfold run_spacings. now destruct (spacing_cm (run_style r)).
    + unfold run_backgrounds. now destruct (background_color (run_style r)).
Qed.

Lemma update_after (e : entry) (o : occurrence) : update e o = after e [o].
Proof.
  destruct o as [p | wa]; unfold after; cbn [update map flat_map fold_left].
  - unfold update_from_paragraph. rewrite fold_add_run.
    cbn [en_text en_sources en_fonts en_size_pt en_color en_isWordArt en_geometry
         en_props en_spacing en_outline_color en_background_color].
    now rewrite !app_nil_r.
  - unfold update_from_wordart, outlines_of, backgrounds_of, spacings_of, colors_of,
      sizes_of, fonts_of.
    destruct (wa_style wa) as [st | ]; [ | reflexivity ].
    unfold add_wordart_style.
    cbn [en_text en_sources en_fonts en_size_pt en_color en_isWordArt en_geometry
         en_props en_spacing en_outline_color en_background_color].
    rewrite !app_nil_r, !add_if_truthy_added. f_equal.
    + destruct (ws_fonts st); [ | reflexivity ]. now rewrite add_font_values_added.
    + destruct (ws_size_pt st) as [[x | ] | ]; try reflexivity. now destruct (ftruthy x).
    + now destruct (ws_kern_pt st).
Qed.

Lemma after_app (e : entry) (os1 os2 : list occurrence) :
  after e (os1 ++ os2) = after (after e os1) os2.
Proof.
  unfold after.
  cbn [en_text en_sources en_fonts en_size_pt en_color en_isWordArt en_geometry
       en_props en_spacing en_outline_color en_background_color].
  now rewrite map_app, !flat_map_app, !added_app, !fold_left_app.
Qed.

Lemma after_nil (e : entry) : after e [] = e.
Proof. apply entry_eta. Qed.

(** *** The dictionary [para_map] *)

Lemma lookup_dict_set (m : list (string * entry)) (k k' : string) (v : entry) :
  lookup (dict_set m k v) k' = if String.eqb k k' then Some v else lookup m k'.
Proof.
  induction m as [ | [k0 e0] m IH]; cbn [dict_set lookup].
  - reflexivity.
  - destruct (String.eqb_spec k0 k) as [-> | Hne]; cbn [lookup].
    + now destruct (String.eqb k k').
    + rewrite IH. destruct (String.eqb_spec k0 k') as [-> | Hne']; [ | reflexivity ].
      destruct (String.eqb_spec k k') as [-> | _]; [ contradiction | reflexivity ].
Qed.

Lemma keys_dict_set (m : list (string * entry)) (k : string) (v : entry) :
  map fst (dict_set m k v) = set_add String.eqb (map fst m) k.
Proof.
  unfold set_add. induction m as [ | [k0 e0] m IH]; cbn [dict_set map fst existsb].
  - reflexivity.
  - rewrite (String.eqb_sym k k0).
    destruct (String.eqb k0 k); cbn [map fst orb]; [ reflexivity | ].
    rewrite IH. now destruct (existsb (String.eqb k) (map fst m)).
Qed.

Lemma existsb_eqb_In (x : string) (s : list string) :
  existsb (String.eqb x) s = true <-> In x s.
Proof.
  rewrite existsb_exists. split.
  - intros (y & Hy & ->%String.eqb_eq). exact Hy.
  - intros H. exists x. split; [ exact H | apply String.eqb_refl ].
Qed.

Lemma set_add_In (s : list string) (x y : string) :
  In y (set_add String.eqb s x) <-> In y s \/ y = x.
Proof.
  unfold set_add. destruct (existsb (String.eqb x) s) eqn:E.
  - apply existsb_eqb_In in E. split; [ now left | ].
    intros [H | ->]; assumption.
  - rewrite in_app_iff. cbn [In]. intuition congruence.
Qed.

Lemma set_add_NoDup (s : list string) (x : string) :
  NoDup s -> NoDup (set_add String.eqb s x).
Proof.
  intros H. unfold set_add. destruct (existsb (String.eqb x) s) eqn:E; [ exact H | ].
  apply NoDup_app; [ exact H | repeat constructor; intros [] | ].
  intros y Hy [<- | []]. apply existsb_eqb_In in Hy. congruence.
Qed.

Lemma added_In (s xs : list string) (y : string) :
  In y (added String.eqb s xs) <-> In y s \/ In y xs.
Proof.
  unfold added. revert s. induction xs as [ | x xs IH]; intros s; cbn [fold_left In].
  - tauto.
  - rewrite IH, set_add_In. intuition congruence.
Qed.

Lemma added_NoDup (s xs : list string) : NoDup s -> NoDup (added String.eqb s xs).
Proof.
  unfold added. revert s. induction xs as [ | x xs IH]; intros s H; [ exact H | ].
  cbn [fold_left]. apply IH. now apply set_add_NoDup.
Qed.

Lemma In_lookup (m : list (string * entry)) (k : string) (e : entry) :
  NoDup (map fst m) -> In (k, e) m -> lookup m k = Some e.
Proof.
  induction m as [ | [k0 e0] m IH]; [ contradiction | ].
  cbn [map fst lookup In]. intros Hnd [[= -> ->] | Hin].
  - now rewrite String.eqb_refl.
  - inversion Hnd as [ | ? ? Hk0 Hnd']; subst.
    destruct (String.eqb_spec k0 k) as [-> | _]; [ | now apply IH ].
    exfalso. apply Hk0. apply in_map_iff. now exists (k, e).
Qed.

(** *** One step of the merge *)

Lemma add_paragraph_step (m : list (string * entry)) (p : paragraph) :
  add_paragraph m p = step m (InParagraph p).
Proof. reflexivity. Qed.

Lemma add_wordart_step (m : list (string * entry)) (wa : wordart) :
  is_some (wa_text wa) = true -> add_wordart m wa = Val (step m (InWordArt wa)).
Proof.
  unfold add_wordart, step, key_of. destruct (wa_text wa) as [t | ]; [ | discriminate ].
  intros _. now destruct (truthy (strip t)).
Qed.

Lemma paragraphs_steps (ps : list paragraph) (m : list (string * entry)) :
  fold_left add_paragraph ps m = fold_left step (map InParagraph ps) m.
Proof.
  revert m. induction ps as [ | p ps IH]; intros m; [ reflexivity | ].
  cbn [fold_left map]. now rewrite IH.
Qed.

Lemma wordarts_steps (ws : list wordart) (m : list (string * entry)) :
  forallb (fun wa => is_some (wa_text wa)) ws = true ->
  for_each add_wordart ws m = Val (fold_left step (map InWordArt ws) m).
Proof.
  revert m. induction ws as [ | wa ws IH]; intros m; [ reflexivity | ].
  cbn [forallb for_each fold_left map]. intros [Hwa Hws]%andb_prop.
  rewrite (add_wordart_step m wa Hwa). cbn [bind]. now apply IH.
Qed.

Lemma group_snoc (k : string) (done : list occurrence) (o : occurrence) :
  group k (done ++ [o])
  = group k done ++ (if String.eqb (key_of o) k then [o] else []).
Proof. unfold group. now rewrite filter_app. Qed.

Lemma keys_of_snoc (done : list occurrence) (o : occurrence) :
  keys_of (done ++ [o])
  = if truthy (key_of o) then set_add String.eqb (keys_of done) (key_of o)
    else keys_of done.
Proof.
  unfold keys_of. rewrite map_app, filter_app, added_app. cbn [map filter].
  now destruct (truthy (key_of o)).
Qed.

Lemma folded_snoc (k : string) (os : list occurrence) (o : occurrence) :
  folded k (os ++ [o])
  = Some (update (match folded k os with
                  | Some e => e
                  | None => init o k
                  end) o).
Proof.
  destruct os as [ | o1 os]; cbn [app folded].
  - now rewrite update_after.
  - change (o1 :: os ++ [o]) with ((o1 :: os) ++ [o]).
    now rewrite after_app, update_after.
Qed.

Lemma step_grouped (done : list occurrence) (m : list (string * entry)) (o : occurrence) :
  grouped done m -> grouped (done ++ [o]) (step m o).
Proof.
  intros [Hkeys Hlook]. unfold step. split.
  - rewrite keys_of_snoc. destruct (truthy (key_of o)); cbn [negb]; [ | exact Hkeys ].
    now rewrite keys_dict_set, Hkeys.
  - intros k. rewrite group_snoc. destruct (truthy (key_of o)) eqn:Ho; cbn [negb].
    + rewrite lookup_dict_set. rewrite (String.eqb_sym (key_of o) k) at 1.
      rewrite (String.eqb_sym (key_of o) k).
      destruct (String.eqb_spec k (key_of o)) as [-> | Hne].
      * rewrite Ho, folded_snoc. f_equal. f_equal.
        specialize (Hlook (key_of o)). rewrite Ho in Hlook. now rewrite Hlook.
      * rewrite app_nil_r. apply Hlook.
    + destruct (String.eqb_spec (key_of o) k) as [<- | Hne].
      * rewrite Ho. specialize (Hlook (key_of o)). now rewrite Ho in Hlook.
      * rewrite app_nil_r. apply Hlook.
Qed.

Lemma steps_grouped (l done : list occurrence) (m : list (string * entry)) :
  grouped done m -> grouped (done ++ l) (fold_left step l m).
Proof.
  revert done m. induction l as [ | o l IH]; intros done m H.
  - now rewrite app_nil_r.
  - cbn [fold_left]. replace (done ++ o :: l) with ((done ++ [o]) ++ l)
      by now rewrite <- app_assoc.
    apply IH. now apply step_grouped.
Qed.

(** *** The returned entries *)

Lemma grouped_nil : grouped [] [].
Proof. split; [ reflexivity | ]. intros k. now destruct (truthy k). Qed.

Lemma merge_grouped (ord : set_iteration) (ps : list paragraph) (ws : list wordart) :
  forallb (fun wa => is_some (wa_text wa)) ws = true ->
  exists m,
    merge_across_sources ord ps ws = Val (map (fun kv => export ord (snd kv)) m)
    /\ grouped (occurrences ps ws) m.
Proof.
  intros Hws. unfold merge_across_sources.
  rewrite paragraphs_steps, (wordarts_steps ws _ Hws). cbn [bind].
  eexists. split; [ reflexivity | ].
  rewrite <- fold_left_app. apply (steps_grouped _ [] []), grouped_nil.
Qed.

Lemma keys_of_NoDup (occs : list occurrence) : NoDup (keys_of occs).
Proof. apply added_NoDup. constructor. Qed.

Lemma grouped_pairs (done : list occurrence) (m : list (string * entry)) :
  grouped done m ->
  Forall (fun kv => exists o os,
                      group (fst kv) done = o :: os
                      /\ snd kv = after (init o (fst kv)) (o :: os)) m.
Proof.
  intros [Hkeys Hlook]. apply Forall_forall. intros [k e] Hin. cbn [fst snd].
  assert (Hnd : NoDup (map fst m)) by (rewrite Hkeys; apply keys_of_NoDup).
  assert (Hk : truthy k = true).
  { assert (H : In k (keys_of done))
      by (rewrite <- Hkeys; apply in_map_iff; now exists (k, e)).
    apply added_In in H as [[] | H]. now apply filter_In in H. }
  pose proof (In_lookup m k e Hnd Hin) as Hl. rewrite Hlook, Hk in Hl.
  destruct (group k done) as [ | o os]; [ discriminate | ].
  injection Hl as <-. now exists o, os.
Qed.

Lemma init_text (o : occurrence) (k : string) : en_text (init o k) = k.
Proof. now destruct o. Qed.

Lemma export_collects (ord : set_iteration) (o : occurrence) (k : string)
    (os : list occurrence) :
  collects os (export ord (after (init o k) os)).
Proof.
  assert (Hinit : forall o', init o' k = new_entry k (en_isWordArt (init o' k))
                                                  (en_geometry (init o' k)))
    by now intros [ | ].
  unfold collects, export, after. rewrite (Hinit o).
  cbn [en_text en_sources en_fonts en_size_pt en_color en_isWordArt en_geometry
       en_props en_spacing en_outline_color en_background_color new_entry].
  repeat split; try apply set_order_perm.
  unfold normalize_spacing. apply Permutation_map, set_order_perm.
Qed.

Lemma filter_none {A : Type} (f : A -> bool) (l : list A) :
  (forall y, In y l -> f y = false) -> filter f l = [].
Proof.
  induction l as [ | x l IH]; intros H; [ reflexivity | ].
  cbn [filter]. rewrite (H x (or_introl eq_refl)). apply IH.
  intros y Hy. apply H. now right.
Qed.

(** Exactly one element of a list without repeated keys has a given key
    that occurs. *)
Lemma filter_unique_key (l : list entry) (t : string) :
  NoDup (map en_text l) -> In t (map en_text l) ->
  exists e, filter (fun e => String.eqb (en_text e) t) l = [e] /\ In e l /\ en_text e = t.
Proof.
  induction l as [ | x l IH]; [ contradiction | ].
  cbn [map filter In]. intros Hnd Hin. inversion Hnd as [ | ? ? Hx Hl]; subst.
  destruct (String.eqb_spec (en_text x) t) as [E | Hne].
  - exists x. split; [ | split; [ now left | exact E ] ]. f_equal.
    apply filter_none. intros y Hy.
    apply not_true_iff_false. intros Ey%String.eqb_eq.
    apply Hx. rewrite E, <- Ey. now apply in_map.
  - destruct Hin as [E | Hin]; [ contradiction | ].
    destruct (IH Hl Hin) as (e & Hf & He & Ht).
    exists e. split; [ exact Hf | split; [ now right | exact Ht ] ].
Qed.

(** A list without repetition whose elements are [a] and [b] has two
    elements. *)
Lemma two_elements (l : list string) (a b : string) :
  NoDup l -> a <> b -> (forall x, In x l <-> x = a \/ x = b) -> List.length l = 2%nat.
Proof.
  intros Hnd Hab H.
  assert (P : Permutation l [a; b]).
  { apply NoDup_Permutation; [ exact Hnd | | ].
    - constructor; [ intros [E | []]; now apply Hab | repeat constructor; intros [] ].
    - intros x. rewrite H. cbn [In]. intuition congruence. }
  now rewrite (Permutation_length P).
Qed.

(** *** The union of the occurrences *)

(** X1.  On a summary whose WordArt elements all carry a text, the merge
    returns one entry per distinct non-empty trimmed text, in the order of
    first occurrence, and the lists of an entry hold exactly the sources,
    fonts, sizes, colors, spacings, outline and background colors that the
    occurrences of its text contribute, each once: the occurrences are
    united, none overwrites another.  So a text whose occurrences come from
    two parts and carry two colors has exactly one entry, with two colors
    and two sources. *)
Theorem cross_source_union (ord : set_iteration) (ps : list paragraph) (ws : list wordart) :
  forallb (fun wa => is_some (wa_text wa)) ws = true ->
  exists entries,
    merge_across_sources ord ps ws = Val entries
    /\ map en_text entries = keys_of (occurrences ps ws)
    /\ Forall (fun e => collects (group (en_text e) (occurrences ps ws)) e) entries
    /\ forall t c1 c2 s1 s2 : string,
         c1 <> c2 -> s1 <> s2 -> truthy t = true ->
         (forall c, In c (flat_map colors_of (group t (occurrences ps ws)))
                    <-> c = c1 \/ c = c2) ->
         (forall s0, In s0 (map source_of (group t (occurrences ps ws)))
                     <-> s0 = s1 \/ s0 = s2) ->
         exists e,
           filter (fun e => String.eqb (en_text e) t) entries = [e]
           /\ List.length (en_color e) = 2%nat
           /\ List.length (en_sources e) = 2%nat.
Proof.
  intros Hws. destruct (merge_grouped ord ps ws Hws) as (m & E & G).
  set (occs := occurrences ps ws) in *.
  pose proof (grouped_pairs occs m G) as Hpairs.
  assert (Htexts : map en_text (map (fun kv => export ord (snd kv)) m) = keys_of occs).
  { rewrite <- (proj1 G), map_map. apply map_ext_in. intros [k e] Hin.
    rewrite Forall_forall in Hpairs. destruct (Hpairs _ Hin) as (o & os & _ & He).
    cbn [fst snd] in *. rewrite He. cbn. apply init_text. }
  assert (Hcol : Forall (fun e => collects (group (en_text e) occs) e)
                        (map (fun kv => export ord (snd kv)) m)).
  { apply Forall_map. apply (Forall_impl _ (P := fun kv => exists o os,
        group (fst kv) occs = o :: os /\ snd kv = after (init o (fst kv)) (o :: os)));
      [ | exact Hpairs ].
    intros [k e] (o & os & Hg & He). cbn [fst snd] in *. rewrite He.
    replace (en_text (export ord (after (init o k) (o :: os)))) with k
      by (cbn; now rewrite init_text).
    rewrite Hg. apply export_collects. }
  eexists. split; [ exact E | ]. split; [ exact Htexts | ]. split; [ exact Hcol | ].
  intros t c1 c2 s1 s2 Hc Hs Ht Hcolors Hsources.
  assert (Hin : In t (keys_of occs)).
  { pose proof (proj2 (Hsources s1) (or_introl eq_refl)) as Hs1.
    apply in_map_iff in Hs1 as (o & _ & Ho).
    apply filter_In in Ho as [Ho Hk%String.eqb_eq].
    apply added_In. right. apply filter_In. split; [ | exact Ht ].
    rewrite <- Hk. now apply in_map. }
  rewrite <- Htexts in Hin.
  destruct (filter_unique_key _ t ltac:(rewrite Htexts; apply keys_of_NoDup) Hin)
    as (e & Hf & He & Het).
  exists e. split; [ exact Hf | ].
  rewrite Forall_forall in Hcol. specialize (Hcol e He). rewrite Het in Hcol.
  destruct Hcol as (Psrc & _ & _ & Pcol & _).
  rewrite (Permutation_length Pcol), (Permutation_length Psrc). split.
  - apply (two_elements _ c1 c2); [ apply added_NoDup; constructor | exact Hc | ].
    intros c. rewrite added_In, <- Hcolors. cbn [In]. tauto.
  - apply (two_elements _ s1 s2); [ apply added_NoDup; constructor | exact Hs | ].
    intros s0. rewrite added_In, <- Hsources. cbn [In]. tauto.
Qed.

(** X1 on [two_titles]: one entry, two colors, two sources. *)
Lemma cross_source_union_witness :
  forallb (fun wa => is_some (wa_text wa)) [] = true
  /\ exists entries,
       merge_across_sources insertion_order two_titles [] = Val entries
       /\ exists e,
            filter (fun e => String.eqb (en_text e) "標題") entries = [e]
            /\ List.length (en_color e) = 2%nat
            /\ List.length (en_sources e) = 2%nat.
Proof.
  split; [ reflexivity | ].
  destruct (cross_source_union insertion_order two_titles [] eq_refl)
    as (entries & E & _ & _ & H).
  exists entries. split; [ exact E | ].
  apply (H "標題" "#FF0000" "#0000FF" "word/document.xml" "word/header1.xml").
  - discriminate.
  - discriminate.
  - reflexivity.
  - intros c.
    change (flat_map colors_of (group "標題" (occurrences two_titles [])))
      with ["#FF0000"; "#0000FF"].
    cbn [In]. intuition congruence.
  - intros s0.
    change (map source_of (group "標題" (occurrences two_titles [])))
      with ["word/document.xml"; "word/header1.xml"].
    cbn [In]. intuition congruence.
Defined.

End CrossSourceProperties.

(** ** The analyzer as a whole *)

Section AnalyzerProperties.

Import DocParser CrossSource.

Variable fromstring : string -> exc elem.
Variables parse_tables parse_images : elem -> string -> list pyobj.

(** Both runs stop on the same exception. *)
Ltac same_failure :=
  split; [ repeat match goal with x : exn |- _ => destruct x end; exact eq_refl
         | intros _; reflexivity ].

(** *** Set iteration order *)

Lemma export_similar (ord1 ord2 : set_iteration) (e : entry) :
  entry_similar (export ord1 e) (export ord2 e).
Proof.
  assert (P : forall (A : Type) (l : list A),
             Permutation (set_order ord1 A l) (set_order ord2 A l)).
  { intros A l. eapply perm_trans; [ apply set_order_perm | ].
    apply Permutation_sym, set_order_perm. }
  unfold entry_similar, export.
  cbn [en_text en_sources en_fonts en_size_pt en_color en_isWordArt en_geometry
       en_props en_spacing en_outline_color en_background_color].
  repeat split; try apply P.
  unfold normalize_spacing. apply Permutation_map, P.
Qed.

Lemma export_same (ord1 ord2 : set_iteration) (e : entry) :
  (forall (A : Type) (l : list A), set_order ord1 A l = set_order ord2 A l) ->
  export ord1 e = export ord2 e.
Proof. intros H. unfold export. now rewrite !H. Qed.

(** C8 (amended).  Two runs of the analysis on the same file end alike:
    both raise the same exception, or both return, with the same
    paragraphs, WordArt elements, notices, tables and images and with
    merged text styles that differ at most in the order of the lists made
    from sets (sources, fonts, sizes, colors, spacings, outline and
    background colors).  The summaries are identical when sets are iterated
    in the same order in both runs, as within one interpreter process. *)
Theorem analysis_up_to_set_order (ord1 ord2 : set_iteration) (f : file) :
  outcome_similar (summarize fromstring parse_tables parse_images ord1 f)
                  (summarize fromstring parse_tables parse_images ord2 f)
  /\ ((forall (A : Type) (l : list A), set_order ord1 A l = set_order ord2 A l) ->
      summarize fromstring parse_tables parse_images ord1 f
      = summarize fromstring parse_tables parse_images ord2 f).
Proof.
  unfold DocParser.summarize, analyze, merge_across_sources.
  destruct f as [ | | bad members]; [ same_failure | same_failure | ].
  destruct (otruthy bad); [ same_failure | ].
  destruct (for_each _ (map fst members) empty_summary) as [out | e];
    cbn [bind try_except]; [ | same_failure ].
  destruct (_merge_similar_runs out) as [out' | e]; cbn [bind try_except]; [ | same_failure ].
  destruct (for_each add_wordart _ _) as [m | e]; cbn [bind try_except]; [ | same_failure ].
  split.
  - repeat split. cbn [s_merged].
    induction m as [ | kv m IH]; constructor; [ apply export_similar | exact IH ].
  - intros H. do 3 f_equal. apply map_ext. intros kv. now apply export_same.
Qed.

(** *** A part that does not parse *)

Lemma zread_skip (l1 l2 : list (string * string)) (name content n : string) :
  n <> name -> zread (l1 ++ (name, content) :: l2) n = zread (l1 ++ l2) n.
Proof.
  intros Hn. induction l1 as [ | [n0 c0] l1 IH]; cbn [app zread].
  - destruct (zread l2 n); [ reflexivity | ].
    destruct (String.eqb_spec name n) as [E | _]; [ now subst | reflexivity ].
  - now rewrite IH.
Qed.

Lemma zread_absent (l : list (string * string)) (name : string) :
  existsb (String.eqb name) (map fst l) = false -> zread l name = None.
Proof.
  induction l as [ | [n0 c0] l IH]; [ reflexivity | ].
  cbn [map fst existsb zread]. intros [H0 Hl]%orb_false_elim.
  rewrite (IH Hl), String.eqb_sym. now rewrite H0.
Qed.

Lemma zread_here (l1 l2 : list (string * string)) (name content : string) :
  existsb (String.eqb name) (map fst l2) = false ->
  zread (l1 ++ (name, content) :: l2) name = Some content.
Proof.
  intros H. induction l1 as [ | [n0 c0] l1 IH]; cbn [app zread].
  - now rewrite (zread_absent l2 name H), String.eqb_refl.
  - now rewrite IH.
Qed.

Lemma zread_member (l : list (string * string)) (name content : string) :
  zread l name = Some content -> In (name, content) l.
Proof.
  induction l as [ | [n0 c0] l IH]; [ discriminate | ].
  cbn [zread In]. destruct (zread l name) as [c | ].
  - intros [= <-]. right. now apply IH.
  - destruct (String.eqb_spec n0 name) as [-> | _]; [ | discriminate ].
    intros [= <-]. now left.
Qed.

Lemma for_each_ext {S A : Type} (f g : S -> A -> exc S) (l : list A) (s : S) :
  (forall x s', In x l -> f s' x = g s' x) -> for_each f l s = for_each g l s.
Proof.
  revert s. induction l as [ | x l IH]; intros s H; [ reflexivity | ].
  cbn [for_each]. rewrite (H x s (or_introl eq_refl)).
  destruct (g s x) as [s1 | e]; cbn [bind]; [ | reflexivity ].
  apply IH. intros y s' Hy. apply H. now right.
Qed.

(** A member whose content does not parse leaves the summary as it is:
    nothing is added to it, no notice either. *)
Lemma process_unparsable (members : list (string * string)) (out : summary)
    (name content : string) :
  zread members name = Some content -> returns (fromstring content) = false ->
  process_part fromstring parse_tables parse_images members out name = Val out.
Proof.
  intros Hz Hf. unfold process_part, get_xml.
  destruct (eligible name); cbn [negb]; [ | reflexivity ].
  rewrite Hz. now destruct (fromstring content).
Qed.

Lemma process_other (l1 l2 : list (string * string)) (name content n : string)
    (out : summary) :
  n <> name ->
  process_part fromstring parse_tables parse_images (l1 ++ (name, content) :: l2) out n
  = process_part fromstring parse_tables parse_images (l1 ++ l2) out n.
Proof.
  intros Hn. unfold process_part, get_xml. now rewrite (zread_skip l1 l2 name content n Hn).
Qed.

Lemma not_among (name : string) (l : list string) (n : string) :
  existsb (String.eqb name) l = false -> In n l -> n <> name.
Proof.
  intros H Hin ->. assert (E : existsb (String.eqb name) l = true).
  { apply existsb_exists. exists name. split; [ exact Hin | apply String.eqb_refl ]. }
  congruence.
Qed.

Lemma parts_without (l1 l2 : list (string * string)) (name content : string) :
  returns (fromstring content) = false ->
  existsb (String.eqb name) (map fst (l1 ++ l2)) = false ->
  for_each (process_part fromstring parse_tables parse_images (l1 ++ (name, content) :: l2))
           (map fst (l1 ++ (name, content) :: l2)) empty_summary
  = for_each (process_part fromstring parse_tables parse_images (l1 ++ l2))
             (map fst (l1 ++ l2)) empty_summary.
Proof.
  intros Hf Hname. rewrite !map_app in *. cbn [map fst].
  rewrite existsb_app in Hname. apply orb_false_elim in Hname as [H1 H2].
  rewrite !for_each_app.
  rewrite (for_each_ext _ (process_part fromstring parse_tables parse_images (l1 ++ l2))
             (map fst l1)).
  - destruct (for_each _ (map fst l1) empty_summary) as [out | e]; cbn [bind];
      [ | reflexivity ].
    cbn [for_each].
    rewrite (process_unparsable _ out name content (zread_here l1 l2 name content H2) Hf).
    cbn [bind]. apply for_each_ext. intros n s' Hn. apply process_other.
    now apply (not_among name (map fst l2)).
  - intros n s' Hn. apply process_other. now apply (not_among name (map fst l1)).
Qed.

Lemma parts_all_unparsable (members : list (string * string)) (names : list string)
    (out : summary) :
  (forall n c, In (n, c) members -> returns (fromstring c) = false) ->
  for_each (process_part fromstring parse_tables parse_images members) names out = Val out.
Proof.
  intros H. induction names as [ | n names IH]; [ reflexivity | ].
  cbn [for_each].
  assert (E : process_part fromstring parse_tables parse_images members out n = Val out).
  { destruct (zread members n) as [c | ] eqn:Hz.
    - apply (process_unparsable members out n c Hz).
      apply (H n c). now apply zread_member.
    - unfold process_part, get_xml. rewrite Hz. now destruct (eligible n). }
  now rewrite E.
Qed.

(** C5 (amended).  In an archive that passes the integrity test, a part
    whose content does not parse as XML is skipped: processing it leaves
    the summary unchanged, no notice is recorded for it, and the analysis
    ends as it does on the archive without that part, every other part
    being processed as before.  When no part parses, the analysis returns
    the empty summary. *)
Theorem unparsable_part_skipped (ord : set_iteration)
    (l1 l2 : list (string * string)) (name content : string) :
  returns (fromstring content) = false ->
  existsb (String.eqb name) (map fst (l1 ++ l2)) = false ->
  (forall out : summary,
      process_part fromstring parse_tables parse_images
                   (l1 ++ (name, content) :: l2) out name = Val out)
  /\ summarize fromstring parse_tables parse_images ord
               (Zip None (l1 ++ (name, content) :: l2))
     = summarize fromstring parse_tables parse_images ord (Zip None (l1 ++ l2))
  /\ ((forall n c, In (n, c) (l1 ++ l2) -> returns (fromstring c) = false) ->
      summarize fromstring parse_tables parse_images ord
                (Zip None (l1 ++ (name, content) :: l2))
      = Val (Summary [] [] [] (Some []) None None)).
Proof.
  intros Hf Hname. split; [ | split ].
  - intros out. apply (process_unparsable _ out name content); [ | exact Hf ].
    apply zread_here. rewrite map_app, existsb_app in Hname.
    now apply orb_false_elim in Hname.
  - unfold DocParser.summarize, analyze. cbn [otruthy].
    now rewrite (parts_without l1 l2 name content Hf Hname).
  - intros Hall. unfold DocParser.summarize, analyze. cbn [otruthy].
    rewrite parts_all_unparsable; [ reflexivity | ].
    intros n c [Hin | [[= <- <-] | Hin]]%in_app_or.
    + apply (Hall n c). apply in_or_app. now left.
    + exact Hf.
    + apply (Hall n c). apply in_or_app. now right.
Qed.

End AnalyzerProperties.

(** *** The analyzer on the sample archives *)

(** C5 on [broken_archive]: the footer does not parse, and the analysis
    ends as on the archive made of the document alone. *)
Lemma unparsable_part_skipped_witness :
  returns (sample_fromstring "<w:ftr") = false
  /\ existsb (String.eqb "word/footer1.xml")
             (map fst ([] ++ [("word/document.xml", title_xml "FF0000")])) = false
  /\ DocParser.summarize sample_fromstring nothing nothing insertion_order broken_archive
     = DocParser.summarize sample_fromstring nothing nothing insertion_order
         (Zip None ([] ++ [("word/document.xml", title_xml "FF0000")])).
Proof.
  split; [ reflexivity | ]. split; [ reflexivity | ].
  apply (unparsable_part_skipped sample_fromstring nothing nothing insertion_order
           [] [("word/document.xml", title_xml "FF0000")] "word/footer1.xml" "<w:ftr");
    reflexivity.
Defined.

(** C5 as stated fails on [broken_archive]: the analysis returns, with the
    paragraph of the document, and its notices are empty: nothing records
    that the footer was skipped. *)
Lemma skipped_part_leaves_no_notice :
  (s <- DocParser.summarize sample_fromstring nothing nothing insertion_order
          broken_archive ;;
   Val (map p_source (s_paragraphs s), s_notices s))
  = Val (["word/document.xml"], []).
Proof. vm_compute. reflexivity. Qed.

(** C7 (the code at the failing inputs).  In [vml_archive] the WordArt
    "標題" stands in two parts, in red and in blue.  The analysis records
    both elements with their colors, yet the merged entry of "標題" has
    its two sources and no color: [DrawingParser] stores the color of an
    element under "顏色", the merge reads it from [style.fill_color], which
    only [parse_wordart] writes.  With a text effect in the summary the
    merge raises on the missing text of its element, so the analysis of
    [effect_archive] ends in an exception instead of an entry for the
    paragraph text "標題" of its two other parts. *)
Theorem wordart_colors_not_merged :
  (s <- DocParser.summarize sample_fromstring nothing nothing insertion_order
          vml_archive ;;
   Val (map (fun wa => (wa_text wa, wa_color wa)) (s_wordart s),
        option_map (map (fun e => (en_text e, en_sources e, en_color e))) (s_merged s)))
  = Val ([(Some "標題", Some "#FF0000"); (Some "標題", Some "#0000FF")],
         Some [("標題", ["word/document.xml"; "word/header1.xml"], [])])
  /\ (ws <- DrawingParser.parse effect_part "word/footer1.xml" [] ;;
      CrossSource.merge_across_sources insertion_order two_titles ws)
     = Raise AttributeError
  /\ DocParser.summarize sample_fromstring nothing nothing insertion_order effect_archive
     = Raise Exception.
Proof. repeat (apply conj); vm_compute; reflexivity. Qed.

(** C8 on [two_part_archive]: the runs under the two iteration orders end
    alike, and two runs under one order end identically. *)
Lemma analysis_up_to_set_order_witness :
  outcome_similar
    (DocParser.summarize sample_fromstring nothing nothing insertion_order two_part_archive)
    (DocParser.summarize sample_fromstring nothing nothing reversed_order two_part_archive)
  /\ DocParser.summarize sample_fromstring nothing nothing insertion_order two_part_archive
     = DocParser.summarize sample_fromstring nothing nothing insertion_order
         two_part_archive.
Proof.
  split.
  - apply (analysis_up_to_set_order sample_fromstring nothing nothing
             insertion_order reversed_order two_part_archive).
  - apply (analysis_up_to_set_order sample_fromstring nothing nothing
             insertion_order insertion_order two_part_archive).
    reflexivity.
Defined.

(** C8 as stated fails on [two_part_archive]: the colors of the entry of
    "標題" come out in one order when sets are iterated in insertion order
    and in the other when they are iterated in reverse. *)
Lemma color_order_follows_set_order :
  (s <- DocParser.summarize sample_fromstring nothing nothing insertion_order
          two_part_archive ;;
   Val (option_map (map en_color) (s_merged s)))
  = Val (Some [["#FF0000"; "#0000FF"]])
  /\ (s <- DocParser.summarize sample_fromstring nothing nothing reversed_order
             two_part_archive ;;
      Val (option_map (map en_color) (s_merged s)))
     = Val (Some [["#0000FF"; "#FF0000"]]).
Proof. split; vm_compute; reflexivity. Qed.

(* ===================================================================== *)
(** * Further properties of the code *)
(* ===================================================================== *)

(** ** [DocParser.summarize]: failures, members and parts *)

Section SummarizeProperties.

Import DocParser CrossSource.

Variable fromstring : string -> exc elem.
Variables parse_tables parse_images : elem -> string -> list pyobj.
Variable ord : set_iteration.

Lemma summarize_returns_analyze (f : file) (s : summary) :
  summarize fromstring parse_tables parse_images ord f = Val s ->
  analyze fromstring parse_tables parse_images ord f = Val s.
Proof.
  unfold DocParser.summarize. destruct f as [ | | bad members]; [ discriminate | | ].
  - cbn. discriminate.
  - destruct (analyze _ _ _ _ _) as [s' | e]; cbn [try_except]; [ trivial | ].
    destruct e; discriminate.
Qed.





(** The tables, images and notices after the parts named [names]. *)
Lemma process_loop_tables (members : list (string * string)) (names : list string)
    (out out' : summary) :
  for_each (process_part fromstring parse_tables parse_images members) names out = Val out' ->
  let parts := flat_map (fun name => match part_root fromstring members name with
                                     | Some root => [(name, root)]
                                     | None => []
                                     end) names in
  s_tables out'
  = last_nonempty (s_tables out) (map (fun nr => parse_tables (snd nr) (fst nr)) parts)
  /\ s_images out'
     = last_nonempty (s_images out) (map (fun nr => parse_images (snd nr) (fst nr)) parts)
  /\ s_notices out'
     = s_notices out
       ++ flat_map (fun nr => count_notice " 個表格" (parse_tables (snd nr) (fst nr))
                              ++ count_notice " 張圖片" (parse_images (snd nr) (fst nr)))
                   parts
  /\ s_merged out' = s_merged out.
Proof.
  revert out. induction names as [ | n names IH]; intros out.
  - cbn. intros [= <-]. now rewrite app_nil_r.
  - cbn [for_each flat_map].
    destruct (process_part _ _ _ members out n) as [out1 | e] eqn:E1; cbn [bind];
      [ | discriminate ].
    intros Hrest. specialize (IH out1 Hrest). cbv zeta in IH.
    destruct IH as (Ht & Hi & Hn & Hm).
    unfold process_part in E1. unfold part_root.
    destruct (eligible n); cbn [negb] in E1.
    2:{ injection E1 as <-. cbn [app]. now rewrite Ht, Hi, Hn, Hm. }
    destruct (get_xml fromstring members n) as [[root | ] | e]; cbn [bind] in E1.
    3:{ discriminate. }
    2:{ injection E1 as <-. cbn [app]. now rewrite Ht, Hi, Hn, Hm. }
    destruct (ParagraphParser.parse_paragraphs root n (s_paragraphs out)) as [ps | e];
      cbn [bind] in E1; [ | discriminate ].
    destruct (DrawingParser.parse root n (s_wordart out)) as [ws | e];
      cbn [bind] in E1; [ | discriminate ].
    injection E1 as <-. cbv zeta. cbn [app map fst snd flat_map].
    rewrite Ht, Hi, Hn, Hm. unfold last_nonempty. cbn [fold_left].
    unfold parse_all_images_in_document, parse_all_tables_in_document, count_notice.
    destruct (parse_tables root n) as [ | t ts], (parse_images root n) as [ | i il];
      cbn [s_tables s_images s_notices s_merged app];
      rewrite <- ?app_assoc; cbn [app]; repeat split; reflexivity.
Qed.

(** X4.  The tables of the summary are those of the last part that has
    any, and likewise the images: each part with tables replaces the list
    recorded before it, nothing is accumulated across parts.  The notices,
    by contrast, keep one count per part with tables and one per part with
    images, in the order of the parts. *)
Theorem tables_of_last_part (bad : option string) (members : list (string * string))
    (s : summary) :
  summarize fromstring parse_tables parse_images ord (Zip bad members) = Val s ->
  s_tables s
  = last_nonempty None (map (fun nr => parse_tables (snd nr) (fst nr))
                            (parsed_parts fromstring members))
  /\ s_images s
     = last_nonempty None (map (fun nr => parse_images (snd nr) (fst nr))
                               (parsed_parts fromstring members))
  /\ s_notices s
     = flat_map (fun nr => count_notice " 個表格" (parse_tables (snd nr) (fst nr))
                           ++ count_notice " 張圖片" (parse_images (snd nr) (fst nr)))
                (parsed_parts fromstring members).
Proof.
  intros Hs. apply summarize_returns_analyze in Hs. unfold analyze in Hs.
  destruct (otruthy bad); [ discriminate | ].
  destruct (for_each _ _ _) as [out | e] eqn:E; cbn [bind] in Hs; [ | discriminate ].
  apply process_loop_tables in E. cbv zeta in E. destruct E as (Ht & Hi & Hn & _).
  unfold _merge_similar_runs in Hs.
  destruct (map_exc _ _) as [ps | e]; cbn [bind] in Hs; [ | discriminate ].
  destruct (merge_across_sources _ _ _) as [merged | e]; cbn [bind] in Hs;
    [ | discriminate ].
  injection Hs as <-. cbn [s_tables s_images s_notices]. now split; [ | split ].
Qed.

End SummarizeProperties.


(** X4 on [two_part_archive] with one table per part: the summary keeps
    the table of the header only, and both notices. *)
Lemma tables_of_last_part_witness :
  exists s,
    DocParser.summarize sample_fromstring one_table nothing insertion_order
      two_part_archive = Val s
    /\ s_tables s = Some [PStr "word/header1.xml"]
    /\ s_notices s = ["檢測到 1 個表格"; "檢測到 1 個表格"].
Proof.
  destruct (DocParser.summarize sample_fromstring one_table nothing insertion_order
              two_part_archive) as [s | e] eqn:E; [ | vm_compute in E; discriminate ].
  exists s. split; [ reflexivity | ].
  destruct (tables_of_last_part sample_fromstring one_table nothing insertion_order
              None _ s E) as (Ht & _ & Hn).
  rewrite Ht, Hn. split; vm_compute; reflexivity.
Defined.


(** ** The two run merges, once more *)

Section MergeFurther.

Import Merge.

Lemma separated_adjacent (eq : style -> style -> bool) (l : list run) (prev : option run) :
  separated eq prev l = true ->
  forall (i : nat) (r1 r2 : run),
    nth_error l i = Some r1 -> nth_error l (S i) = Some r2 ->
    eq (run_style r2) (run_style r1) = false.
Proof.
  revert prev. induction l as [ | r l IH]; intros prev H i r1 r2 H1 H2.
  - now destruct i.
  - cbn [separated] in H. apply andb_prop in H as [_ Hrest].
    destruct i as [ | i].
    + cbn in H1, H2. injection H1 as <-.
      destruct l as [ | r' l']; [ discriminate | ]. injection H2 as <-.
      cbn [separated] in Hrest.
      apply andb_prop in Hrest as [[_ Hne]%andb_prop _].
      now apply negb_true_iff in Hne.
    + apply (IH (Some r) Hrest i r1 r2); assumption.
Qed.

(** X5.  [merge_runs] always returns, and it merges as far as it can: every
    run of the result has text and no run has a style equal (for
    [styles_equal]) to the style of the run before it.  The second pass,
    [_merge_runs_by_style], does the same for its own comparison (equal
    style keys) on runs that all have text. *)
Theorem merge_runs_maximal (runs : list run) :
  (exists out,
      merge_runs runs = Val out
      /\ forallb has_text out = true
      /\ forall (i : nat) (r1 r2 : run),
           nth_error out i = Some r1 -> nth_error out (S i) = Some r2 ->
           styles_equal (run_style r2) (run_style r1) = false)
  /\ (forallb has_text runs = true ->
      exists out,
        _merge_runs_by_style runs = Val out
        /\ forall (i : nat) (r1 r2 : run),
             nth_error out i = Some r1 -> nth_error out (S i) = Some r2 ->
             String.eqb (create_style_key (run_style r2))
                        (create_style_key (run_style r1)) = false).
Proof.
  split.
  - destruct (merge_runs_regroups runs) as (out & E & _).
    exists out. split; [ exact E | ]. split; [ now apply (merge_runs_has_text runs) | ].
    apply (separated_adjacent styles_equal out None).
    now apply (merge_runs_separated runs).
  - intros H.
    destruct (merge_by_style_regroups runs (has_text_is_str runs H)) as (out & E & _).
    exists out. split; [ exact E | ].
    apply (separated_adjacent same_key out None).
    now apply (merge_by_style_separated runs).
Qed.

(** X6.  The character style name takes part in the comparison of
    [merge_runs] and not in the style key of [_merge_runs_by_style]: two
    runs with text whose styles differ in the style name only are kept
    apart by the first pass and merged by the second, under the style (and
    the style name) of the first run. *)
Theorem style_name_ignored_by_second_pass (s : style) (n1 n2 t1 t2 : string) :
  n1 <> n2 -> truthy t1 = true -> truthy t2 = true ->
  let r1 := Run (Some t1) (with_style_name (Some n1) s) in
  let r2 := Run (Some t2) (with_style_name (Some n2) s) in
  merge_runs [r1; r2] = Val [r1; r2]
  /\ _merge_runs_by_style [r1; r2]
     = Val [Run (Some (t1 ++ t2)%string) (with_style_name (Some n1) s)].
Proof.
  intros Hn H1 H2 r1 r2. split.
  - unfold merge_runs. cbn [for_each]. unfold merge_runs_step at 1.
    cbn [run_text r1 otruthy]. rewrite H1. cbn [negb unsnoc app bind].
    unfold merge_runs_step. cbn [run_text r2 otruthy]. rewrite H2.
    cbn [negb unsnoc run_style r1 r2].
    assert (E : styles_equal (with_style_name (Some n2) s) (with_style_name (Some n1) s)
                = false).
    { unfold styles_equal, style_truthy, with_style_name.
      cbn [styleName is_some orb negb andb ostr_eq].
      destruct (String.eqb_spec n2 n1) as [E | _]; [ now subst | reflexivity ]. }
    now rewrite E.
  - unfold _merge_runs_by_style. cbn [for_each]. unfold merge_by_style_step.
    cbn [run_text run_style r1 r2 otruthy].
    assert (E : create_style_key (with_style_name (Some n2) s)
                = create_style_key (with_style_name (Some n1) s)) by reflexivity.
    rewrite E, String.eqb_refl, H2. cbn [andb text_add bind].
    unfold flush. cbn [run_text otruthy].
    assert (T : truthy (t1 ++ t2) = true) by now apply truthy_append_l.
    now rewrite T.
Qed.

End MergeFurther.

(** X6 on two bold runs named [Strong] and [Emphasis]. *)
Lemma style_name_ignored_by_second_pass_witness :
  Merge.merge_runs [Run (Some "A") (with_style_name (Some "Strong") bold_style);
                    Run (Some "B") (with_style_name (Some "Emphasis") bold_style)]
  = Val [Run (Some "A") (with_style_name (Some "Strong") bold_style);
         Run (Some "B") (with_style_name (Some "Emphasis") bold_style)]
  /\ Merge._merge_runs_by_style
       [Run (Some "A") (with_style_name (Some "Strong") bold_style);
        Run (Some "B") (with_style_name (Some "Emphasis") bold_style)]
     = Val [Run (Some "AB") (with_style_name (Some "Strong") bold_style)].
Proof.
  apply (style_name_ignored_by_second_pass bold_style "Strong" "Emphasis" "A" "B");
    [ discriminate | reflexivity | reflexivity ].
Defined.

(** ** The cross-source merge, once more *)

Section CrossSourceFurther.

Import CrossSource.

Lemma wordart_loop_raises (ws : list wordart) (m : list (string * entry)) :
  existsb (fun wa => negb (is_some (wa_text wa))) ws = true ->
  for_each add_wordart ws m = Raise AttributeError.
Proof.
  revert m. induction ws as [ | wa ws IH]; intros m H; [ discriminate | ].
  cbn [existsb] in H. cbn [for_each]. unfold add_wordart at 1.
  destruct (wa_text wa) as [t | ]; [ | reflexivity ].
  cbn [is_some negb orb] in H.
  destruct (negb (truthy (strip t))); cbn [bind]; now apply IH.
Qed.

(** X7.  A WordArt element without a text makes the merge fail: with one
    such element among the WordArt elements, [merge_across_sources] raises
    [AttributeError] whatever the paragraphs are.  Every element that
    [DrawingParser] builds for a text effect is one, so the merge fails on
    the WordArt elements of any part that holds a text-effect node. *)
Theorem missing_text_aborts_merge (ord : set_iteration) (ps : list paragraph) :
  (forall ws : list wordart,
      existsb (fun wa => negb (is_some (wa_text wa))) ws = true ->
      merge_across_sources ord ps ws = Raise AttributeError)
  /\ (forall (root : elem) (part : string) (out : list wordart),
        is_some (find [Desc (qn "w14" "textEffect")] root) = true ->
        exists ws,
          DrawingParser.parse root part out = Val ws
          /\ merge_across_sources ord ps ws = Raise AttributeError).
Proof.
  assert (G : forall ws : list wordart,
             existsb (fun wa => negb (is_some (wa_text wa))) ws = true ->
             merge_across_sources ord ps ws = Raise AttributeError).
  { intros ws H. unfold merge_across_sources. now rewrite (wordart_loop_raises ws _ H). }
  split; [ exact G | ].
  intros root part out H. rewrite drawing_parse_spec. eexists. split; [ reflexivity | ].
  apply G. unfold find in H.
  destruct (findall [Desc (qn "w14" "textEffect")] root) as [ | te tes]; [ discriminate | ].
  rewrite !existsb_app. cbn [map existsb DrawingParser._parse_text_effect wa_text is_some negb].
  now rewrite orb_true_r.
Qed.

Lemma fold_flag (os : list occurrence) (b : bool) :
  fold_left (fun b o => match o with
                        | InParagraph _ => b
                        | InWordArt _ => true
                        end) os b
  = b || existsb is_wordart_occurrence os.
Proof.
  revert b. induction os as [ | [p | wa] os IH]; intros b; cbn [fold_left existsb].
  - now rewrite orb_false_r.
  - rewrite IH. reflexivity.
  - rewrite IH. cbn [is_wordart_occurrence orb]. now rewrite orb_true_r.
Qed.

Lemma fold_props (os : list occurrence) (q : pyobj) (q' : option pyobj) :
  q = match q' with Some x => x | None => PDict [] end ->
  fold_left (fun q o => match o with
                        | InParagraph p => p_props p
                        | InWordArt _ => q
                        end) os q
  = match fold_left (fun q o => match o with
                                | InParagraph p => Some (p_props p)
                                | InWordArt _ => q
                                end) os q' with
    | Some x => x
    | None => PDict []
    end.
Proof.
  revert q q'. induction os as [ | [p | wa] os IH]; intros q q' E; cbn [fold_left].
  - exact E.
  - now apply IH.
  - now apply IH.
Qed.

Lemma fold_geometry (os : list occurrence) (g : pyobj) (g' : option pyobj) :
  g = match g' with Some x => x | None => PNone end ->
  fold_left (fun g o => match o with
                        | InParagraph _ => g
                        | InWordArt wa => wa_geometry wa
                        end) os g
  = match fold_left (fun g o => match o with
                                | InParagraph _ => g
                                | InWordArt wa => Some (wa_geometry wa)
                                end) os g' with
    | Some x => x
    | None => PNone
    end.
Proof.
  revert g g'. induction os as [ | [p | wa] os IH]; intros g g' E; cbn [fold_left].
  - exact E.
  - now apply IH.
  - now apply IH.
Qed.

(** X8.  Besides the united sets an entry carries three single values, and
    these follow the order of the occurrences of its text: it is flagged as
    WordArt exactly when one of the occurrences is a WordArt element; its
    paragraph properties are those of the last paragraph among them (each
    paragraph overwrites the properties recorded before), the empty
    dictionary when there is none; its geometry is that of the last
    WordArt element among them, [None] when there is none. *)
Theorem entry_single_values (ord : set_iteration) (ps : list paragraph)
    (ws : list wordart) :
  forallb (fun wa => is_some (wa_text wa)) ws = true ->
  exists entries,
    merge_across_sources ord ps ws = Val entries
    /\ Forall (fun e =>
                 let os := group (en_text e) (occurrences ps ws) in
                 en_isWordArt e = existsb is_wordart_occurrence os
                 /\ en_props e = match last_props os with
                                 | Some q => q
                                 | None => PDict []
                                 end
                 /\ en_geometry e = match last_geometry os with
                                    | Some g => g
                                    | None => PNone
                                    end) entries.
Proof.
  intros Hws. destruct (merge_grouped ord ps ws Hws) as (m & E & G).
  eexists. split; [ exact E | ].
  apply Forall_map. pose proof (grouped_pairs _ m G) as Hpairs.
  apply (Forall_impl _ (P := fun kv => exists o os,
            group (fst kv) (occurrences ps ws) = o :: os
            /\ snd kv = after (init o (fst kv)) (o :: os))); [ | exact Hpairs ].
  intros [k e] (o & os & Hg & He). cbn [fst snd] in *. subst e. cbv zeta.
  replace (en_text (export ord (after (init o k) (o :: os)))) with k
    by (cbn; now rewrite init_text).
  rewrite Hg. unfold export, after, last_props, last_geometry.
  cbn [en_isWordArt en_props en_geometry]. split; [ | split ].
  - rewrite fold_flag. destruct o as [p | wa]; reflexivity.
  - apply fold_props. now destruct o.
  - destruct o as [p | wa]; cbn [fold_left init new_entry en_geometry].
    + now apply fold_geometry.
    + now apply fold_geometry.
Qed.

(** X9.  [normalize_spacing] keeps the length of the list and every
    number in it, replaces a string that reads as an integer [n] by
    [n / 100] and leaves every other string in place; normalising twice is
    normalising once. *)
Theorem normalize_spacing_idempotent (values : list scalar) :
  normalize_spacing (normalize_spacing values) = normalize_spacing values
  /\ List.length (normalize_spacing values) = List.length values
  /\ (forall i x, nth_error values i = Some (SNum x) ->
                  nth_error (normalize_spacing values) i = Some (SNum x))
  /\ (forall i t, nth_error values i = Some (SText t) ->
                  nth_error (normalize_spacing values) i
                  = Some (match int_of_str t with
                          | Val n => match int_truediv_float n 100%float with
                                     | Val x => SNum x
                                     | Raise _ => SText t
                                     end
                          | Raise _ => SText t
                          end)).
Proof.
  unfold normalize_spacing. split; [ | split; [ | split ] ].
  - rewrite map_map. apply map_ext. intros [x | t]; [ reflexivity | ].
    destruct (int_of_str t) as [n | e] eqn:E; cbn [bind].
    + destruct (int_truediv_float n 100%float) as [x | e] eqn:E'; cbn [bind].
      * reflexivity.
      * now rewrite E; cbn [bind]; rewrite E'.
    + now rewrite E.
  - apply length_map.
  - intros i x H. now rewrite nth_error_map, H.
  - intros i t H. rewrite nth_error_map, H. cbn [option_map].
    destruct (int_of_str t) as [n | e]; cbn [bind]; [ | reflexivity ].
    now destruct (int_truediv_float n 100%float).
Qed.

End CrossSourceFurther.

(** X7 on [effect_part]: its text effect gives an element without text,
    and the merge of the two titles with it fails. *)
Lemma missing_text_aborts_merge_witness :
  is_some (find [Desc (qn "w14" "textEffect")] effect_part) = true
  /\ exists ws,
       DrawingParser.parse effect_part "word/footer1.xml" [] = Val ws
       /\ CrossSource.merge_across_sources insertion_order two_titles ws
          = Raise AttributeError.
Proof.
  split; [ reflexivity | ].
  apply (proj2 (missing_text_aborts_merge insertion_order two_titles)).
  reflexivity.
Defined.

(** X8 on [two_titles]: the entry of the one text is no WordArt, has the
    properties of the second paragraph and no geometry. *)
Lemma entry_single_values_witness :
  forallb (fun wa => is_some (wa_text wa)) [] = true
  /\ exists entries,
       CrossSource.merge_across_sources insertion_order two_titles [] = Val entries
       /\ Forall (fun e => en_isWordArt e = false /\ en_geometry e = PNone) entries.
Proof.
  split; [ reflexivity | ].
  destruct (entry_single_values insertion_order two_titles [] eq_refl) as (entries & E & H).
  exists entries. split; [ exact E | ].
  revert H. apply Forall_impl. intros e (Hw & _ & Hg).
  assert (Ht : forall k, existsb is_wordart_occurrence (group k (occurrences two_titles []))
                         = false
                         /\ last_geometry (group k (occurrences two_titles [])) = None).
  { intros k. unfold occurrences, two_titles, group. cbn [map app filter].
    repeat match goal with
           | |- context [String.eqb ?a k] => destruct (String.eqb a k)
           end; split; reflexivity. }
  cbv zeta in Hw, Hg. destruct (Ht (en_text e)) as (H1 & H2).
  now rewrite Hw, Hg, H1, H2.
Defined.

(** ** Paragraph properties that do not parse *)

Section ParagraphFurther.

Import ParagraphParser.

Lemma map_exc_raises {A B : Type} (f : A -> exc B) (l : list A) (x : A) :
  In x l -> returns (f x) = false -> returns (map_exc f l) = false.
Proof.
  intros Hin Hx. induction l as [ | y l IH]; [ contradiction | ].
  cbn [map_exc]. destruct (f y) as [v | e] eqn:E; cbn [bind]; [ | reflexivity ].
  destruct Hin as [-> | Hin]; [ now rewrite E in Hx | ].
  specialize (IH Hin). now destruct (map_exc f l).
Qed.

Lemma for_each_raises {S A : Type} (body : S -> A -> exc S) (l : list A) (x : A) :
  In x l -> (forall s, returns (body s x) = false) ->
  forall s, returns (for_each body l s) = false.
Proof.
  intros Hin Hx. induction l as [ | y l IH]; [ contradiction | ]. intros s.
  cbn [for_each]. destruct (body s y) as [s1 | e] eqn:E; cbn [bind]; [ | reflexivity ].
  destruct Hin as [-> | Hin]; [ | now apply IH ].
  specialize (Hx s). now rewrite E in Hx.
Qed.

Lemma In_enumerate {A : Type} (l : list A) (start : nat) (x : A) :
  In x l -> exists k, In (k, x) (enumerate start l).
Proof.
  revert start. induction l as [ | y l IH]; intros start; [ contradiction | ].
  intros [-> | H].
  - exists start. now left.
  - destruct (IH (S start) H) as (k & Hk). exists k. now right.
Qed.

(** X10.  The position of a tab stop is converted outside any [try]: when
    a paragraph that is no WordArt carrier has a tab stop whose position
    [float()] refuses, [parse_paragraph_props] raises on it, and so does
    [parse_paragraphs] on the whole part: no paragraph of the part is
    recorded. *)
Theorem malformed_tab_aborts (root : elem) (part : string) (out : list paragraph)
    (p pPr tab : elem) :
  In p (findall [Desc (qn "w" "p")] root) ->
  is_wordart_carrier p = false ->
  find [Child (qn "w" "pPr")] p = Some pPr ->
  In tab (findall [Child (qn "w" "tabs"); Child (qn "w" "tab")] pPr) ->
  returns (py_float (Some (get_default (attrib tab) (qn "w" "pos") "0"))) = false ->
  returns (parse_paragraph_props p) = false
  /\ returns (parse_paragraphs root part out) = false.
Proof.
  intros Hp Hc HpPr Htab Hpos.
  assert (Hprops : returns (parse_paragraph_props p) = false).
  { unfold parse_paragraph_props. change (w "pPr") with (qn "w" "pPr"). rewrite HpPr.
    destruct (match find [Child (w "spacing")] pPr with
              | Some sp => _
              | None => _
              end) as [out2 | e]; cbn [bind]; [ | reflexivity ].
    destruct (match find [Child (w "ind")] pPr with
              | Some ind => _
              | None => _
              end) as [out3 | e]; cbn [bind]; [ | reflexivity ].
    change (w "tabs") with (qn "w" "tabs"). change (w "tab") with (qn "w" "tab").
    assert (Ht : returns (map_exc parse_tab
                            (findall [Child (qn "w" "tabs"); Child (qn "w" "tab")] pPr))
                 = false).
    { apply (map_exc_raises parse_tab _ tab Htab). unfold parse_tab.
      change (w "pos") with (qn "w" "pos").
      now destruct (py_float _). }
    now destruct (map_exc parse_tab _). }
  split; [ exact Hprops | ].
  unfold parse_paragraphs. change (w "p") with (qn "w" "p").
  destruct (In_enumerate _ 1 p Hp) as (k & Hk).
  apply (for_each_raises _ _ (k, p) Hk). intros s.
  unfold parse_paragraph. rewrite Hc.
  destruct (map_exc run_of _) as [runs | e]; cbn [bind]; [ | reflexivity ].
  destruct (Merge.merge_runs runs) as [runs' | e]; cbn [bind]; [ | reflexivity ].
  now destruct (parse_paragraph_props p).
Qed.

End ParagraphFurther.

(** X10 on [tabbed_part "center"]: the paragraph "Hello" is lost. *)
Lemma malformed_tab_aborts_witness :
  returns (ParagraphParser.parse_paragraphs (tabbed_part "center") "word/document.xml" [])
  = false
  /\ (ps <- ParagraphParser.parse_paragraphs (tabbed_part "720") "word/document.xml" [] ;;
      Val (map p_text ps)) = Val ["Hello"].
Proof.
  split; [ | vm_compute; reflexivity ].
  apply (malformed_tab_aborts (tabbed_part "center") "word/document.xml" []
           (nth 0 (findall [Desc (qn "w" "p")] (tabbed_part "center")) (tabbed_part "center"))
           (node (qn "w" "pPr")
                 [ node (qn "w" "tabs")
                        [ Elem (qn "w" "tab") [(qn "w" "pos", "center")] None [] ] ])
           (Elem (qn "w" "tab") [(qn "w" "pos", "center")] None [])).
  - vm_compute. now left.
  - reflexivity.
  - reflexivity.
  - vm_compute. now left.
  - reflexivity.
Defined.

(** ** [ImageParser]: which pictures are reported *)

Section ImageProperties.

Import ImageParser.

Lemma emu_entry_returns (key : string) (v : option string) (geom : list (string * pyobj)) :
  exists g, emu_entry key v geom = Val g.
Proof.
  unfold emu_entry. destruct (otruthy v); [ | now eexists ].
  rewrite emu_to_cm_spec. cbn [bind]. now eexists.
Qed.

Lemma geometry_returns (drawing : elem) :
  exists g, _extract_geometry_info drawing = Val g.
Proof.
  unfold _extract_geometry_info.
  destruct (find [Desc (qn "wp" "extent")] drawing) as [extent | ]; cbn [bind].
  - destruct (emu_entry_returns "寬_cm" (get (attrib extent) "cx") []) as (g & ->).
    cbn [bind].
    destruct (emu_entry_returns "高_cm" (get (attrib extent) "cy") g) as (g' & ->).
    cbn [bind]. now eexists.
  - now eexists.
Qed.

(** The first path of [_parse_image_properties] does not compile. *)
Lemma image_properties_raise (drawing : elem) :
  _parse_image_properties drawing = Raise Exception.
Proof. reflexivity. Qed.

Lemma drawing_element_outcome (drawing : elem) (part : string) (idx : nat) :
  _parse_drawing_element drawing part idx = Val None
  \/ _parse_drawing_element drawing part idx = Raise Exception.
Proof.
  unfold _parse_drawing_element.
  destruct (find [Desc (qn "a" "blip")] drawing) as [blip | ]; [ | now left ].
  destruct (get (attrib blip) (qn "r" "embed")) as [embed_id | ]; [ | now left ].
  destruct (truthy embed_id); [ | now left ].
  destruct (geometry_returns drawing) as (g & ->). right. reflexivity.
Qed.

Lemma drawings_keep_nothing (part : string) (l : list (nat * elem)) (acc : list image) :
  fold_left (fun acc id => keep acc (_parse_drawing_element (snd id) part (fst id))) l acc
  = acc.
Proof.
  revert acc. induction l as [ | [idx d] l IH]; intros acc; [ reflexivity | ].
  cbn [fold_left fst snd].
  destruct (drawing_element_outcome d part idx) as [-> | ->]; cbn [keep]; apply IH.
Qed.

Lemma picts_keep (part : string) (l : list (nat * elem)) (acc : list image) :
  fold_left (fun acc ip => keep acc (_parse_vml_element (snd ip) part (fst ip))) l acc
  = acc ++ flat_map (fun ip => match _parse_vml_element (snd ip) part (fst ip) with
                               | Val (Some image_info) => [image_info]
                               | _ => []
                               end) l.
Proof.
  revert acc. induction l as [ | [idx d] l IH]; intros acc.
  - now rewrite app_nil_r.
  - cbn [fold_left flat_map fst snd]. rewrite IH.
    destruct (_parse_vml_element d part idx) as [[i | ] | e]; cbn [keep app].
    + now rewrite <- app_assoc.
    + reflexivity.
    + reflexivity.
Qed.

Lemma vml_element_kind (pict : elem) (part : string) (idx : nat) (i : image) :
  _parse_vml_element pict part idx = Val (Some i) ->
  i_kind i = "VML" /\ i_index i = idx /\ i_source i = part.
Proof.
  unfold _parse_vml_element.
  destruct (find [Desc (qn "v" "shape")] pict) as [shape | ]; [ | discriminate ].
  destruct (find [Desc (qn "v" "imagedata")] shape) as [imagedata | ]; [ | discriminate ].
  destruct (get (attrib imagedata) (qn "r" "id")) as [embed_id | ]; [ | discriminate ].
  destruct (truthy embed_id); [ | discriminate ].
  destruct (_extract_vml_geometry shape) as [g | e]; cbn [bind]; [ | discriminate ].
  destruct (_parse_vml_style shape) as [st | e]; cbn [bind]; [ | discriminate ].
  intros [= <-]. now repeat split.
Qed.

(** X11.  [parse_images] never reports a DrawingML picture.  The paths of
    [_parse_image_properties] use the prefix [pic], which the namespace
    table does not hold, so the function raises on every drawing; a drawing
    thus gives [None] (no embedded picture) or an exception, and
    [parse_images] drops both.  What it returns are the VML pictures alone,
    numbered from 1 by the position of their [w:pict] element. *)
Theorem drawingml_images_never_reported (root : elem) (part : string) :
  (forall (drawing : elem) (idx : nat),
      _parse_image_properties drawing = Raise Exception
      /\ (_parse_drawing_element drawing part idx = Val None
          \/ _parse_drawing_element drawing part idx = Raise Exception))
  /\ parse_images root part = vml_images root part
  /\ Forall (fun i => i_kind i = "VML" /\ i_source i = part) (parse_images root part).
Proof.
  assert (E : parse_images root part = vml_images root part).
  { unfold parse_images, vml_images. rewrite drawings_keep_nothing.
    cbn [List.length Nat.add]. now rewrite picts_keep. }
  split; [ | split; [ exact E | ] ].
  - intros drawing idx. split; [ reflexivity | apply drawing_element_outcome ].
  - rewrite E. unfold vml_images. apply Forall_flat_map, Forall_forall.
    intros [idx pict] _. cbn [fst snd].
    destruct (_parse_vml_element pict part idx) as [[i | ] | e] eqn:Hi;
      [ | constructor | constructor ].
    constructor; [ | constructor ].
    destruct (vml_element_kind pict part idx i Hi) as (Hk & _ & Hs). now split.
Qed.

Lemma split_on_length (sep : ascii) (l : list ascii) :
  List.length (split_on sep l) = S (count_occ ascii_dec l sep).
Proof.
  induction l as [ | c l IH]; [ reflexivity | ].
  cbn [split_on count_occ].
  destruct (Ascii.eqb_spec c sep) as [-> | Hne].
  - destruct (ascii_dec sep sep) as [_ | Hn]; [ | contradiction ].
    cbn [List.length]. now rewrite IH.
  - destruct (ascii_dec c sep) as [E | _]; [ contradiction | ].
    destruct (split_on sep l) as [ | h t]; [ discriminate | ]. exact IH.
Qed.

Lemma has_char_count (c : ascii) (s : string) :
  (0 < count_occ ascii_dec (list_ascii_of_string s) c)%nat -> has_char c s = true.
Proof.
  unfold has_char. intros H. apply count_occ_In in H.
  apply existsb_exists. exists c. split; [ exact H | apply Ascii.eqb_refl ].
Qed.

Lemma style_dict_raises (style item : string) :
  In item (split ";" style) ->
  (2 <= count_occ ascii_dec (list_ascii_of_string item) ":"%char)%nat ->
  style_dict style = Raise ValueError.
Proof.
  intros Hin Hc. unfold style_dict. generalize (@nil (string * string)).
  induction (split ";" style) as [ | it l IH]; [ contradiction | ]. intros d.
  cbn [for_each].
  assert (Hbad : forall d0 : list (string * string),
             (if has_char ":" item
              then match split ":" item with
                   | [k; v] => Val (dict_set d0 k v)
                   | _ => Raise ValueError
                   end
              else Val d0) = Raise ValueError).
  { intros d0. rewrite has_char_count by lia.
    pose proof (split_on_length ":" (list_ascii_of_string item)) as Hl.
    unfold split. destruct (split_on ":" (list_ascii_of_string item)) as [ | a [ | b [ | c r]]];
      cbn [List.length map] in *; try reflexivity; lia. }
  destruct Hin as [-> | Hin]; [ now rewrite Hbad | ].
  destruct (has_char ":" it).
  - destruct (split ":" it) as [ | k [ | v [ | x r]]]; cbn [bind]; try reflexivity.
    now apply IH.
  - cbn [bind]. now apply IH.
Qed.

(** X12.  The style of a VML shape is cut at [;] and each item at [:]; an
    item with two colons or more (a URL, say) is no key-value pair, and the
    picture of the shape is lost: [_parse_vml_element] raises [ValueError]
    although the shape holds an embedded picture, and [parse_images] leaves
    the picture out. *)
Theorem vml_style_item_with_colons (pict shape imagedata : elem) (part rel item : string)
    (idx : nat) :
  find [Desc (qn "v" "shape")] pict = Some shape ->
  find [Desc (qn "v" "imagedata")] shape = Some imagedata ->
  get (attrib imagedata) (qn "r" "id") = Some rel -> truthy rel = true ->
  In item (split ";" (get_default (attrib shape) "style" "")) ->
  (2 <= count_occ ascii_dec (list_ascii_of_string item) ":"%char)%nat ->
  _parse_vml_element pict part idx = Raise ValueError
  /\ forall images, keep images (_parse_vml_element pict part idx) = images.
Proof.
  intros Hs Hi Hr Ht Hin Hc.
  assert (E : _parse_vml_element pict part idx = Raise ValueError).
  { unfold _parse_vml_element. rewrite Hs, Hi, Hr, Ht.
    unfold _extract_vml_geometry.
    destruct (get_default (attrib shape) "style" "") as [ | c0 s0] eqn:Hst.
    - cbn in Hin. destruct Hin as [<- | []]. cbn in Hc. lia.
    - cbn [truthy]. now rewrite (style_dict_raises _ item Hin Hc). }
  split; [ exact E | ]. intros images. now rewrite E.
Qed.

End ImageProperties.

(** X12 on the VML picture of [pictures_part] with a background URL in its
    style; with a plain style the picture is reported, the DrawingML
    picture of the part never. *)
Lemma vml_style_item_with_colons_witness :
  ImageParser.parse_images (pictures_part "width:10pt;background:url(http://x)")
                           "word/document.xml" = []
  /\ map (fun i => (i_index i, i_kind i, i_rel i, i_geometry i))
         (ImageParser.parse_images (pictures_part "width:10pt;height:5pt")
                                   "word/document.xml")
     = [(1%nat, "VML", "rId7", PDict [("寬度", PStr "10pt"); ("高度", PStr "5pt")])].
Proof.
  split; [ | vm_compute; reflexivity ].
  assert (H := vml_style_item_with_colons
                 (node (qn "w" "pict")
                       [ Elem (qn "v" "shape")
                              [("style", "width:10pt;background:url(http://x)")] None
                              [ Elem (qn "v" "imagedata") [(qn "r" "id", "rId7")] None [] ] ])
                 (Elem (qn "v" "shape")
                       [("style", "width:10pt;background:url(http://x)")] None
                       [ Elem (qn "v" "imagedata") [(qn "r" "id", "rId7")] None [] ])
                 (Elem (qn "v" "imagedata") [(qn "r" "id", "rId7")] None [])
                 "word/document.xml" "rId7" "background:url(http://x)" 1%nat
                 eq_refl eq_refl eq_refl eq_refl).
  destruct H as (_ & Hkeep).
  - vm_compute. right. now left.
  - vm_compute. lia.
  - rewrite (proj1 (proj2 (drawingml_images_never_reported _ _))).
    unfold vml_images.
    change (ParagraphParser.enumerate 1
              (findall [Desc (qn "w" "pict")]
                       (pictures_part "width:10pt;background:url(http://x)")))
      with [(1%nat,
             node (qn "w" "pict")
                  [ Elem (qn "v" "shape")
                         [("style", "width:10pt;background:url(http://x)")] None
                         [ Elem (qn "v" "imagedata") [(qn "r" "id", "rId7")] None [] ] ])].
    cbn [flat_map fst snd]. specialize (Hkeep []). unfold ImageParser.keep in Hkeep.
    destruct (ImageParser._parse_vml_element _ _ _) as [[i | ] | e];
      [ discriminate | reflexivity | reflexivity ].
Defined.

(** ** [TableParser]: which tables are reported, and their counts *)

Section TableProperties.

Import TableParser.

Lemma map_exc_Forall2 {A B : Type} (f : A -> exc B) (l : list A) (ys : list B) :
  map_exc f l = Val ys -> Forall2 (fun x y => f x = Val y) l ys.
Proof.
  revert ys. induction l as [ | x l IH]; intros ys; cbn [map_exc].
  - intros [= <-]. constructor.
  - destruct (f x) as [y | e] eqn:E; cbn [bind]; [ | discriminate ].
    destruct (map_exc f l) as [ys' | e]; cbn [bind]; [ | discriminate ].
    intros [= <-]. constructor; [ exact E | now apply IH ].
Qed.

Lemma enumerate_length {A : Type} (l : list A) (start : nat) :
  List.length (ParagraphParser.enumerate start l) = List.length l.
Proof.
  revert start. induction l as [ | x l IH]; intros start; [ reflexivity | ].
  cbn [ParagraphParser.enumerate List.length]. now rewrite IH.
Qed.

Lemma enumerate_snd {A : Type} (l : list A) (start : nat) :
  map snd (ParagraphParser.enumerate start l) = l.
Proof.
  revert start. induction l as [ | x l IH]; intros start; [ reflexivity | ].
  cbn [ParagraphParser.enumerate map snd]. now rewrite IH.
Qed.

(** The rows of the table data have the cells of the rows of the table. *)
Lemma table_data_shape (rows : list elem) (data : list (list cell_info)) :
  _extract_table_data rows = Val data ->
  map (@List.length _) data
  = map (fun row => List.length (findall [Desc (qn "w" "tc")] row)) rows.
Proof.
  unfold _extract_table_data. intros H. apply map_exc_Forall2 in H.
  assert (E : map (fun row => List.length (findall [Desc (qn "w" "tc")] row)) rows
              = map (fun ir : nat * elem =>
                       List.length (findall [Desc (qn "w" "tc")] (snd ir)))
                    (ParagraphParser.enumerate 0 rows)).
  { rewrite <- (enumerate_snd rows 0) at 1. now rewrite map_map. }
  rewrite E. clear E.
  induction H as [ | [i row] cells l ls Hrow _ IH]; [ reflexivity | ].
  cbn [map snd]. rewrite IH. f_equal.
  apply map_exc_Forall2 in Hrow. apply Forall2_length in Hrow.
  now rewrite enumerate_length in Hrow.
Qed.

Lemma count_cells (row : list cell_info) (total empty len filled : nat) :
  exists len' filled' empty',
    fold_left count_cell row (total, empty, len, filled)
    = ((total + List.length row)%nat, empty', len', filled')
    /\ (empty' + filled' = empty + filled + List.length row)%nat.
Proof.
  revert total empty len filled.
  induction row as [ | c row IH]; intros total empty len filled.
  - exists len, filled, empty. split; [ now rewrite Nat.add_0_r | cbn; lia ].
  - cbn [fold_left count_cell List.length]. destruct (ci_empty c).
    + destruct (IH (total + 1) (empty + 1) len filled)%nat as (l' & f' & e' & -> & H).
      exists l', f', e'. split; [ f_equal; f_equal; f_equal; lia | lia ].
    + destruct (IH (total + 1) empty (len + ci_length c) (filled + 1))%nat
        as (l' & f' & e' & -> & H).
      exists l', f', e'. split; [ f_equal; f_equal; f_equal; lia | lia ].
Qed.

Lemma count_rows (data : list (list cell_info)) (total empty len filled : nat) :
  exists len' filled' empty',
    fold_left (fun st row => fold_left count_cell row st) data (total, empty, len, filled)
    = ((total + list_sum (map (@List.length _) data))%nat, empty', len', filled')
    /\ (empty' + filled' = empty + filled + list_sum (map (@List.length _) data))%nat.
Proof.
  revert total empty len filled.
  induction data as [ | row data IH]; intros total empty len filled.
  - exists len, filled, empty. cbn. split; [ now rewrite Nat.add_0_r | lia ].
  - cbn [fold_left map].
    destruct (count_cells row total empty len filled) as (l1 & f1 & e1 & -> & H1).
    destruct (IH (total + List.length row)%nat e1 l1 f1) as (l2 & f2 & e2 & -> & H2).
    exists l2, f2, e2. unfold list_sum in *. cbn [fold_right].
    split; [ f_equal; f_equal; f_equal; lia | lia ].
Qed.

(** The counters of the statistics: every cell is counted once, as empty
    or as holding text. *)
Lemma table_content_counts (data : list (list cell_info)) (st : content_stats) :
  _analyze_table_content data = Val st ->
  total_cells st = list_sum (map (@List.length _) data)
  /\ (empty_cells st + text_cells st)%nat = total_cells st.
Proof.
  unfold _analyze_table_content.
  destruct (count_rows data 0 0 0 0) as (len & filled & empty & -> & H).
  destruct (if Nat.ltb 0 filled then _ else _) as [average | e]; cbn [bind];
    [ | discriminate ].
  destruct (if Nat.ltb 0 _ then _ else _) as [rate | e]; cbn [bind]; [ | discriminate ].
  intros [= <-]. cbn [total_cells empty_cells text_cells]. split; lia.
Qed.

Lemma single_table_reports (tbl : elem) (part : string) (idx : nat) (t : table_info) :
  _parse_single_table tbl part idx = Val (Some t) -> reports part idx tbl t.
Proof.
  unfold _parse_single_table, reports, cells_per_row. change (w "tr") with (qn "w" "tr").
  destruct (findall [Desc (qn "w" "tr")] tbl) as [ | row rows] eqn:Hrows; [ discriminate | ].
  destruct (_extract_table_data (row :: rows)) as [data | e] eqn:Hd; cbn [bind];
    [ | discriminate ].
  destruct (_parse_table_properties tbl) as [props | e]; cbn [bind]; [ | discriminate ].
  destruct (_analyze_table_content data) as [st | e] eqn:Hst; cbn [bind]; [ | discriminate ].
  intros [= <-]. cbn [t_source t_index t_rows t_cols t_cells t_data t_stats].
  apply table_data_shape in Hd. destruct (table_content_counts data st Hst) as (Ht & He).
  rewrite Ht, Hd in *. repeat split; try reflexivity; try assumption.
  cbn [List.length]. lia.
Qed.

Lemma tables_loop (part : string) (l : list (nat * elem)) (acc : list table_info) :
  fold_left (fun tables it =>
               match _parse_single_table (snd it) part (fst it) with
               | Val (Some table_info) => tables ++ [table_info]
               | _ => tables
               end) l acc
  = acc ++ flat_map (fun it => match _parse_single_table (snd it) part (fst it) with
                               | Val (Some table_info) => [table_info]
                               | _ => []
                               end) l.
Proof.
  revert acc. induction l as [ | [idx tbl] l IH]; intros acc.
  - now rewrite app_nil_r.
  - cbn [fold_left flat_map fst snd]. rewrite IH.
    destruct (_parse_single_table tbl part idx) as [[t | ] | e]; cbn [app].
    + now rewrite <- app_assoc.
    + reflexivity.
    + reflexivity.
Qed.

Lemma reported_sorted (part : string) (tbls : list elem) (start : nat) :
  let out := flat_map (fun it => match _parse_single_table (snd it) part (fst it) with
                                 | Val (Some table_info) => [table_info]
                                 | _ => []
                                 end) (ParagraphParser.enumerate start tbls) in
  StronglySorted lt (map t_index out)
  /\ Forall (fun t => exists tbl,
                 (start <= t_index t)%nat
                 /\ nth_error tbls (t_index t - start) = Some tbl
                 /\ reports part (t_index t) tbl t) out.
Proof.
  revert start. induction tbls as [ | tbl tbls IH]; intros start.
  - cbn. split; constructor.
  - cbn [ParagraphParser.enumerate flat_map fst snd]. cbv zeta.
    destruct (IH (S start)) as (Hs & Hf). cbv zeta in Hs, Hf.
    assert (Hrest : Forall (fun t => exists tbl0,
                       (start <= t_index t)%nat
                       /\ nth_error (tbl :: tbls) (t_index t - start) = Some tbl0
                       /\ reports part (t_index t) tbl0 t)
                      (flat_map (fun it => match _parse_single_table (snd it) part (fst it) with
                                           | Val (Some table_info) => [table_info]
                                           | _ => []
                                           end)
                                (ParagraphParser.enumerate (S start) tbls))).
    { revert Hf. apply Forall_impl. intros t (tbl0 & Hle & Hn & Hr).
      exists tbl0. split; [ lia | ]. split; [ | exact Hr ].
      replace (t_index t - start)%nat with (S (t_index t - S start)) by lia. exact Hn. }
    destruct (_parse_single_table tbl part start) as [[t | ] | e] eqn:E; cbn [app map].
    + pose proof (single_table_reports tbl part start t E) as Hr.
      assert (Hi : t_index t = start) by apply Hr.
      split.
      * constructor; [ exact Hs | ].
        rewrite Forall_map. revert Hf. apply Forall_impl.
        intros t' (tbl0 & Hle & _). lia.
      * constructor; [ | exact Hrest ].
        exists tbl. rewrite Hi, Nat.sub_diag. split; [ lia | ]. split; [ reflexivity | exact Hr ].
    + now split.
    + now split.
Qed.

(** X13.  [parse_tables] reports the tables of a part in document order,
    each under its 1-based position among all [w:tbl] elements of the part,
    so the numbers increase strictly and a table that is left out leaves a
    gap.  A table without rows is never reported.  For a reported table
    the row count is the number of [w:tr] elements below it (rows of nested
    tables included), the column count the number of cells below its first
    row, the cell total of the structure their product; the statistics
    count every cell below every row once, as empty or as holding text. *)
Theorem tables_reported (root : elem) (part : string) :
  StronglySorted lt (map t_index (parse_tables root part))
  /\ Forall (fun t => exists tbl,
                 (1 <= t_index t)%nat
                 /\ nth_error (findall [Desc (qn "w" "tbl")] root) (t_index t - 1) = Some tbl
                 /\ reports part (t_index t) tbl t)
            (parse_tables root part).
Proof.
  unfold parse_tables. rewrite tables_loop. cbn [app]. change (w "tbl") with (qn "w" "tbl").
  apply (reported_sorted part (findall [Desc (qn "w" "tbl")] root) 1).
Qed.

End TableProperties.

(** X13 on [nested_tables_part]: the table without rows is left out; the
    outer table is reported as number 2 with the three rows and cells found
    below it (its own and those of the nested table), hence as a table of
    nine cells, while its statistics count five; the nested table is
    number 3. *)
Lemma tables_reported_witness :
  map (fun t => (TableParser.t_index t, TableParser.t_rows t, TableParser.t_cols t,
                 TableParser.t_cells t,
                 TableParser.total_cells (TableParser.t_stats t),
                 TableParser.empty_cells (TableParser.t_stats t)))
      (TableParser.parse_tables nested_tables_part "word/document.xml")
  = [(2, 3, 3, 9, 5, 2); (3, 2, 1, 2, 2, 1)]%nat
  /\ StronglySorted lt
       (map TableParser.t_index (TableParser.parse_tables nested_tables_part
                                                         "word/document.xml")).
Proof.
  split; [ vm_compute; reflexivity | ].
  apply (proj1 (tables_reported nested_tables_part "word/document.xml")).
Defined.

(** ** [DocumentAnalyzer]: scores, effects and usage counts *)

Section ReportProperties.

Import DocumentAnalyzer.

Variables I T : Type.

Lemma flat_map_length_perm {A B : Type} (g : A -> list B) (l l' : list A) :
  Permutation l l' -> List.length (flat_map g l) = List.length (flat_map g l').
Proof.
  intros H. induction H; cbn [flat_map]; rewrite ?length_app; try lia.
Qed.

(** X14.  The quality score is bounded and consistent: the total never
    exceeds 100, the four dimension scores never exceed 30, 40, 20 and 10,
    and together they never exceed the total.  The scores do not depend on
    the order in which the set of fonts is iterated. *)
Theorem quality_score_bounds (ord : set_iteration) (d : data paragraph wordart I T) :
  let q := _calculate_document_quality ord d in
  (q_total q <= 100)%nat
  /\ (q_content q <= 30)%nat /\ (q_creative q <= 40)%nat
  /\ (q_visual q <= 20)%nat /\ (q_styles q <= 10)%nat
  /\ (q_content q + q_creative q + q_visual q + q_styles q <= q_total q)%nat
  /\ forall ord' : set_iteration, _calculate_document_quality ord' d = q.
Proof.
  cbv zeta. unfold _calculate_document_quality.
  cbn [q_total q_content q_creative q_visual q_styles].
  repeat split; try lia.
  intros ord'.
  assert (E : List.length (_extract_main_fonts ord' d)
              = List.length (_extract_main_fonts ord d)).
  { unfold _extract_main_fonts. apply flat_map_length_perm.
    eapply perm_trans; [ apply set_order_perm | apply Permutation_sym, set_order_perm ]. }
  now rewrite E.
Qed.

Lemma count_of_dict_set (d : list (string * nat)) (k k' : string) (v : nat) :
  count_of (dict_set d k v) k' = if String.eqb k k' then v else count_of d k'.
Proof.
  induction d as [ | [k0 v0] d IH]; cbn [dict_set count_of].
  - reflexivity.
  - destruct (String.eqb_spec k0 k) as [-> | Hne]; cbn [count_of].
    + now destruct (String.eqb k k').
    + rewrite IH. destruct (String.eqb_spec k0 k') as [-> | _]; [ | reflexivity ].
      destruct (String.eqb_spec k k') as [-> | _]; [ contradiction | reflexivity ].
Qed.

Lemma keys_dict_set_count (d : list (string * nat)) (k : string) (v : nat) :
  map fst (dict_set d k v) = CrossSource.set_add String.eqb (map fst d) k.
Proof.
  unfold CrossSource.set_add.
  induction d as [ | [k0 v0] d IH]; cbn [dict_set map fst existsb]; [ reflexivity | ].
  rewrite (String.eqb_sym k0 k).
  destruct (String.eqb k k0); cbn [map fst orb]; [ reflexivity | ].
  rewrite IH. now destruct (existsb (String.eqb k) (map fst d)).
Qed.

(** The counts after the uses [xs]: a histogram. *)
Lemma bump_all (xs : list string) (d : list (string * nat)) :
  map fst (fold_left bump xs d) = added String.eqb (map fst d) xs
  /\ forall c, count_of (fold_left bump xs d) c
               = (count_of d c + count_occ string_dec xs c)%nat.
Proof.
  revert d. induction xs as [ | x xs IH]; intros d.
  - split; [ reflexivity | intros c; cbn; lia ].
  - cbn [fold_left]. destruct (IH (bump d x)) as (Hk & Hc). split.
    + rewrite Hk. unfold bump. now rewrite keys_dict_set_count.
    + intros c. rewrite Hc. unfold bump. rewrite count_of_dict_set. cbn [count_occ].
      destruct (String.eqb_spec x c) as [-> | Hne].
      * destruct (string_dec c c) as [_ | Hn]; [ lia | contradiction ].
      * destruct (string_dec x c) as [E | _]; [ contradiction | lia ].
Qed.

Lemma bump_truthy_values (vs : list (option string)) (d : list (string * nat)) :
  fold_left bump_truthy vs d = fold_left bump (truthy_values vs) d.
Proof.
  revert d. induction vs as [ | [x | ] vs IH]; intros d; [ reflexivity | | ].
  - cbn [fold_left bump_truthy]. unfold truthy_values. cbn [flat_map].
    fold (truthy_values vs). destruct (truthy x); cbn [app fold_left]; apply IH.
  - cbn [fold_left bump_truthy]. apply IH.
Qed.

Lemma fold_bump_app (l1 l2 : list string) (d : list (string * nat)) :
  fold_left bump (l1 ++ l2) d = fold_left bump l2 (fold_left bump l1 d).
Proof. apply fold_left_app. Qed.

Lemma font_usage_fold (d : data paragraph wordart I T) :
  _analyze_font_usage d = fold_left bump (used_fonts d) [].
Proof.
  unfold _analyze_font_usage, used_fonts. generalize (@nil (string * nat)).
  induction (paragraphs_of d) as [ | para ps IH]; intros acc; [ reflexivity | ].
  cbn [fold_left flat_map]. rewrite fold_bump_app, IH. f_equal.
  generalize acc. clear. induction (p_runs para) as [ | r rs IH]; intros acc;
    [ reflexivity | ].
  cbn [fold_left flat_map]. rewrite fold_bump_app, IH. f_equal.
  rewrite bump_truthy_values. unfold run_fonts, font_values.
  now destruct (fonts (run_style r)).
Qed.

Lemma color_usage_fold (d : data paragraph wordart I T) :
  _analyze_color_usage d = fold_left bump (used_colors d) [].
Proof.
  unfold _analyze_color_usage, used_colors. rewrite fold_bump_app.
  assert (E1 : forall acc : list (string * nat),
             fold_left (fun color_count para =>
                          fold_left (fun color_count r =>
                                       bump_truthy color_count (color (run_style r)))
                                    (p_runs para) color_count)
                       (paragraphs_of d) acc
             = fold_left bump (flat_map (fun para => flat_map run_colors (p_runs para))
                                        (paragraphs_of d)) acc).
  { induction (paragraphs_of d) as [ | para ps IH]; intros acc; [ reflexivity | ].
    cbn [fold_left flat_map]. rewrite fold_bump_app, IH. f_equal.
    generalize acc. clear. induction (p_runs para) as [ | r rs IH]; intros acc;
      [ reflexivity | ].
    cbn [fold_left flat_map]. rewrite fold_bump_app, IH. f_equal.
    unfold run_colors. now rewrite <- bump_truthy_values. }
  rewrite E1. generalize (fold_left bump
                            (flat_map (fun para => flat_map run_colors (p_runs para))
                                      (paragraphs_of d)) []).
  induction (wordarts_of d) as [ | wa ws IH]; intros acc; [ reflexivity | ].
  cbn [fold_left flat_map]. rewrite fold_bump_app, IH. f_equal.
  destruct (wa_style wa) as [st | ]; [ | reflexivity ].
  now rewrite <- bump_truthy_values.
Qed.

(** X15.  The usage statistics are histograms.  The dictionary of
    [_analyze_color_usage] has one key per color in use, in the order of
    first use, and the count under a color is the number of its uses: the
    runs with that color plus the WordArt elements whose style has it as fill
    color; a color that is not in use reads as 0.  The same holds of
    [_analyze_font_usage] for the font names in the font slots of the
    runs. *)
Theorem usage_counts (d : data paragraph wordart I T) :
  map fst (_analyze_color_usage d) = added String.eqb [] (used_colors d)
  /\ (forall c, count_of (_analyze_color_usage d) c
                = count_occ string_dec (used_colors d) c)
  /\ map fst (_analyze_font_usage d) = added String.eqb [] (used_fonts d)
  /\ (forall f, count_of (_analyze_font_usage d) f
                = count_occ string_dec (used_fonts d) f).
Proof.
  rewrite color_usage_fold, font_usage_fold.
  destruct (bump_all (used_colors d) []) as (Hk & Hc).
  destruct (bump_all (used_fonts d) []) as (Hk' & Hc').
  repeat split; assumption.
Qed.

End ReportProperties.

Section EffectProperties.

Import DocumentAnalyzer DrawingParser.

Lemma plain_element_effects (wa : wordart) (g : list (string * pyobj)) :
  wa_style wa = None -> wa_geometry wa = PDict g -> obj_get g "旋轉度" = None ->
  _describe_wordart_effects wa = Val ["基本效果"].
Proof.
  intros Hs Hg Hr. unfold _describe_wordart_effects. now rewrite Hs, Hg, Hr.
Qed.

Lemma text_effect_effects (te : elem) (part : string) :
  _describe_wordart_effects (_parse_text_effect te part) = Val ["基本效果"].
Proof.
  unfold _parse_text_effect, _extract_warp.
  destruct (find [Desc (a "prstTxWarp")] te) as [prst | ];
    now eapply plain_element_effects.
Qed.

Lemma drawing_effects (shape : elem) (part : string) (wa : wordart) :
  _parse_w_drawing shape part = Val (Some wa) ->
  _describe_wordart_effects wa = Val ["基本效果"].
Proof.
  unfold _parse_w_drawing.
  destruct (find _ shape) as [txbx | ]; [ | discriminate ].
  destruct (truthy _); [ | discriminate ].
  destruct (_extract_size txbx) as [size | e]; cbn [bind]; [ | discriminate ].
  intros [= <-]. unfold _extract_warp.
  destruct (find [Desc (a "prstTxWarp")] shape) as [prst | ];
    now eapply plain_element_effects.
Qed.

Lemma vml_effects (vshape : elem) (part : string) (wa : wordart) :
  _parse_vml_wordart vshape part = Val (Some wa) ->
  _describe_wordart_effects wa = Val ["基本效果"].
Proof.
  unfold _parse_vml_wordart.
  destruct (find _ vshape) as [textpath | ]; [ | discriminate ].
  destruct (_try_size _) as [size | e]; cbn [bind]; [ | discriminate ].
  intros [= <-].
  destruct (get (attrib vshape) "type") as [t | ]; now eapply plain_element_effects.
Qed.

Lemma yielded_Forall (f : elem -> exc (option wordart)) (P : wordart -> Prop)
    (l : list elem) :
  (forall x wa, f x = Val (Some wa) -> P wa) -> Forall P (yielded f l).
Proof.
  intros H. unfold yielded. apply Forall_flat_map, Forall_forall. intros x _.
  destruct (f x) as [[wa | ] | e] eqn:E; [ | constructor | constructor ].
  constructor; [ now apply (H x) | constructor ].
Qed.

(** X16.  [_describe_wordart_effects] never returns an empty list, and for
    the WordArt elements of [DrawingParser] it has one answer: whatever
    fill, outline or warp the parser recorded for an element (under
    ["填色"], ["輪廓"] and ["幾何"]), the description is the single entry
    "基本效果", because the description reads the key ["style"] and the
    rotation only. *)
Theorem parsed_wordart_effects (root : elem) (part : string) :
  (forall wa l, _describe_wordart_effects wa = Val l -> l = [] -> False)
  /\ exists ws,
       DrawingParser.parse root part [] = Val ws
       /\ Forall (fun wa => _describe_wordart_effects wa = Val ["基本效果"]) ws.
Proof.
  split.
  - intros wa l H ->. unfold _describe_wordart_effects in H.
    destruct (wa_geometry wa); cbn [bind] in H; try discriminate.
    destruct (_ ++ _) in H; discriminate.
  - rewrite drawing_parse_spec. eexists. split; [ reflexivity | ]. cbn [app].
    apply Forall_app. split; [ | apply Forall_app; split ].
    + apply Forall_map, Forall_forall. intros te _. apply text_effect_effects.
    + apply yielded_Forall. intros x wa. apply drawing_effects.
    + apply yielded_Forall. intros x wa. apply vml_effects.
Qed.

End EffectProperties.

Section MainFontProperties.

Import DocumentAnalyzer.

Lemma main_font_truthy (r : run) : truthy (main_font_of r) = true.
Proof.
  unfold main_font_of. destruct (fonts (run_style r)) as [f | ]; [ | reflexivity ].
  destruct (f_ascii f) as [x | ]; [ destruct (truthy x) eqn:E; [ exact E | ] | ];
    (destruct (f_hAnsi f) as [y | ]; [ destruct (truthy y) eqn:E'; [ exact E' | ] | ]);
    (destruct (f_eastAsia f) as [z | ]; [ destruct (truthy z) eqn:E''; [ exact E'' | ] | ]);
    reflexivity.
Qed.

Lemma main_fonts_all (l : list run) :
  flat_map (fun r => if truthy (main_font_of r) then [main_font_of r] else []) l
  = map main_font_of l.
Proof.
  induction l as [ | r l IH]; [ reflexivity | ].
  cbn [flat_map map]. now rewrite main_font_truthy, IH.
Qed.

(** The first maximum is an item of the dictionary, and no count is
    larger than its count. *)
Lemma first_max_spec (d : list (string * nat)) (kv : string * nat) :
  first_max d = Some kv -> In kv d /\ forall kv', In kv' d -> (snd kv' <= snd kv)%nat.
Proof.
  destruct d as [ | kv0 d]; [ discriminate | ]. cbn [first_max]. intros [= <-].
  assert (G : forall (l : list (string * nat)) (b : string * nat),
             let m := fold_left (fun best kv' => if Nat.ltb (snd best) (snd kv') then kv'
                                                 else best) l b in
             (m = b \/ In m l) /\ (snd b <= snd m)%nat
             /\ forall kv', In kv' l -> (snd kv' <= snd m)%nat).
  { induction l as [ | x l IH]; intros b; cbv zeta.
    - cbn. split; [ now left | ]. split; [ lia | contradiction ].
    - cbn [fold_left]. destruct (Nat.ltb_spec (snd b) (snd x)) as [Hlt | Hge].
      + destruct (IH x) as ([E | Hin] & Hle & Hall); cbv zeta in *.
        * split; [ right; left; now rewrite E | ]. split; [ lia | ].
          intros kv' [<- | H]; [ lia | now apply Hall ].
        * split; [ right; now right | ]. split; [ lia | ].
          intros kv' [<- | H]; [ lia | now apply Hall ].
      + destruct (IH b) as ([E | Hin] & Hle & Hall); cbv zeta in *.
        * split; [ now left | ]. split; [ lia | ].
          intros kv' [<- | H]; [ lia | now apply Hall ].
        * split; [ right; now right | ]. split; [ lia | ].
          intros kv' [<- | H]; [ lia | now apply Hall ]. }
  destruct (G d kv0) as ([E | Hin] & Hle & Hall); cbv zeta in *.
  - split; [ left; now rewrite E | ]. intros kv' [<- | H]; [ lia | now apply Hall ].
  - split; [ now right | ]. intros kv' [<- | H]; [ lia | now apply Hall ].
Qed.

Lemma count_of_In (d : list (string * nat)) (k : string) (v : nat) :
  NoDup (map fst d) -> In (k, v) d -> count_of d k = v.
Proof.
  induction d as [ | [k0 v0] d IH]; [ contradiction | ].
  cbn [map fst count_of In]. intros Hnd Hin. inversion Hnd as [ | ? ? Hk Hd]; subst.
  destruct Hin as [[= -> ->] | Hin]; [ now rewrite String.eqb_refl | ].
  destruct (String.eqb_spec k0 k) as [-> | _]; [ | now apply IH ].
  exfalso. apply Hk. apply in_map_iff. now exists (k, v).
Qed.

Lemma In_count_of (d : list (string * nat)) (k : string) :
  In k (map fst d) -> In (k, count_of d k) d.
Proof.
  induction d as [ | [k0 v0] d IH]; [ contradiction | ].
  cbn [map fst count_of In].
  destruct (String.eqb_spec k0 k) as [-> | Hne]; [ now left | ].
  intros [E | H]; [ contradiction | right; now apply IH ].
Qed.

(** X19.  The main font of a paragraph is a most frequent one.  Each run
    names one font, the first of its ascii, hAnsi and eastAsia slots that
    is set, or "預設" when none is; [_extract_main_font_in_paragraph]
    always returns, with "預設" for a paragraph without runs and otherwise
    with a font that some run names and that no other font outnumbers. *)
Theorem main_font_is_most_frequent (para : paragraph) :
  exists font,
    _extract_main_font_in_paragraph para = Val font
    /\ (p_runs para = [] -> font = "預設")
    /\ (p_runs para <> [] ->
        In font (map main_font_of (p_runs para))
        /\ forall other,
             (count_occ string_dec (map main_font_of (p_runs para)) other
              <= count_occ string_dec (map main_font_of (p_runs para)) font)%nat).
Proof.
  unfold _extract_main_font_in_paragraph. cbv zeta. rewrite main_fonts_all.
  destruct (p_runs para) as [ | r rs].
  - exists "預設". split; [ reflexivity | ]. split; [ reflexivity | now intros H ].
  - set (names := map main_font_of (r :: rs)).
    destruct (bump_all names []) as (Hk & Hc). cbn [map] in Hk.
    change (map main_font_of (r :: rs)) with names.
    assert (Hnd : NoDup (map fst (fold_left bump names []))).
    { rewrite Hk. apply added_NoDup. constructor. }
    destruct (first_max (fold_left bump names [])) as [[font v] | ] eqn:Em.
    + cbn [map] in names. fold names. exists font. split; [ reflexivity | ].
      split; [ discriminate | ]. intros _.
      destruct (first_max_spec _ _ Em) as (Hin & Hmax). cbn [snd] in Hmax.
      pose proof (count_of_In _ font v Hnd Hin) as Hv. rewrite Hc in Hv.
      cbn [count_of] in Hv.
      split.
      * assert (Hkey : In font (map fst (fold_left bump names []))).
        { apply in_map_iff. now exists (font, v). }
        rewrite Hk in Hkey. apply added_In in Hkey as [[] | Hkey]. exact Hkey.
      * intros other.
        destruct (in_dec string_dec other (map fst (fold_left bump names []))) as [Ho | Ho].
        -- specialize (Hmax _ (In_count_of _ other Ho)). cbn [snd] in Hmax.
           rewrite Hc in Hmax. cbn [count_of] in Hmax. lia.
        -- rewrite Hk in Ho.
           assert (Hn : ~ In other names).
           { intros H. apply Ho. apply added_In. now right. }
           apply (count_occ_not_In string_dec) in Hn. lia.
    + exfalso. unfold names in Em. cbn [map fold_left] in Em.
      destruct (fold_left bump (map main_font_of rs) (bump [] (main_font_of r)))
        as [ | kv d] eqn:Ed; [ | discriminate ].
      destruct (bump_all (map main_font_of rs) (bump [] (main_font_of r))) as (Hk' & _).
      rewrite Ed in Hk'. cbn [map] in Hk'.
      assert (Hin : In (main_font_of r)
                       (added String.eqb [main_font_of r] (map main_font_of rs))).
      { apply added_In. left. now left. }
      unfold bump in Hk'. cbn [dict_set map fst] in Hk'. rewrite <- Hk' in Hin.
      contradiction.
Qed.

End MainFontProperties.

(** X19 on [four_fonts]: Times and Arial are named twice each, and the
    font met first is returned. *)
Lemma main_font_is_most_frequent_witness :
  DocumentAnalyzer._extract_main_font_in_paragraph four_fonts = Val "Times"
  /\ exists font,
       DocumentAnalyzer._extract_main_font_in_paragraph four_fonts = Val font
       /\ In font (map DocumentAnalyzer.main_font_of (p_runs four_fonts)).
Proof.
  split; [ vm_compute; reflexivity | ].
  destruct (main_font_is_most_frequent four_fonts) as (font & E & _ & H).
  exists font. split; [ exact E | ]. apply H. discriminate.
Defined.

(** X15 on a summary with [three_runs] and [red_wordart]: red is counted
    three times, blue once, green never. *)
Lemma usage_counts_witness :
  let d := DocumentAnalyzer.Data (Some [three_runs]) (Some [red_wordart])
                                  (@None (list pyobj)) (@None (list pyobj)) in
  DocumentAnalyzer._analyze_color_usage d = [("#FF0000", 3%nat); ("#0000FF", 1%nat)]
  /\ DocumentAnalyzer.count_of (DocumentAnalyzer._analyze_color_usage d) "#00FF00"
     = count_occ string_dec (used_colors d) "#00FF00".
Proof.
  cbv zeta. split; [ vm_compute; reflexivity | ].
  apply (usage_counts pyobj pyobj).
Defined.

(** ** Where the elements of a summary come from *)

Section SourceProperties.

Import DocParser CrossSource.

Variable fromstring : string -> exc elem.
Variables parse_tables parse_images : elem -> string -> list pyobj.
Variable ord : set_iteration.

Lemma part_root_In (members : list (string * string)) (name : string) (root : elem) :
  In name (map fst members) -> part_root fromstring members name = Some root ->
  In (name, root) (parsed_parts fromstring members).
Proof.
  intros Hin Hr. unfold parsed_parts. apply in_flat_map. exists name.
  split; [ exact Hin | ]. rewrite Hr. now left.
Qed.

Lemma parsed_wordart_source (root : elem) (part : string) (out ws : list wordart) :
  DrawingParser.parse root part out = Val ws ->
  exists news, ws = out ++ news /\ Forall (fun wa => wa_source wa = part) news.
Proof.
  rewrite drawing_parse_spec. intros [= <-]. eexists. split; [ reflexivity | ].
  apply Forall_app. split; [ | apply Forall_app; split ].
  - apply Forall_map, Forall_forall. now intros te _.
  - apply yielded_Forall. intros x wa. unfold DrawingParser._parse_w_drawing.
    destruct (find _ x) as [txbx | ]; [ | discriminate ].
    destruct (truthy _); [ | discriminate ].
    destruct (DrawingParser._extract_size txbx) as [size | e]; cbn [bind]; [ | discriminate ].
    now intros [= <-].
  - apply yielded_Forall. intros x wa. unfold DrawingParser._parse_vml_wordart.
    destruct (find _ x) as [textpath | ]; [ | discriminate ].
    destruct (DrawingParser._try_size _) as [size | e]; cbn [bind]; [ | discriminate ].
    now intros [= <-].
Qed.

Lemma Forall2_In_r {A B : Type} (R : A -> B -> Prop) (l : list A) (l' : list B) :
  Forall2 R l l' -> Forall (fun y => exists x, In x l /\ R x y) l'.
Proof.
  induction 1 as [ | x y l l' Hxy _ IH]; constructor.
  - exists x. split; [ now left | exact Hxy ].
  - revert IH. apply Forall_impl. intros y' (x' & Hin & Hr). exists x'.
    split; [ now right | exact Hr ].
Qed.

(** What one part adds to the summary. *)
Lemma process_part_sources (members : list (string * string)) (n : string)
    (out out1 : summary) :
  In n (map fst members) ->
  process_part fromstring parse_tables parse_images members out n = Val out1 ->
  exists ps ws,
    s_paragraphs out1 = s_paragraphs out ++ ps
    /\ s_wordart out1 = s_wordart out ++ ws
    /\ Forall (comes_from (parsed_parts fromstring members)) ps
    /\ Forall (fun wa => exists root,
                   In (wa_source wa, root) (parsed_parts fromstring members)) ws.
Proof.
  intros Hin E1.
  assert (Hsame : out1 = out -> exists ps ws,
             s_paragraphs out1 = s_paragraphs out ++ ps
             /\ s_wordart out1 = s_wordart out ++ ws
             /\ Forall (comes_from (parsed_parts fromstring members)) ps
             /\ Forall (fun wa => exists root,
                            In (wa_source wa, root) (parsed_parts fromstring members)) ws).
  { intros ->. exists [], []. rewrite !app_nil_r. repeat split; constructor. }
  unfold process_part in E1.
  pose proof (part_root_In members n) as Hroot. unfold part_root in Hroot.
  destruct (eligible n); cbn [negb] in E1; [ | apply Hsame; now injection E1 ].
  destruct (get_xml fromstring members n) as [[root | ] | e]; cbn [bind] in E1;
    [ | apply Hsame; now injection E1 | discriminate ].
  specialize (Hroot root Hin eq_refl). clear Hsame.
  destruct (ParagraphParser.parse_paragraphs root n (s_paragraphs out)) as [ps | e] eqn:Eps;
    cbn [bind] in E1; [ | discriminate ].
  destruct (DrawingParser.parse root n (s_wordart out)) as [ws | e] eqn:Ews;
    cbn [bind] in E1; [ | discriminate ].
  destruct (parse_paragraphs_spec root n _ ps Eps) as (news & -> & F).
  destruct (parsed_wordart_source root n _ ws Ews) as (neww & -> & G).
  exists news, neww.
  assert (Hp : s_paragraphs out1 = s_paragraphs out ++ news
               /\ s_wordart out1 = s_wordart out ++ neww).
  { injection E1 as <-.
    unfold parse_all_images_in_document, parse_all_tables_in_document.
    destruct (parse_tables root n), (parse_images root n); now split. }
  destruct Hp as (Hp & Hw). split; [ exact Hp | ]. split; [ exact Hw | ]. split.
  - apply Forall2_In_r in F. revert F. apply Forall_impl.
    intros para (ip & Hip & Hs & Hi & Ht & _). exists root, ip. rewrite Hs.
    now repeat split.
  - revert G. apply Forall_impl. intros wa ->. now exists root.
Qed.

Lemma process_loop_sources (members : list (string * string)) (names : list string)
    (out out' : summary) :
  (forall n, In n names -> In n (map fst members)) ->
  for_each (process_part fromstring parse_tables parse_images members) names out = Val out' ->
  Forall (comes_from (parsed_parts fromstring members)) (s_paragraphs out) ->
  Forall (fun wa => exists root, In (wa_source wa, root) (parsed_parts fromstring members))
         (s_wordart out) ->
  Forall (comes_from (parsed_parts fromstring members)) (s_paragraphs out')
  /\ Forall (fun wa => exists root, In (wa_source wa, root) (parsed_parts fromstring members))
            (s_wordart out').
Proof.
  revert out. induction names as [ | n names IH]; intros out Hnames.
  - cbn. intros [= <-]. now split.
  - cbn [for_each].
    destruct (process_part _ _ _ members out n) as [out1 | e] eqn:E1; cbn [bind];
      [ | discriminate ].
    intros Hrest HP HW.
    destruct (process_part_sources members n out out1 (Hnames n (or_introl eq_refl)) E1)
      as (ps & ws & Hp & Hw & Fp & Fw).
    apply (IH out1); [ intros m Hm; apply Hnames; now right | exact Hrest | | ].
    + rewrite Hp. apply Forall_app. now split.
    + rewrite Hw. apply Forall_app. now split.
Qed.

(** X17.  Every element of a summary can be traced to a member that the
    analyzer read.  Each paragraph comes from a paragraph node, no WordArt
    carrier, of such a part: it carries the name of the part as source, the
    1-based position of the node among the paragraph nodes of the part as
    number, and the stripped text of the node; the second merge pass
    leaves these three untouched.  The source of each WordArt element
    names such a part as well. *)
Theorem summary_elements_traced (bad : option string)
    (members : list (string * string)) (s : summary) :
  summarize fromstring parse_tables parse_images ord (Zip bad members) = Val s ->
  Forall (comes_from (parsed_parts fromstring members)) (s_paragraphs s)
  /\ Forall (fun wa => exists root,
                 In (wa_source wa, root) (parsed_parts fromstring members))
            (s_wordart s).
Proof.
  intros Hs. apply summarize_returns_analyze in Hs. unfold analyze in Hs.
  destruct (otruthy bad); [ discriminate | ].
  destruct (for_each _ _ _) as [out | e] eqn:E; cbn [bind] in Hs; [ | discriminate ].
  apply process_loop_sources in E; [ | trivial | constructor | constructor ].
  destruct E as (HP & HW).
  unfold _merge_similar_runs in Hs.
  destruct (map_exc merge_paragraph_runs (s_paragraphs out)) as [ps | e] eqn:Em;
    cbn [bind] in Hs; [ | discriminate ].
  destruct (merge_across_sources _ _ _) as [merged | e]; cbn [bind] in Hs;
    [ | discriminate ].
  injection Hs as <-. cbn [s_paragraphs s_wordart]. split; [ | exact HW ].
  apply map_exc_Forall2 in Em. clear - Em HP.
  induction Em as [ | para para' l l' Hm _ IH]; [ constructor | ].
  inversion HP as [ | ? ? Hpara Hl]; subst. constructor; [ | now apply IH ].
  unfold merge_paragraph_runs in Hm.
  destruct (p_runs para) as [ | r rs]; [ now injection Hm as <- | ].
  destruct (Merge._merge_runs_by_style (r :: rs)) as [runs | e]; cbn [bind] in Hm;
    [ | discriminate ].
  injection Hm as <-. exact Hpara.
Qed.

End SourceProperties.

(** ** When the analysis succeeds *)

Section SuccessProperties.

Import DocParser CrossSource.

Variable fromstring : string -> exc elem.
Variables parse_tables parse_images : elem -> string -> list pyobj.
Variable ord : set_iteration.

Lemma map_exc_returns_on {A B : Type} (f : A -> exc B) (l : list A) :
  Forall (fun x => exists y, f x = Val y) l -> exists ys, map_exc f l = Val ys.
Proof.
  induction 1 as [ | x l (y & Hy) _ (ys & IH)]; [ now exists [] | ].
  exists (y :: ys). cbn [map_exc]. now rewrite Hy, IH.
Qed.

Lemma parsed_wordart_text (root : elem) (part : string) (out ws : list wordart) :
  find [Desc (qn "w14" "textEffect")] root = None ->
  DrawingParser.parse root part out = Val ws ->
  exists news, ws = out ++ news /\ Forall (fun wa => is_some (wa_text wa) = true) news.
Proof.
  intros Hte. rewrite drawing_parse_spec. unfold find in Hte.
  destruct (findall [Desc (qn "w14" "textEffect")] root) as [ | te tes]; [ | discriminate ].
  cbn [map app]. intros [= <-]. eexists. split; [ reflexivity | ].
  apply Forall_app. split.
  - apply yielded_Forall. intros x wa. unfold DrawingParser._parse_w_drawing.
    destruct (find _ x) as [txbx | ]; [ | discriminate ].
    destruct (truthy _); [ | discriminate ].
    destruct (DrawingParser._extract_size txbx) as [size | e]; cbn [bind]; [ | discriminate ].
    now intros [= <-].
  - apply yielded_Forall. intros x wa. unfold DrawingParser._parse_vml_wordart.
    destruct (find _ x) as [textpath | ]; [ | discriminate ].
    destruct (DrawingParser._try_size _) as [size | e]; cbn [bind]; [ | discriminate ].
    now intros [= <-].
Qed.

Lemma process_part_succeeds (members : list (string * string)) (n : string) (out : summary) :
  In n (map fst members) ->
  (forall name root,
      In (name, root) (parsed_parts fromstring members) ->
      find [Desc (qn "w14" "textEffect")] root = None
      /\ forall ip, In ip (plain_nodes root) ->
                    returns (ParagraphParser.parse_paragraph_props (snd ip)) = true) ->
  Forall (fun para => forallb has_text (p_runs para) = true) (s_paragraphs out) ->
  Forall (fun wa => is_some (wa_text wa) = true) (s_wordart out) ->
  exists out1,
    process_part fromstring parse_tables parse_images members out n = Val out1
    /\ Forall (fun para => forallb has_text (p_runs para) = true) (s_paragraphs out1)
    /\ Forall (fun wa => is_some (wa_text wa) = true) (s_wordart out1).
Proof.
  intros Hin Hparts HP HW. unfold process_part.
  pose proof (part_root_In fromstring members n) as Hroot. unfold part_root in Hroot.
  destruct (eligible n); cbn [negb]; [ | now exists out ].
  destruct (get_xml fromstring members n) as [[root | ] | e] eqn:Ex; cbn [bind].
  - specialize (Hroot root Hin eq_refl). destruct (Hparts n root Hroot) as (Hte & Hprops).
    destruct (parse_loop_returns n (ParagraphParser.enumerate 1
                                      (findall [Desc (qn "w" "p")] root))
                (s_paragraphs out) Hprops) as (ps & Eps).
    change (for_each (ParagraphParser.parse_paragraph n)
              (ParagraphParser.enumerate 1 (findall [Desc (qn "w" "p")] root))
              (s_paragraphs out))
      with (ParagraphParser.parse_paragraphs root n (s_paragraphs out)) in Eps.
    rewrite Eps. cbn [bind].
    destruct (DrawingParser.parse root n (s_wordart out)) as [ws | e] eqn:Ews.
    2:{ rewrite drawing_parse_spec in Ews. discriminate. }
    cbn [bind]. eexists. split; [ reflexivity | ].
    destruct (parse_paragraphs_spec root n _ ps Eps) as (news & -> & F).
    destruct (parsed_wordart_text root n _ ws Hte Ews) as (neww & -> & G).
    unfold parse_all_images_in_document, parse_all_tables_in_document.
    assert (Fp : Forall (fun para => forallb has_text (p_runs para) = true)
                        (s_paragraphs out ++ news)).
    { apply Forall_app. split; [ exact HP | ].
      apply Forall2_In_r in F. revert F. apply Forall_impl.
      intros para (ip & _ & _ & _ & _ & Hh & _). exact Hh. }
    assert (Fw : Forall (fun wa => is_some (wa_text wa) = true) (s_wordart out ++ neww)).
    { apply Forall_app. now split. }
    destruct (parse_tables root n), (parse_images root n); now split.
  - now exists out.
  - unfold get_xml in Ex. destruct (zread members n) as [c | ]; [ | discriminate ].
    destruct (fromstring c); discriminate.
Qed.

Lemma process_loop_succeeds (members : list (string * string)) (names : list string)
    (out : summary) :
  (forall n, In n names -> In n (map fst members)) ->
  (forall name root,
      In (name, root) (parsed_parts fromstring members) ->
      find [Desc (qn "w14" "textEffect")] root = None
      /\ forall ip, In ip (plain_nodes root) ->
                    returns (ParagraphParser.parse_paragraph_props (snd ip)) = true) ->
  Forall (fun para => forallb has_text (p_runs para) = true) (s_paragraphs out) ->
  Forall (fun wa => is_some (wa_text wa) = true) (s_wordart out) ->
  exists out',
    for_each (process_part fromstring parse_tables parse_images members) names out = Val out'
    /\ Forall (fun para => forallb has_text (p_runs para) = true) (s_paragraphs out')
    /\ Forall (fun wa => is_some (wa_text wa) = true) (s_wordart out').
Proof.
  intros Hnames Hparts. revert out Hnames.
  induction names as [ | n names IH]; intros out Hnames HP HW.
  - exists out. now split.
  - destruct (process_part_succeeds members n out (Hnames n (or_introl eq_refl))
                Hparts HP HW) as (out1 & E1 & HP1 & HW1).
    destruct (IH out1 (fun m Hm => Hnames m (or_intror Hm)) HP1 HW1)
      as (out' & E' & HP' & HW').
    exists out'. cbn [for_each]. rewrite E1. cbn [bind]. now split.
Qed.

(** X18.  The analysis of an archive that passed the integrity test
    returns a summary as soon as, in every part that is read, there is no
    text-effect node and the properties of every paragraph that is no
    WordArt carrier parse.  Nothing else can make it fail: not the run
    properties, not the drawings, not the two merge passes, not the tables
    and images. *)
Theorem analysis_succeeds (members : list (string * string)) :
  (forall name root,
      In (name, root) (parsed_parts fromstring members) ->
      find [Desc (qn "w14" "textEffect")] root = None
      /\ forall ip, In ip (plain_nodes root) ->
                    returns (ParagraphParser.parse_paragraph_props (snd ip)) = true) ->
  exists s, summarize fromstring parse_tables parse_images ord (Zip None members) = Val s.
Proof.
  intros Hparts. unfold DocParser.summarize, analyze. cbn [otruthy].
  destruct (process_loop_succeeds members (map fst members) empty_summary
              (fun n H => H) Hparts (Forall_nil _) (Forall_nil _))
    as (out & E & HP & HW).
  rewrite E. cbn [bind]. unfold _merge_similar_runs.
  destruct (map_exc_returns_on merge_paragraph_runs (s_paragraphs out)) as (ps & Eps).
  { revert HP. apply Forall_impl. intros para Hh.
    destruct (merge_paragraph_runs_spec para Hh) as (runs' & Em & _). eexists. exact Em. }
  rewrite Eps. cbn [bind s_paragraphs s_wordart].
  destruct (merge_grouped ord ps (s_wordart out)) as (m & Em & _).
  { apply forallb_forall. rewrite Forall_forall in HW. exact HW. }
  rewrite Em. cbn [bind try_except]. now eexists.
Qed.

End SuccessProperties.

(** X17 on [two_part_archive]: the sources of its two paragraphs are the
    two parts. *)
Lemma summary_elements_traced_witness :
  exists s,
    DocParser.summarize sample_fromstring nothing nothing insertion_order
      two_part_archive = Val s
    /\ map p_source (s_paragraphs s) = ["word/document.xml"; "word/header1.xml"]
    /\ Forall (comes_from (parsed_parts sample_fromstring
                             [ ("word/document.xml", title_xml "FF0000");
                               ("word/header1.xml", title_xml "0000FF") ]))
              (s_paragraphs s).
Proof.
  destruct (DocParser.summarize sample_fromstring nothing nothing insertion_order
              two_part_archive) as [s | e] eqn:E; [ | vm_compute in E; discriminate ].
  exists s. split; [ reflexivity | ]. split.
  - vm_compute in E. injection E as <-. reflexivity.
  - apply (summary_elements_traced sample_fromstring nothing nothing insertion_order
             None _ s E).
Defined.

(** X18 on [two_part_archive]: no text effect, no paragraph properties. *)
Lemma analysis_succeeds_witness :
  exists s,
    DocParser.summarize sample_fromstring nothing nothing insertion_order
      (Zip None [ ("word/document.xml", title_xml "FF0000");
                  ("word/header1.xml", title_xml "0000FF") ]) = Val s.
Proof.
  apply (analysis_succeeds sample_fromstring nothing nothing insertion_order).
  intros name root H.
  change (parsed_parts sample_fromstring
            [ ("word/document.xml", title_xml "FF0000");
              ("word/header1.xml", title_xml "0000FF") ])
    with [ ("word/document.xml", title_part "FF0000");
           ("word/header1.xml", title_part "0000FF") ] in H.
  destruct H as [[= <- <-] | [[= <- <-] | []]].
  - split; [ reflexivity | ]. intros ip [<- | []]. reflexivity.
  - split; [ reflexivity | ]. intros ip [<- | []]. reflexivity.
Defined.

